(** * Conversation store and annotation pipeline of the Telex AI agent

    A shallow embedding of [main.go]: the keyword-based extractors
    ([extractIntent], [extractEntities], [extractTopics]), the per-user
    conversation store ([updateConversationContext]), the prompt builder
    ([buildContextPrompt]) and the three request handlers that tie them to
    the completion API and to the messaging relay.

    Go strings are byte sequences; they are modelled by [string] (a list
    of 8-bit characters).  [strings.ToLower] and [strings.Fields] read a
    string rune by rune: the UTF-8 decoding of package [utf8], the white
    space of [unicode.IsSpace] and the mapping of runes of [strings.Map]
    are modelled as Go defines them, for every byte sequence.  The
    lower-case mapping of the runes above U+007F is a table of package
    [unicode] that changes with the Unicode version of the Go release;
    it is the parameter [to_lower] of the development. *)

From Stdlib Require Import ZArith QArith Ascii String DecimalString.
From stdpp Require Import gmap strings list fin_maps.

Open Scope Z_scope.
Open Scope string_scope.
Open Scope list_scope.

(** ** Strings, runes, and the [strings] and [fmt] functions the program calls *)

(** Go's [byte(x)] and the value of a byte. *)
Definition byte (c : ascii) : Z := Z.of_N (N_of_ascii c).
Definition char (b : Z) : ascii := ascii_of_N (Z.to_N (b mod 256)).

Module utf8.

Local Open Scope Z_scope.

(** A rune is a code point, an [int32]; it is kept as an integer. *)
Definition RuneError : Z := 0xFFFD.
Definition RuneSelf : Z := 0x80.
Definition MaxRune : Z := 0x10FFFF.

(** The next byte of a sequence, when it is within [lo..hi]: its six
    payload bits and the rest of the string. *)
Definition continuation (lo hi : Z) (s : string) : option (Z * string) :=
  match s with
  | EmptyString => None
  | String c s' =>
      let b := byte c in
      if (lo <=? b) && (b <=? hi) then Some (Z.land b 0x3F, s') else None
  end.

(** [utf8.DecodeRuneInString]: the first rune of [s] and its width in
    bytes; an invalid or incomplete encoding gives [RuneError] and the
    width 1, the empty string [RuneError] and the width 0. *)
Definition DecodeRuneInString (s : string) : Z * nat :=
  match s with
  | EmptyString => (RuneError, 0%nat)
  | String c0 s1 =>
      let b0 := byte c0 in
      if b0 <? RuneSelf then (b0, 1%nat)
      else if b0 <? 0xC2 then (RuneError, 1%nat)
      else if b0 <? 0xE0 then
        match continuation 0x80 0xBF s1 with
        | Some (x1, _) => (Z.lor (Z.shiftl (Z.land b0 0x1F) 6) x1, 2%nat)
        | None => (RuneError, 1%nat)
        end
      else if b0 <? 0xF0 then
        let lo := if b0 =? 0xE0 then 0xA0 else 0x80 in
        let hi := if b0 =? 0xED then 0x9F else 0xBF in
        match continuation lo hi s1 with
        | Some (x1, s2) =>
            match continuation 0x80 0xBF s2 with
            | Some (x2, _) =>
                (Z.lor (Z.lor (Z.shiftl (Z.land b0 0x0F) 12) (Z.shiftl x1 6)) x2,
                 3%nat)
            | None => (RuneError, 1%nat)
            end
        | None => (RuneError, 1%nat)
        end
      else if b0 <? 0xF5 then
        let lo := if b0 =? 0xF0 then 0x90 else 0x80 in
        let hi := if b0 =? 0xF4 then 0x8F else 0xBF in
        match continuation lo hi s1 with
        | Some (x1, s2) =>
            match continuation 0x80 0xBF s2 with
            | Some (x2, s3) =>
                match continuation 0x80 0xBF s3 with
                | Some (x3, _) =>
                    (Z.lor (Z.lor (Z.lor (Z.shiftl (Z.land b0 0x07) 18)
                                     (Z.shiftl x1 12)) (Z.shiftl x2 6)) x3,
                     4%nat)
                | None => (RuneError, 1%nat)
                end
            | None => (RuneError, 1%nat)
            end
        | None => (RuneError, 1%nat)
        end
      else (RuneError, 1%nat)
  end.

(** The bytes that [utf8.AppendRune] writes for [r]; a surrogate or a
    value out of range is written as [RuneError]. *)
Definition EncodeRune (r : Z) : string :=
  let cont (x : Z) := char (Z.lor 0x80 (Z.land x 0x3F)) in
  let three (r : Z) :=
    String (char (Z.lor 0xE0 (Z.shiftr r 12)))
      (String (cont (Z.shiftr r 6)) (String (cont r) "")) in
  if (0 <=? r) && (r <=? 0x7F) then String (char r) ""
  else if (0 <=? r) && (r <=? 0x7FF) then
    String (char (Z.lor 0xC0 (Z.shiftr r 6))) (String (cont r) "")
  else if (r <? 0) || (MaxRune <? r) || ((0xD800 <=? r) && (r <=? 0xDFFF))
  then three RuneError
  else if r <=? 0xFFFF then three r
  else
    String (char (Z.lor 0xF0 (Z.shiftr r 18)))
      (String (cont (Z.shiftr r 12))
         (String (cont (Z.shiftr r 6)) (String (cont r) ""))).

End utf8.
(** The slices [s[:n]] and [s[n:]] of a string. *)
Fixpoint slice_to (n : nat) (s : string) : string :=
  match n, s with
  | S n', String c s' => String c (slice_to n' s')
  | _, _ => EmptyString
  end.

Fixpoint slice_from (n : nat) (s : string) : string :=
  match n, s with
  | S n', String _ s' => slice_from n' s'
  | _, _ => s
  end.

(** Go's [for i, c := range s]: the runes of [s] in order, each with the
    bytes [s[i:i+width]] it was decoded from; a byte that starts no valid
    encoding gives [utf8.RuneError] of width 1.  [inside] counts the
    bytes of the rune decoded last that are still to be passed. *)
Fixpoint range_loop (inside : nat) (s : string) : list (Z * string) :=
  match s with
  | EmptyString => []
  | String _ s' =>
      match inside with
      | S inside' => range_loop inside' s'
      | O =>
          let '(c, width) := utf8.DecodeRuneInString s in
          (c, slice_to width s) :: range_loop (width - 1) s'
      end
  end.

Definition range_string (s : string) : list (Z * string) := range_loop 0 s.

Module unicode.

Local Open Scope Z_scope.

Definition MaxASCII : Z := 0x7F.
Definition MaxLatin1 : Z := 0xFF.

(** [unicode.IsSpace]: the Latin-1 cases of the function, then the
    rest of the property White_Space. *)
Definition IsSpace (r : Z) : bool :=
  if (0 <=? r) && (r <=? MaxLatin1)
  then (9 <=? r) && (r <=? 13) || (r =? 0x20) || (r =? 0x85) || (r =? 0xA0)
  else (r =? 0x1680) || (0x2000 <=? r) && (r <=? 0x200A)
       || (r =? 0x2028) || (r =? 0x2029) || (r =? 0x202F) || (r =? 0x205F)
       || (r =? 0x3000).

(** [unicode.ToLower]: the ASCII case of the function, then the
    lower-case mapping [to_lower] of the table [unicode.CaseRanges]. *)
Definition ToLower (to_lower : Z -> Z) (r : Z) : Z :=
  if r <=? MaxASCII
  then (if (65 <=? r) && (r <=? 90) then r + 32 else r)
  else to_lower r.

End unicode.

Module gostrings.

(** [strings.HasPrefix s prefix]. *)
Fixpoint HasPrefix (s prefix : string) {struct prefix} : bool :=
  match prefix, s with
  | EmptyString, _ => true
  | String _ _, EmptyString => false
  | String p prefix', String c s' =>
      if Ascii.eqb c p then HasPrefix s' prefix' else false
  end.

(** [strings.Contains s substr]: [substr] starts at some offset of [s]. *)
Fixpoint Contains (s substr : string) : bool :=
  HasPrefix s substr ||
  match s with
  | EmptyString => false
  | String _ s' => Contains s' substr
  end.

(** [strings.Map].  Its second loop, from the first rune that the
    mapping changes on: every rune [c] is replaced by [mapping c],
    written with [WriteRune]; a negative result is dropped. *)
Fixpoint map_runes (mapping : Z -> Z) (runes : list (Z * string)) : string :=
  match runes with
  | [] => ""
  | (c, _) :: runes' =>
      let r := mapping c in
      (if (0 <=? r)%Z then utf8.EncodeRune r else "")
      +:+ map_runes mapping runes'
  end.

(** Its first loop: the bytes of the runes that the mapping leaves as
    they are are kept; a byte that [range] gave as [utf8.RuneError] of
    width 1 counts as changed. *)
Fixpoint map_unchanged (mapping : Z -> Z) (runes : list (Z * string))
    : string :=
  match runes with
  | [] => ""
  | (c, bytes) :: runes' =>
      let r := mapping c in
      if (r =? c)%Z
         && negb ((c =? utf8.RuneError)%Z && (String.length bytes =? 1)%nat)
      then bytes +:+ map_unchanged mapping runes'
      else (if (0 <=? r)%Z then utf8.EncodeRune r else "")
           +:+ map_runes mapping runes'
  end.

Definition Map (mapping : Z -> Z) (s : string) : string :=
  map_unchanged mapping (range_string s).

(** [strings.ToLower].  A string of ASCII bytes is lowered byte by byte,
    and returned as it is when it has no capital; any other string goes
    through [Map] with [unicode.ToLower]. *)
Fixpoint isASCII (s : string) : bool :=
  match s with
  | EmptyString => true
  | String c s' => (byte c <? utf8.RuneSelf)%Z && isASCII s'
  end.

Fixpoint hasUpper (s : string) : bool :=
  match s with
  | EmptyString => false
  | String c s' => ((65 <=? byte c) && (byte c <=? 90))%Z || hasUpper s'
  end.

Definition lower_byte (c : ascii) : ascii :=
  let b := byte c in
  if ((65 <=? b) && (b <=? 90))%Z then char (b + 32) else c.

Fixpoint lower_ascii (s : string) : string :=
  match s with
  | EmptyString => EmptyString
  | String c s' => String (lower_byte c) (lower_ascii s')
  end.

Definition ToLower (to_lower : Z -> Z) (s : string) : string :=
  if isASCII s then (if hasUpper s then lower_ascii s else s)
  else Map (unicode.ToLower to_lower) s.

(** [strings.FieldsFunc]: [start] is [Some] of the bytes [s[start:end]]
    of the field being read where the function has [start >= 0]. *)
Fixpoint fields_runes (f : Z -> bool) (start : option string)
    (runes : list (Z * string)) : list string :=
  match runes with
  | [] => match start with Some word => [word] | None => [] end
  | (rune, bytes) :: runes' =>
      if f rune
      then match start with
           | Some word => word :: fields_runes f None runes'
           | None => fields_runes f None runes'
           end
      else match start with
           | Some word => fields_runes f (Some (word +:+ bytes)) runes'
           | None => fields_runes f (Some bytes) runes'
           end
  end.

Definition FieldsFunc (s : string) (f : Z -> bool) : list string :=
  fields_runes f None (range_string s).

(** The table [asciiSpace]: tab, line feed, vertical tab, form feed,
    carriage return and space. *)
Definition asciiSpace (c : ascii) : bool :=
  let b := byte c in
  ((9 <=? b) && (b <=? 13) || (b =? 32))%Z.

(** The scanning loop of [strings.Fields] for a string of ASCII bytes;
    [cur] is the field being read, empty between two fields. *)
Fixpoint fields_from (cur : string) (s : string) : list string :=
  match s with
  | EmptyString => if String.eqb cur "" then [] else [cur]
  | String c s' =>
      if asciiSpace c
      then (if String.eqb cur "" then fields_from "" s'
            else cur :: fields_from "" s')
      else fields_from (cur +:+ String c "") s'
  end.

(** [strings.Fields]: the loop above when every byte of [s] is ASCII,
    [FieldsFunc] with [unicode.IsSpace] when one is not. *)
Definition Fields (s : string) : list string :=
  if isASCII s then fields_from "" s else FieldsFunc s unicode.IsSpace.

(** [strings.Join elems sep]. *)
Fixpoint Join (elems : list string) (sep : string) : string :=
  match elems with
  | [] => ""
  | [e] => e
  | e :: rest => e +:+ sep +:+ Join rest sep
  end.

End gostrings.

(** [fmt.Sprintf("%d", n)]: the decimal digits of [n], with a minus sign
    when it is negative. *)
Definition Sprintf_d (n : Z) : string := NilZero.string_of_int (Z.to_int n).

(** Go's [int] is a 64-bit two's complement integer; [n++] wraps. *)
Definition int_wrap (n : Z) : Z := (n + 2 ^ 63) mod 2 ^ 64 - 2 ^ 63.

Definition int_incr (n : Z) : Z := int_wrap (n + 1).

Import gostrings.

(** A lower-case mapping for the examples: the Kelvin sign, the dotted
    capital I and the capital letters of Latin-1, as in Go's table. *)
Definition sample_lower (r : Z) : Z :=
  if (r =? 0x212A)%Z then 0x6B
  else if (r =? 0x130)%Z then 0x69
  else if ((0xC0 <=? r) && (r <=? 0xDE) && negb (r =? 0xD7))%Z then r + 32
  else r.

(** ** Data model *)

(** [time.Time] values are opaque to the program: it only stores what
    [time.Now()] returns.  They are modelled by an integer instant. *)
Definition Time := Z.

Record TelexMessage := {
  msg_ID : string;
  msg_From : string;
  msg_To : string;
  msg_Content : string;
  msg_Timestamp : Time;
  msg_Type : string
}.

Record TelexUser := {
  user_ID : string;
  user_Username : string;
  user_Name : string
}.

Record TelexWebhook := {
  wh_Event : string;
  wh_Message : TelexMessage;
  wh_User : TelexUser
}.

Record TelexResponse := {
  tr_Status : string;
  tr_Message : string
}.

(** [Confidence] is only ever one of the literals [0.0] and [0.90]; it is
    kept as a rational.  A nil [Entities] map is the empty map. *)
Record AgentResponse := {
  Reply : string;
  Intent : string;
  Entities : gmap string string;
  Confidence : Q
}.

Record ConversationContext := {
  UserID : string;
  LastMessage : string;
  MessageCount : Z;
  Topics : list string;
  Timestamp : Time
}.

(** Go's [error] values, by their message. *)
Inductive result (A : Type) : Type :=
| Ok (a : A)
| Err (e : string).
Arguments Ok {A} a.
Arguments Err {A} e.

(** ** The program *)

(** The lower-case mapping of the runes above U+007F: what
    [unicode.To(unicode.LowerCase, r)] returns.  The program's calls of
    [strings.ToLower] use it. *)
Section program.

Variable to_lower : Z -> Z.

Local Abbreviation ToLower := (gostrings.ToLower to_lower).

(** ** Extractors *)

Definition extractIntent (message : string) : string :=
  let lower := ToLower message in
  if Contains lower "help" || Contains lower "assist" then "help_request"
  else if Contains lower "?" then "question"
  else if Contains lower "thank" then "gratitude"
  else if Contains lower "hello" || Contains lower "hi" then "greeting"
  else "general".

(** One turn of the loop over [words] in [extractEntities]. *)
Definition entities_step (entities : gmap string string) (word : string)
  : gmap string string :=
  let entities :=
    if HasPrefix word "@" then <["mention" := word]> entities else entities in
  if HasPrefix word "#" then <["hashtag" := word]> entities else entities.

Definition extractEntities (message : string) : gmap string string :=
  let words := Fields (ToLower message) in
  foldl entities_step ∅ words.

(** The keyword table of [extractTopics], in the order of the map
    literal. *)
Definition keywords : list (string * string) :=
  [ ("code", "programming");
    ("python", "programming");
    ("go", "programming");
    ("weather", "weather");
    ("help", "support");
    ("how", "tutorial") ].

(** [keywords] is a Go map, and [range] visits the entries of a map in an
    order that the language leaves unspecified and that changes from one
    loop to the next.  The order used by a call is the parameter [iter];
    it is a legal order when it is a permutation of the table. *)
Definition iteration_order (iter : list (string * string)) : Prop :=
  iter ≡ₚ keywords.

Definition topics_step (lower : string) (topics : list string)
    (entry : string * string) : list string :=
  let '(keyword, topic) := entry in
  if Contains lower keyword then topics ++ [topic] else topics.

Definition extractTopics (iter : list (string * string)) (message : string)
  : list string :=
  let lower := ToLower message in
  foldl (topics_step lower) [] iter.

Fixpoint contains (slice : list string) (item : string) : bool :=
  match slice with
  | [] => false
  | s :: slice' => if String.eqb s item then true else contains slice' item
  end.

(** ** Conversation store *)

(** [conversationHistory] maps a user id to a pointer to its context.
    Each pointer is created by [updateConversationContext], stored under
    one key only and never handed out, so the store is modelled as a map
    from user ids to context values, and a mutation through the pointer
    as the replacement of the entry. *)
Abbreviation Store := (gmap string ConversationContext).

(** One turn of the loop that adds the topics of a message to [ctx]. *)
Definition add_topic (ctx : ConversationContext) (topic : string)
  : ConversationContext :=
  if negb (contains (Topics ctx) topic)
  then {| UserID := UserID ctx; LastMessage := LastMessage ctx;
          MessageCount := MessageCount ctx;
          Topics := Topics ctx ++ [topic];
          Timestamp := Timestamp ctx |}
  else ctx.

(** The zero value of [time.Time], left in a context by its literal. *)
Definition zero_time : Time := 0.

Definition updateConversationContext (now : Time)
    (iter : list (string * string)) (userID message : string)
    (conversationHistory : Store) : Store :=
  let ctx :=
    match conversationHistory !! userID with
    | Some ctx => ctx
    | None => {| UserID := userID; LastMessage := ""; MessageCount := 0;
                 Topics := []; Timestamp := zero_time |}
    end in
  let ctx := {| UserID := UserID ctx; LastMessage := message;
                MessageCount := int_incr (MessageCount ctx);
                Topics := Topics ctx; Timestamp := now |} in
  let topics := extractTopics iter message in
  let ctx := foldl add_topic ctx topics in
  <[userID := ctx]> conversationHistory.

(** ** Prompt builder *)

Definition preamble : string :=
  "You are a helpful AI assistant integrated with Telex.im messaging platform. ".

Definition instruction : string :=
  "Respond naturally and helpfully to the following message:" +:+
  String (ascii_of_nat 10) (String (ascii_of_nat 10) "").

Definition turn_annotation (n : Z) : string :=
  "This is message #" +:+ Sprintf_d n +:+ " in the conversation. ".

Definition topics_annotation (topics : list string) : string :=
  "Previous topics discussed: " +:+ Join topics ", " +:+ ". ".

Definition buildContextPrompt (ctx : option ConversationContext)
    (message : string) : string :=
  let prompt := preamble in
  let prompt :=
    match ctx with
    | Some ctx =>
        if (0 <? MessageCount ctx)%Z then
          let prompt := prompt +:+ turn_annotation (MessageCount ctx) in
          if (0 <? length (Topics ctx))%nat
          then prompt +:+ topics_annotation (Topics ctx)
          else prompt
        else prompt
    | None => prompt
    end in
  prompt +:+ instruction +:+ message.

(** ** The outside world of a request *)

(** What one call of the completion API comes to: [client.Do] fails (the
    30 second timeout included), reading the body fails, or a response
    arrives with its status code, its body, and what [json.Unmarshal]
    makes of the body: the contents of the returned choices, or an
    error.  The request itself is a map of strings and numbers sent to a
    constant URL, so [json.Marshal] and [http.NewRequest] do not fail. *)
Inductive GroqExchange :=
| GroqDoError (e : string)
| GroqReadError (e : string)
| GroqResponse (StatusCode : Z) (body : string) (choices : result (list string)).

(** What one call of the relay API comes to: the request cannot be built
    or sent, or a response arrives with its status code and body. *)
Inductive TelexExchange :=
| TelexDoError (e : string)
| TelexReply (StatusCode : Z) (body : string).

(** The configuration read by [main] and the behaviour of the two
    external services, of the clock and of the map iteration during one
    request. *)
Record Env := {
  telexAPIKey : string;
  agentID : string;
  groq : string -> GroqExchange;
  telex : TelexMessage -> TelexExchange;
  clock : nat -> Time;
  range_order : list (string * string)
}.

(** Lines written with [log.Printf], by what they report. *)
Inductive LogLine :=
| LogUnauthorized
| LogParseError (e : string)
| LogReceived (event from : string)
| LogUnknownEvent (event : string)
| LogGenerateError (e : string)
| LogSendError (e : string)
| LogWelcomeError (e : string)
| LogSentReply (to : string) (confidence : Q).

(** What a handler does to the outside: the requests it issues to the
    two services and the lines it logs. *)
Inductive Effect :=
| GroqCall (prompt : string)
| TelexCall (msg : TelexMessage)
| Logged (line : LogLine).

(** The state a handler runs in: the process-wide store, the effects
    performed so far (oldest first) and the number of clock readings. *)
Record World := {
  conversationHistory : Store;
  trace : list Effect;
  ticks : nat
}.

Definition M (A : Type) : Type := World -> A * World.

Definition ret {A} (a : A) : M A := fun w => (a, w).

Definition bind {A B} (m : M A) (k : A -> M B) : M B :=
  fun w => let '(a, w') := m w in k a w'.

Notation "x <- m ;; k" := (bind m (fun x => k))
  (at level 100, m at next level, right associativity).
Notation "m ;;; k" := (bind m (fun _ => k))
  (at level 100, right associativity).

Definition emit (e : Effect) : M unit :=
  fun w => (tt, {| conversationHistory := conversationHistory w;
                   trace := trace w ++ [e];
                   ticks := ticks w |}).

Definition time_Now (env : Env) : M Time :=
  fun w => (clock env (ticks w),
            {| conversationHistory := conversationHistory w;
               trace := trace w;
               ticks := S (ticks w) |}).

Definition lookup_context (userID : string) : M (option ConversationContext) :=
  fun w => (conversationHistory w !! userID, w).

Definition modify_history (f : Store -> Store) : M unit :=
  fun w => (tt, {| conversationHistory := f (conversationHistory w);
                   trace := trace w;
                   ticks := ticks w |}).

(** [updateConversationContext] as a handler calls it: it reads the clock
    and iterates over the keyword map. *)
Definition update_context (env : Env) (userID message : string) : M unit :=
  now <- time_Now env ;;
  modify_history (updateConversationContext now (range_order env) userID message).

(** ** HTTP responses *)

Inductive JSONBody :=
| TelexBody (r : TelexResponse)
| AgentBody (a : AgentResponse)
| ErrorBody (e : string).

Record HTTPResponse := {
  StatusCode : Z;
  Body : JSONBody
}.

Definition StatusOK : Z := 200.
Definition StatusCreated : Z := 201.
Definition StatusBadRequest : Z := 400.
Definition StatusUnauthorized : Z := 401.
Definition StatusInternalServerError : Z := 500.

Definition JSON (code : Z) (body : JSONBody) : M HTTPResponse :=
  ret {| StatusCode := code; Body := body |}.

(** ** Clients of the two external services *)

(** The part of [callGroqAPI] that follows the HTTP exchange. *)
Definition groq_outcome (exchange : GroqExchange) : result string :=
  match exchange with
  | GroqDoError e => Err e
  | GroqReadError e => Err e
  | GroqResponse code body choices =>
      if negb (code =? StatusOK)%Z then Err ("groq API error: " +:+ body)
      else match choices with
           | Err e => Err e
           | Ok [] => Err "empty response from Groq"
           | Ok (content :: _) => Ok content
           end
  end.

Definition callGroqAPI (env : Env) (prompt : string) : M (result string) :=
  emit (GroqCall prompt) ;;;
  ret (groq_outcome (groq env prompt)).

(** The part of [sendTelexMessage] that follows the HTTP exchange. *)
Definition telex_outcome (exchange : TelexExchange) : result unit :=
  match exchange with
  | TelexDoError e => Err e
  | TelexReply code body =>
      if negb (code =? StatusOK)%Z && negb (code =? StatusCreated)%Z
      then Err ("telex API error: " +:+ body)
      else Ok tt
  end.

(** The message that [sendTelexMessage] builds. *)
Definition outgoing (env : Env) (now : Time) (toUserID content : string)
  : TelexMessage :=
  {| msg_ID := ""; msg_From := agentID env; msg_To := toUserID;
     msg_Content := content; msg_Timestamp := now; msg_Type := "text" |}.

Definition sendTelexMessage (env : Env) (toUserID content : string)
  : M (result unit) :=
  now <- time_Now env ;;
  let msg := outgoing env now toUserID content in
  emit (TelexCall msg) ;;;
  ret (telex_outcome (telex env msg)).

(** ** Handlers *)

Definition generateAIResponse (env : Env) (userID message : string)
  : M (result AgentResponse) :=
  ctx <- lookup_context userID ;;
  let contextPrompt := buildContextPrompt ctx message in
  groqResp <- callGroqAPI env contextPrompt ;;
  match groqResp with
  | Err e => ret (Err e)
  | Ok groqResp =>
      let intent := extractIntent message in
      let entities := extractEntities message in
      ret (Ok {| Reply := groqResp; Intent := intent; Entities := entities;
                 Confidence := 0.90 |})
  end.

Definition apology : string :=
  "I apologize, but I'm having trouble processing your message right now. Please try again.".

Definition handleIncomingMessage (env : Env) (msg : TelexMessage)
  : M HTTPResponse :=
  if String.eqb (msg_From msg) (agentID env)
  then JSON StatusOK (TelexBody {| tr_Status := "ignored"; tr_Message := "" |})
  else
    update_context env (msg_From msg) (msg_Content msg) ;;;
    r <- generateAIResponse env (msg_From msg) (msg_Content msg) ;;
    agentReply <-
      match r with
      | Ok agentReply => ret agentReply
      | Err e =>
          emit (Logged (LogGenerateError e)) ;;;
          ret {| Reply := apology; Intent := ""; Entities := ∅;
                 Confidence := 0.0 |}
      end ;;
    sent <- sendTelexMessage env (msg_From msg) (Reply agentReply) ;;
    match sent with
    | Err e =>
        emit (Logged (LogSendError e)) ;;;
        JSON StatusInternalServerError
          (TelexBody {| tr_Status := "error";
                        tr_Message := "Failed to send response" |})
    | Ok _ =>
        emit (Logged (LogSentReply (msg_From msg) (Confidence agentReply))) ;;;
        JSON StatusOK
          (TelexBody {| tr_Status := "success";
                        tr_Message := "Message processed" |})
    end.

Definition welcome (name : string) : string :=
  "Welcome " +:+ name +:+
  "! 👋 I'm an AI assistant here to help. Feel free to ask me anything!".

Definition handleUserJoined (env : Env) (user : TelexUser) : M HTTPResponse :=
  let welcomeMsg := welcome (user_Name user) in
  sent <- sendTelexMessage env (user_ID user) welcomeMsg ;;
  match sent with
  | Err e =>
      emit (Logged (LogWelcomeError e)) ;;;
      JSON StatusInternalServerError
        (TelexBody {| tr_Status := "error";
                      tr_Message := "Failed to send welcome message" |})
  | Ok _ => JSON StatusOK (TelexBody {| tr_Status := "success"; tr_Message := "" |})
  end.

(** The body of a direct-message request once bound. *)
Record DirectRequest := {
  req_UserID : string;
  req_Message : string
}.

(** [bound] is what [c.ShouldBindJSON(&req)] returns for the request
    body: the decoded request, or the binding error (malformed JSON or a
    missing required field). *)
Definition handleDirectMessage (env : Env) (bound : result DirectRequest)
  : M HTTPResponse :=
  match bound with
  | Err e => JSON StatusBadRequest (ErrorBody e)
  | Ok req =>
      update_context env (req_UserID req) (req_Message req) ;;;
      r <- generateAIResponse env (req_UserID req) (req_Message req) ;;
      match r with
      | Err e => JSON StatusInternalServerError (ErrorBody e)
      | Ok agentReply => JSON StatusOK (AgentBody agentReply)
      end
  end.

(** [authHeader] is the request's [Authorization] header (empty when the
    header is absent) and [bound] what [c.ShouldBindJSON(&webhook)]
    returns for the request body. *)
Definition handleTelexWebhook (env : Env) (authHeader : string)
    (bound : result TelexWebhook) : M HTTPResponse :=
  if negb (String.eqb authHeader ("Bearer " +:+ telexAPIKey env))
  then
    emit (Logged LogUnauthorized) ;;;
    JSON StatusUnauthorized
      (TelexBody {| tr_Status := "error"; tr_Message := "Unauthorized" |})
  else
    match bound with
    | Err e =>
        emit (Logged (LogParseError e)) ;;;
        JSON StatusBadRequest
          (TelexBody {| tr_Status := "error"; tr_Message := "Invalid payload" |})
    | Ok webhook =>
        emit (Logged (LogReceived (wh_Event webhook)
                                  (msg_From (wh_Message webhook)))) ;;;
        if String.eqb (wh_Event webhook) "message.received"
           || String.eqb (wh_Event webhook) "message"
        then handleIncomingMessage env (wh_Message webhook)
        else if String.eqb (wh_Event webhook) "user.joined"
        then handleUserJoined env (wh_User webhook)
        else if String.eqb (wh_Event webhook) "user.typing"
        then JSON StatusOK
               (TelexBody {| tr_Status := "acknowledged"; tr_Message := "" |})
        else
          emit (Logged (LogUnknownEvent (wh_Event webhook))) ;;;
          JSON StatusOK
            (TelexBody {| tr_Status := "acknowledged"; tr_Message := "" |})
    end.

(** A world in which nothing has happened yet. *)
Definition initial (h : Store) : World :=
  {| conversationHistory := h; trace := []; ticks := 0 |}.

(** ** Read-only endpoints *)

(** The JSON bodies of [getConversationHistory] and [getMetrics], by
    their fields. *)
Inductive InfoBody :=
| NotFoundBody (error : string)
| HistoryBody (userId : string) (messageCount : Z) (topics : list string)
    (lastMessage : string) (timestamp : Time)
| MetricsBody (totalConversations totalMessages activeUsers : Z)
    (aiProvider model : string) (timestamp : Time).

Record InfoResponse := {
  info_Status : Z;
  info_Body : InfoBody
}.

Definition StatusNotFound : Z := 404.

(** [userID] is the [:userId] parameter of the route. *)
Definition getConversationHistory (userID : string) : M InfoResponse :=
  ctx <- lookup_context userID ;;
  match ctx with
  | None =>
      ret {| info_Status := StatusNotFound;
             info_Body := NotFoundBody "No conversation found" |}
  | Some ctx =>
      ret {| info_Status := StatusOK;
             info_Body := HistoryBody (UserID ctx) (MessageCount ctx)
                            (Topics ctx) (LastMessage ctx) (Timestamp ctx) |}
  end.

(** The loop of [getMetrics] over the contexts it visits; [+=] on an
    [int] wraps. *)
Definition sum_counts (visited : list (string * ConversationContext)) : Z :=
  foldl (fun totalMessages entry =>
           int_wrap (totalMessages + MessageCount entry.2)) 0 visited.

(** [getMetrics] ranges over [conversationHistory], a Go map: [visit]
    gives the order in which the entries of a store are visited.  It is
    a legal order when it lists the entries of the store, each once. *)
Definition visit_order
    (visit : Store -> list (string * ConversationContext)) : Prop :=
  forall h, visit h ≡ₚ map_to_list h.

Definition getMetrics (env : Env)
    (visit : Store -> list (string * ConversationContext)) : M InfoResponse :=
  fun w =>
    let totalConversations := Z.of_nat (size (conversationHistory w)) in
    let totalMessages := sum_counts (visit (conversationHistory w)) in
    (now <- time_Now env ;;
     ret {| info_Status := StatusOK;
            info_Body := MetricsBody totalConversations totalMessages
                           totalConversations "Groq (FREE)" "Llama 3.3 70B"
                           now |}) w.

(** ** Start-up *)

(** What [main] keeps of the environment. *)
Record Config := {
  cfg_groqAPIKey : string;
  cfg_telexAPIKey : string;
  cfg_telexBaseURL : string;
  cfg_agentID : string;
  cfg_addr : string
}.

(** The configuration part of [main]: [Getenv] is [os.Getenv] once
    [godotenv.Load] has run, [log.Fatal] ends the program with its
    message, and [cfg_addr] is the address given to [r.Run]. *)
Definition main_config (Getenv : string -> string) : result Config :=
  let groqAPIKey := Getenv "GROQ_API_KEY" in
  let telexAPIKey := Getenv "TELEX_API_KEY" in
  let telexBaseURL := Getenv "TELEX_BASE_URL" in
  let agentID := Getenv "AGENT_ID" in
  if String.eqb groqAPIKey "" || String.eqb telexAPIKey ""
  then Err "Missing required API keys in environment"
  else
    let telexBaseURL :=
      if String.eqb telexBaseURL "" then "https://api.telex.im/v1"
      else telexBaseURL in
    let agentID := if String.eqb agentID "" then "ai-agent-001" else agentID in
    let port := Getenv "PORT" in
    let port := if String.eqb port "" then "8080" else port in
    Ok {| cfg_groqAPIKey := groqAPIKey; cfg_telexAPIKey := telexAPIKey;
          cfg_telexBaseURL := telexBaseURL; cfg_agentID := agentID;
          cfg_addr := ":" +:+ port |}.

(** ** Notions used to state the properties *)

(** [sub] occurs in [s]: the reading of "contains the substring". *)
Definition Substring (sub s : string) : Prop :=
  exists pre post, s = pre +:+ sub +:+ post.

(** The bytes of a list of runes. *)
Fixpoint bytes_of (runes : list (Z * string)) : string :=
  match runes with
  | [] => ""
  | (_, bytes) :: runes' => bytes +:+ bytes_of runes'
  end.

(** The runes with the Unicode property White_Space. *)
Definition white_space : list Z :=
  [9; 10; 11; 12; 13; 0x20; 0x85; 0xA0; 0x1680; 0x2000; 0x2001; 0x2002;
   0x2003; 0x2004; 0x2005; 0x2006; 0x2007; 0x2008; 0x2009; 0x200A;
   0x2028; 0x2029; 0x202F; 0x205F; 0x3000].

(** [word] is a field: it is not empty and none of its runes is white
    space. *)
Definition no_space (runes : list (Z * string)) : Prop :=
  Forall (fun rune => unicode.IsSpace rune.1 = false) runes.

Definition is_field (word : string) : Prop :=
  word ≠ "" /\ no_space (range_string word).

(** A byte that continues no encoding: an ASCII byte or a leading
    byte. *)
Definition noncont (c : ascii) : Prop := byte c < 0x80 \/ 0xC0 <= byte c.

(** [q] is empty or starts with such a byte. *)
Definition starts_rune (q : string) : Prop :=
  match q with
  | EmptyString => True
  | String c _ => noncont c
  end.

(** The field being read after the runes [l], none of them white
    space. *)
Definition field_so_far (start : option string) (l : list (Z * string))
    : option string :=
  match l, start with
  | [], _ => start
  | _, Some word => Some (word +:+ bytes_of l)
  | _, None => Some (bytes_of l)
  end.

Definition space_or_end (l : list (Z * string)) : Prop :=
  match l with
  | [] => True
  | (r, _) :: _ => unicode.IsSpace r = true
  end.

Definition intent_labels : list string :=
  ["help_request"; "question"; "gratitude"; "greeting"; "general"].

Definition mentions (words : list string) : list string :=
  List.filter (fun word => HasPrefix word "@") words.

Definition hashtags (words : list string) : list string :=
  List.filter (fun word => HasPrefix word "#") words.

(** The entries of the keyword table whose keyword occurs in [lower]. *)
Definition matched (lower : string) (table : list (string * string))
  : list (string * string) :=
  List.filter (fun entry => Contains lower entry.1) table.

(** How many times [tag] occurs in [topics]. *)
Definition occurrences (tag : string) (topics : list string) : nat :=
  length (List.filter (String.eqb tag) topics).

(** For each tag, the keywords of the table that stand for it and occur
    in [lower]. *)
Definition keywords_for (tag lower : string) : list (string * string) :=
  List.filter (fun entry => Contains lower entry.1 && String.eqb tag entry.2)
    keywords.

(** "Deduplicated, in first-seen order": each tag is kept where it first
    appears and its later occurrences are dropped. *)
Fixpoint dedup_first (tags : list string) : list string :=
  match tags with
  | [] => []
  | tag :: tags' => tag :: filter (fun t => t ≠ tag) (dedup_first tags')
  end.

(** What the store holds for a user, with the values of a fresh context
    when it holds nothing. *)
Definition stored_topics (h : Store) (userID : string) : list string :=
  from_option Topics [] (h !! userID).

Definition stored_count (h : Store) (userID : string) : Z :=
  from_option MessageCount 0 (h !! userID).

(** The context that [updateConversationContext] leaves under [userID]. *)
Definition updated_context (now : Time) (iter : list (string * string))
    (userID message : string) (h : Store) : ConversationContext :=
  let old := stored_topics h userID in
  {| UserID := from_option UserID userID (h !! userID);
     LastMessage := message;
     MessageCount := int_incr (stored_count h userID);
     Topics := old ++ filter (fun t => t ∉ old)
                        (dedup_first (extractTopics iter message));
     Timestamp := now |}.

(** Every context is stored under its own user id. *)
Definition keyed (h : Store) : Prop :=
  forall userID ctx, h !! userID = Some ctx -> UserID ctx = userID.

(** No stored context lists a topic twice. *)
Definition topics_distinct (h : Store) : Prop :=
  forall userID ctx, h !! userID = Some ctx -> NoDup (Topics ctx).

(** A store update, as data: the clock reading, the order in which the
    keyword map was iterated, the user and the message. *)
Record Update := {
  upd_now : Time;
  upd_iter : list (string * string);
  upd_user : string;
  upd_message : string
}.

Definition apply_update (h : Store) (e : Update) : Store :=
  updateConversationContext (upd_now e) (upd_iter e) (upd_user e)
    (upd_message e) h.

Definition apply_updates (h : Store) (es : list Update) : Store :=
  foldl apply_update h es.

(** The topics extracted from the messages of [userID], oldest first. *)
Definition topics_seen (userID : string) (es : list Update) : list string :=
  flat_map (fun e => if String.eqb (upd_user e) userID
                     then extractTopics (upd_iter e) (upd_message e)
                     else []) es.

(** The store once the handler of a message has updated it, and the
    prompt that the handler then builds. *)
Definition after_update (env : Env) (userID message : string) (w : World)
  : Store :=
  updateConversationContext (clock env (ticks w)) (range_order env)
    userID message (conversationHistory w).

Definition prompt_for (env : Env) (userID message : string) (w : World)
  : string :=
  buildContextPrompt (after_update env userID message w !! userID) message.

(** The prompts sent to the completion API, oldest first. *)
Definition prompts (effects : list Effect) : list string :=
  omap (fun e => match e with GroqCall prompt => Some prompt | _ => None end)
    effects.

(** The messages sent to the relay API, oldest first. *)
Definition relayed (effects : list Effect) : list TelexMessage :=
  omap (fun e => match e with TelexCall msg => Some msg | _ => None end)
    effects.

Definition fallback : AgentResponse :=
  {| Reply := apology; Intent := ""; Entities := ∅; Confidence := 0.0 |}.

Definition answer (message reply : string) : AgentResponse :=
  {| Reply := reply; Intent := extractIntent message;
     Entities := extractEntities message; Confidence := 0.90 |}.

(** The reply that [handleIncomingMessage] relays, given what the
    completion call came to. *)
Definition reply_for (message : string) (outcome : result string)
  : AgentResponse :=
  match outcome with
  | Ok reply => answer message reply
  | Err _ => fallback
  end.

Definition generate_log (outcome : result string) : list Effect :=
  match outcome with
  | Ok _ => []
  | Err e => [Logged (LogGenerateError e)]
  end.

(** [w] with one more log line. *)
Definition logged (line : LogLine) (w : World) : World :=
  {| conversationHistory := conversationHistory w;
     trace := trace w ++ [Logged line];
     ticks := ticks w |}.

Definition unauthorized : HTTPResponse :=
  {| StatusCode := StatusUnauthorized;
     Body := TelexBody {| tr_Status := "error"; tr_Message := "Unauthorized" |} |}.

Definition invalid_payload : HTTPResponse :=
  {| StatusCode := StatusBadRequest;
     Body := TelexBody {| tr_Status := "error";
                          tr_Message := "Invalid payload" |} |}.

(** What the claim on the order of update and prompt asks of a handler
    that takes world [w] to world [w'] for a message of [userID]: the
    store holds the updated context of the user, with the incremented
    count and the topics of the message; exactly one prompt was sent, the
    one built from that context; and that prompt reports the incremented
    count and lists the stored topics. *)
Definition prompt_after_update (env : Env) (userID message : string)
    (w w' : World) : Prop :=
  exists ctx' prompt,
    conversationHistory w' !! userID = Some ctx' /\
    MessageCount ctx' = int_incr (stored_count (conversationHistory w) userID) /\
    (forall topic, topic ∈ extractTopics (range_order env) message ->
       topic ∈ Topics ctx') /\
    prompts (trace w') = prompts (trace w) ++ [prompt] /\
    prompt = buildContextPrompt (Some ctx') message /\
    (0 < MessageCount ctx' ->
       Substring (turn_annotation (MessageCount ctx')) prompt /\
       (Topics ctx' ≠ [] -> Substring (Join (Topics ctx') ", ") prompt)) /\
    (0 <= stored_count (conversationHistory w) userID < 2 ^ 63 - 1 ->
       MessageCount ctx' = stored_count (conversationHistory w) userID + 1 /\
       0 < MessageCount ctx').

Definition message_processed : HTTPResponse :=
  {| StatusCode := StatusOK;
     Body := TelexBody {| tr_Status := "success";
                          tr_Message := "Message processed" |} |}.

Definition failed_to_send : HTTPResponse :=
  {| StatusCode := StatusInternalServerError;
     Body := TelexBody {| tr_Status := "error";
                          tr_Message := "Failed to send response" |} |}.

(** What the webhook caller and the sender see when the apology is
    substituted, for a handler that takes [w] to [w'] and answers [resp]:
    the apology is the one message relayed, to [userID]; the answer is
    200 with the confidence 0.0 logged when the relay succeeds, and 500
    when the relay fails. *)
Definition fallback_relayed (env : Env) (userID : string) (w w' : World)
    (resp : HTTPResponse) : Prop :=
  let out := outgoing env (clock env (S (ticks w))) userID apology in
  relayed (trace w') = relayed (trace w) ++ [out] /\
  (telex_outcome (telex env out) = Ok tt ->
     resp = message_processed /\
     last (trace w') = Some (Logged (LogSentReply userID 0.0))) /\
  (forall e', telex_outcome (telex env out) = Err e' ->
     resp = failed_to_send).

(** The topic tags of the keyword table. *)
Definition topic_tags : list string :=
  ["programming"; "weather"; "support"; "tutorial"].

(** The updates of [es] that are for [userID], oldest first. *)
Definition updates_of (userID : string) (es : list Update) : list Update :=
  List.filter (fun e => String.eqb (upd_user e) userID) es.

(** Every update of [es] iterated the keyword map in a legal order. *)
Definition legal_updates (es : list Update) : Prop :=
  Forall (fun e => iteration_order (upd_iter e)) es.

(** The sum of the stored message counts, as a mathematical integer. *)
Definition total_count (h : Store) : Z :=
  foldr (fun entry total => MessageCount entry.2 + total) 0 (map_to_list h).

(** The users that the updates [es] are for. *)
Definition users_of (es : list Update) : gset string :=
  list_to_set (upd_user <$> es).

(** The event of a webhook is one of the two message events. *)
Definition message_event (event : string) : Prop :=
  event = "message.received" \/ event = "message".

Definition acknowledged : HTTPResponse :=
  {| StatusCode := StatusOK;
     Body := TelexBody {| tr_Status := "acknowledged"; tr_Message := "" |} |}.

Definition ignored : HTTPResponse :=
  {| StatusCode := StatusOK;
     Body := TelexBody {| tr_Status := "ignored"; tr_Message := "" |} |}.

(** A handler that takes [w] to [w'] did nothing but log: the store is
    what it was and no request went to either service. *)
Definition only_logged (w w' : World) : Prop :=
  conversationHistory w' = conversationHistory w /\
  prompts (trace w') = prompts (trace w) /\
  relayed (trace w') = relayed (trace w).

(** A run of direct-message requests, each with the environment it is
    served in: the world after them, and the store updates that they
    amount to when the clock has been read [start] times before. *)
Definition handle_all (requests : list (Env * DirectRequest)) (w : World)
  : World :=
  foldl (fun w request =>
           (handleDirectMessage request.1 (Ok request.2) w).2) w requests.

Fixpoint updates_from (start : nat) (requests : list (Env * DirectRequest))
  : list Update :=
  match requests with
  | [] => []
  | (env, req) :: requests' =>
      {| upd_now := clock env start; upd_iter := range_order env;
         upd_user := req_UserID req; upd_message := req_Message req |}
      :: updates_from (S start) requests'
  end.

(** ** Inputs for the examples *)

(** Two environments for examples: in [env_down] the completion API
    answers every request with status 500; in [env_up] it returns one
    choice.  The relay accepts every message. *)
Definition env_down : Env :=
  {| telexAPIKey := "test_key_123";
     agentID := "ai-agent-001";
     groq := fun _ => GroqResponse 500 "upstream down" (Err "not JSON");
     telex := fun _ => TelexReply 200 "{}";
     clock := fun n => Z.of_nat n;
     range_order := keywords |}.

Definition env_up : Env :=
  {| telexAPIKey := "test_key_123";
     agentID := "ai-agent-001";
     groq := fun _ => GroqResponse 200 "{}" (Ok ["Sure."]);
     telex := fun _ => TelexReply 201 "{}";
     clock := fun n => Z.of_nat n;
     range_order := reverse keywords |}.

Definition alice_store : Store :=
  updateConversationContext 5 keywords "alice" "python code" ∅.

Definition hello_from_user : TelexMessage :=
  {| msg_ID := "msg_demo_001"; msg_From := "webhook_user_001";
     msg_To := "ai-agent-001"; msg_Content := "hello";
     msg_Timestamp := 3; msg_Type := "" |}.

Definition echo_of_agent : TelexWebhook :=
  {| wh_Event := "message";
     wh_Message := {| msg_ID := "m1"; msg_From := "ai-agent-001";
                      msg_To := "alice"; msg_Content := "help?";
                      msg_Timestamp := 1; msg_Type := "text" |};
     wh_User := {| user_ID := ""; user_Username := ""; user_Name := "" |} |}.

Definition typing_event : TelexWebhook :=
  {| wh_Event := "user.typing";
     wh_Message := {| msg_ID := ""; msg_From := "alice"; msg_To := "";
                      msg_Content := ""; msg_Timestamp := 0; msg_Type := "" |};
     wh_User := {| user_ID := ""; user_Username := ""; user_Name := "" |} |}.

(** * Properties *)

(** ** Examples *)

Example DecodeRuneInString_Kelvin :
  utf8.DecodeRuneInString (utf8.EncodeRune 0x212A +:+ "x") = (0x212A, 3%nat) /\
  utf8.DecodeRuneInString (utf8.EncodeRune 0x1F600) = (0x1F600, 4%nat) /\
  utf8.DecodeRuneInString (utf8.EncodeRune 0xE9) = (0xE9, 2%nat) /\
  utf8.DecodeRuneInString (String (char 0xC3) "a") = (utf8.RuneError, 1%nat) /\
  utf8.EncodeRune 0xD800 = utf8.EncodeRune utf8.RuneError.
Proof. repeat split; reflexivity. Qed.

Example range_string_mixed :
  range_string ("a" +:+ utf8.EncodeRune 0xE9 +:+ String (char 0x80) "b")
  = [(0x61, "a"); (0xE9, utf8.EncodeRune 0xE9);
     (utf8.RuneError, String (char 0x80) ""); (0x62, "b")].
Proof. reflexivity. Qed.

Example Fields_unicode_space :
  Fields ("@a" +:+ utf8.EncodeRune 0xA0 +:+ "#b" +:+ utf8.EncodeRune 0x3000
          +:+ "c" +:+ utf8.EncodeRune 9)
  = ["@a"; "#b"; "c"].
Proof. reflexivity. Qed.

Example Fields_invalid_bytes :
  Fields (String (char 0xC3) " a" +:+ String (char 0xA0) "")
  = [String (char 0xC3) ""; "a" +:+ String (char 0xA0) ""].
Proof. reflexivity. Qed.

Example ToLower_sample :
  gostrings.ToLower sample_lower
    ("THAN" +:+ utf8.EncodeRune 0x212A +:+ " you " +:+ utf8.EncodeRune 0xC9)
  = "thank you " +:+ utf8.EncodeRune 0xE9.
Proof. reflexivity. Qed.

Example ToLower_invalid_bytes :
  gostrings.ToLower sample_lower
    (String (char 0xC3) "A" +:+ String (char 0x80) "")
  = utf8.EncodeRune utf8.RuneError +:+ "a"
    +:+ utf8.EncodeRune utf8.RuneError.
Proof. reflexivity. Qed.

Example ToLower_mixed : ToLower "Hey @John #X?" = "hey @john #x?".
Proof. reflexivity. Qed.

Example Fields_runs :
  Fields "  a  bc d " = ["a"; "bc"; "d"].
Proof. reflexivity. Qed.

Example Sprintf_d_3 : Sprintf_d 3 = "3" /\ Sprintf_d (-12) = "-12" /\ Sprintf_d 0 = "0".
Proof. repeat split; reflexivity. Qed.

Example extractIntent_help_question : extractIntent "Can you HELP me?" = "help_request".
Proof. reflexivity. Qed.

Example extractEntities_demo :
  extractEntities "hey @john check #x and @mary"
  = <["hashtag" := "#x"]> (<["mention" := "@mary"]> ∅).
Proof. vm_compute. reflexivity. Qed.

Example extractTopics_demo :
  extractTopics keywords "Can you help me learn about Go programming?"
  = ["programming"; "support"].
Proof. reflexivity. Qed.

(** ** Strings *)

Section string_facts.

Implicit Types s sub pre post : string.

Lemma app_nil_l' s : "" +:+ s = s.
Proof. reflexivity. Qed.

Lemma app_cons c s1 s2 : String c s1 +:+ s2 = String c (s1 +:+ s2).
Proof. reflexivity. Qed.

Lemma app_empty_r s : s +:+ "" = s.
Proof.
  induction s as [|c s' IH]; [done|]. by rewrite app_cons, IH.
Qed.

Lemma app_assoc' s1 s2 s3 : (s1 +:+ s2) +:+ s3 = s1 +:+ s2 +:+ s3.
Proof.
  induction s1 as [|c s1' IH]; [done|]. by rewrite !app_cons, IH.
Qed.

Lemma HasPrefix_spec s sub :
  HasPrefix s sub = true <-> exists post, s = sub +:+ post.
Proof.
  revert s. induction sub as [|p sub' IH]; intros s; simpl.
  - split; [intros _; by exists s | done].
  - destruct s as [|c s].
    + split; [done | intros [post H]; discriminate H].
    + destruct (Ascii.eqb_spec c p) as [->|Hne].
      * rewrite IH. split; intros [post H]; exists post.
        -- by rewrite app_cons, H.
        -- rewrite app_cons in H. by injection H.
      * split; [done |].
        intros [post H]. rewrite app_cons in H. injection H. congruence.
Qed.

Lemma Contains_spec s sub : Contains s sub = true <-> Substring sub s.
Proof.
  induction s as [|c s' IH]; simpl.
  - rewrite orb_false_r, HasPrefix_spec. split.
    + intros [post H]. by exists "", post.
    + intros [[|c pre] [post H]]; [by exists post | discriminate H].
  - rewrite orb_true_iff, IH, HasPrefix_spec. split.
    + intros [[post H] | [pre [post H]]].
      * by exists "", post.
      * exists (String c pre), post. by rewrite app_cons, H.
    + intros [[|c' pre] [post H]].
      * left. by exists post.
      * right. exists pre, post. rewrite app_cons in H. by injection H.
Qed.

Lemma Contains_false s sub : Contains s sub = false <-> ~ Substring sub s.
Proof.
  rewrite <- Contains_spec. by destruct (Contains s sub).
Qed.

Lemma Substring_app_mid pre sub post : Substring sub (pre +:+ sub +:+ post).
Proof. by exists pre, post. Qed.


End string_facts.

(** ** Bytes and runes *)

Ltac bool_cases :=
  repeat match goal with
         | |- context [if ?b then _ else _] => destruct b eqn:?
         end.

Ltac bool_hyps :=
  repeat match goal with
         | H : (_ && _) = true |- _ => apply andb_prop in H as [? ?]
         | H : (_ && _) = false |- _ => apply andb_false_iff in H as [?|?]
         | H : (_ <=? _)%Z = true |- _ => apply Z.leb_le in H
         | H : (_ <=? _)%Z = false |- _ => apply Z.leb_gt in H
         | H : (_ <? _)%Z = true |- _ => apply Z.ltb_lt in H
         | H : (_ <? _)%Z = false |- _ => apply Z.ltb_ge in H
         | H : (_ =? _)%Z = true |- _ => apply Z.eqb_eq in H
         | H : (_ =? _)%Z = false |- _ => apply Z.eqb_neq in H
         end.

Section bytes.

Lemma byte_range c : 0 <= byte c < 256.
Proof.
  unfold byte. pose proof (N_ascii_bounded c) as H. lia.
Qed.

Lemma char_byte c : char (byte c) = c.
Proof.
  unfold char, byte. pose proof (N_ascii_bounded c) as H.
  rewrite Z.mod_small by lia. rewrite N2Z.id. apply ascii_N_embedding.
Qed.

Lemma byte_char b : 0 <= b < 256 -> byte (char b) = b.
Proof.
  intros H. unfold char, byte. rewrite Z.mod_small by lia.
  rewrite N_ascii_embedding by lia. lia.
Qed.

Lemma continuation_boundary lo hi c rest :
  0x80 <= lo -> hi <= 0xBF -> noncont c ->
  utf8.continuation lo hi (String c rest) = None.
Proof.
  intros Hlo Hhi [Hc|Hc]; unfold utf8.continuation; cbv zeta;
    bool_cases; try done; bool_hyps; lia.
Qed.

Lemma decode_boundary p c rest :
  p ≠ "" -> noncont c ->
  utf8.DecodeRuneInString (p +:+ String c rest) = utf8.DecodeRuneInString p.
Proof.
  intros Hp Hc. destruct p as [|c0 p1]; [done|]. rewrite app_cons.
  unfold utf8.DecodeRuneInString. cbv zeta.
  destruct (byte c0 <? utf8.RuneSelf)%Z; [done|].
  destruct (byte c0 <? 0xC2)%Z; [done|].
  assert (Hcont : forall lo hi, 0x80 <= lo -> hi <= 0xBF ->
            utf8.continuation lo hi (String c rest) = None)
    by (intros; by apply continuation_boundary).
  assert (Hlo3 : 0x80 <= (if (byte c0 =? 0xE0)%Z then 0xA0 else 0x80))
    by (destruct (byte c0 =? 0xE0)%Z; lia).
  assert (Hhi3 : (if (byte c0 =? 0xED)%Z then 0x9F else 0xBF) <= 0xBF)
    by (destruct (byte c0 =? 0xED)%Z; lia).
  assert (Hlo4 : 0x80 <= (if (byte c0 =? 0xF0)%Z then 0x90 else 0x80))
    by (destruct (byte c0 =? 0xF0)%Z; lia).
  assert (Hhi4 : (if (byte c0 =? 0xF4)%Z then 0x8F else 0xBF) <= 0xBF)
    by (destruct (byte c0 =? 0xF4)%Z; lia).
  assert (Hend : forall lo hi, 0x80 <= lo -> hi <= 0xBF ->
            utf8.continuation lo hi ("" +:+ String c rest) = None)
    by (intros; by apply continuation_boundary).
  destruct (byte c0 <? 0xE0)%Z.
  { destruct p1 as [|c1 p2]; [by rewrite Hend|]; rewrite app_cons;
    unfold utf8.continuation; cbv zeta; by destruct (_ && _). }
  destruct (byte c0 <? 0xF0)%Z.
  { destruct p1 as [|c1 p2]; [by rewrite Hend|]. rewrite app_cons.
    unfold utf8.continuation at 1 3. cbv zeta.
    destruct (_ && _); [|done].
    destruct p2 as [|c2 p3]; [by rewrite Hend|]; rewrite app_cons;
    unfold utf8.continuation; cbv zeta; by destruct (_ && _). }
  destruct (byte c0 <? 0xF5)%Z; [|done].
  destruct p1 as [|c1 p2]; [by rewrite Hend|]. rewrite app_cons.
  unfold utf8.continuation at 1 4. cbv zeta.
  destruct (_ && _); [|done].
  destruct p2 as [|c2 p3]; [by rewrite Hend|]. rewrite app_cons.
  unfold utf8.continuation at 1 3. cbv zeta.
  destruct (_ && _); [|done].
  destruct p3 as [|c3 p4]; [by rewrite Hend|]; rewrite app_cons;
    unfold utf8.continuation; cbv zeta; by destruct (_ && _).
Qed.

Lemma decode_ascii c s :
  byte c < 0x80 -> utf8.DecodeRuneInString (String c s) = (byte c, 1%nat).
Proof.
  intros Hc. unfold utf8.DecodeRuneInString, utf8.RuneSelf. cbv zeta.
  by rewrite (proj2 (Z.ltb_lt _ _) Hc).
Qed.

Lemma continuation_length lo hi s x s' :
  utf8.continuation lo hi s = Some (x, s') -> String.length s = S (String.length s').
Proof.
  destruct s as [|c s0]; [done|]. unfold utf8.continuation. cbv zeta.
  destruct (_ && _); [|done]. by intros [= _ <-].
Qed.

Lemma decode_width c0 s1 :
  (1 <= (utf8.DecodeRuneInString (String c0 s1)).2 <= S (String.length s1))%nat.
Proof.
  unfold utf8.DecodeRuneInString. cbv zeta.
  repeat match goal with
         | |- context [if (byte c0 <? ?k)%Z then _ else _] =>
             destruct (byte c0 <? k)%Z
         | |- context [match utf8.continuation ?lo ?hi ?s with _ => _ end] =>
             let E := fresh "E" in
             destruct (utf8.continuation lo hi s) as [[? ?]|] eqn:E;
             [apply continuation_length in E|]
         end; cbn [snd]; lia.
Qed.

End bytes.

(** ** UTF-8 *)

Ltac arith := Z.div_mod_to_equations; lia.

(** Decides the comparisons of [b] with the constants of the goal. *)
Ltac compare_with b :=
  repeat match goal with
         | |- context [(b <? ?k)%Z] =>
             first [ replace (b <? k)%Z with true
                       by (symmetry; apply Z.ltb_lt; lia)
                   | replace (b <? k)%Z with false
                       by (symmetry; apply Z.ltb_ge; lia) ]
         end; cbv iota.

Ltac branches :=
  repeat match goal with
         | |- context [(?a <=? ?b)%Z] => destruct (Z.leb_spec a b)
         | |- context [(?a <? ?b)%Z] => destruct (Z.ltb_spec a b)
         end; cbn [andb orb]; try (exfalso; arith).

Section utf8_facts.

Lemma land_disjoint a b n :
  0 <= n -> 0 <= b < 2 ^ n -> Z.land (a * 2 ^ n) b = 0.
Proof.
  intros Hn Hb. apply Z.bits_inj'. intros i Hi.
  rewrite Z.land_spec, Z.bits_0.
  destruct (Z.lt_ge_cases i n) as [Hlt|Hge].
  - by rewrite Z.mul_pow2_bits_low.
  - rewrite <- (Z.mod_small b (2 ^ n)) by done.
    rewrite Z.mod_pow2_bits_high by lia. apply andb_false_r.
Qed.

(** [Z.lor] of a multiple of [2 ^ n] and a number below [2 ^ n] is their
    sum. *)
Lemma lor_add a b n :
  0 <= n -> 0 <= b < 2 ^ n -> Z.lor (a * 2 ^ n) b = a * 2 ^ n + b.
Proof.
  intros Hn Hb. pose proof (land_disjoint a b n Hn Hb) as H.
  by rewrite Z.add_nocarry_lxor, Z.lxor_lor.
Qed.

Lemma land_63 a : Z.land a 0x3F = a mod 64.
Proof. exact (Z.land_ones a 6 ltac:(lia)). Qed.
Lemma land_31 a : Z.land a 0x1F = a mod 32.
Proof. exact (Z.land_ones a 5 ltac:(lia)). Qed.
Lemma land_15 a : Z.land a 0x0F = a mod 16.
Proof. exact (Z.land_ones a 4 ltac:(lia)). Qed.
Lemma land_7 a : Z.land a 0x07 = a mod 8.
Proof. exact (Z.land_ones a 3 ltac:(lia)). Qed.

Lemma lor_cont m : 0 <= m < 64 -> Z.lor 0x80 m = 128 + m.
Proof. intros Hm. apply (lor_add 1 m 7); lia. Qed.
Lemma lor_lead2 q : 0 <= q < 32 -> Z.lor 0xC0 q = 192 + q.
Proof. intros Hq. apply (lor_add 3 q 6); lia. Qed.
Lemma lor_lead3 q : 0 <= q < 16 -> Z.lor 0xE0 q = 224 + q.
Proof. intros Hq. apply (lor_add 7 q 5); lia. Qed.
Lemma lor_lead4 q : 0 <= q < 8 -> Z.lor 0xF0 q = 240 + q.
Proof. intros Hq. apply (lor_add 15 q 4); lia. Qed.

Lemma lor_shift6 a b : 0 <= b < 64 -> Z.lor (Z.shiftl a 6) b = a * 64 + b.
Proof. intros Hb. rewrite Z.shiftl_mul_pow2 by lia. apply (lor_add a b 6); lia. Qed.

Lemma lor_add' a b n :
  0 <= n -> a mod 2 ^ n = 0 -> 0 <= b < 2 ^ n -> Z.lor a b = a + b.
Proof.
  intros Hn Ha Hb. rewrite (Z.div_mod a (2 ^ n)) at 1 2 by lia.
  rewrite Ha, Z.add_0_r, Z.mul_comm. by apply lor_add.
Qed.

Lemma cont_byte x m :
  x mod 64 = m -> 0 <= m < 64 ->
  char (Z.lor 0x80 (Z.land x 0x3F)) = char (128 + m).
Proof. intros Hx Hm. by rewrite land_63, Hx, lor_cont. Qed.

Lemma lor_add_k a b n k :
  k = 2 ^ n -> 0 <= n -> a mod k = 0 -> 0 <= b < k -> Z.lor a b = a + b.
Proof. intros ->. apply lor_add'. Qed.

(** The rune of a sequence of two, three or four bytes. *)
Lemma rune2 b0 b1 :
  0xC0 <= b0 < 0xE0 -> 0x80 <= b1 <= 0xBF ->
  Z.lor (Z.shiftl (Z.land b0 0x1F) 6) (Z.land b1 0x3F)
  = (b0 - 192) * 64 + (b1 - 128).
Proof.
  intros H0 H1. rewrite land_31, land_63, lor_shift6 by arith. arith.
Qed.

Lemma rune3 b0 b1 b2 :
  0xE0 <= b0 < 0xF0 -> 0x80 <= b1 <= 0xBF -> 0x80 <= b2 <= 0xBF ->
  Z.lor (Z.lor (Z.shiftl (Z.land b0 0x0F) 12) (Z.shiftl (Z.land b1 0x3F) 6))
    (Z.land b2 0x3F)
  = (b0 - 224) * 4096 + (b1 - 128) * 64 + (b2 - 128).
Proof.
  intros H0 H1 H2.
  assert (E0 : Z.shiftl (Z.land b0 0x0F) 12 = (b0 - 224) * 4096)
    by (rewrite land_15, Z.shiftl_mul_pow2 by lia;
        change (2 ^ 12) with 4096; arith).
  assert (E1 : Z.shiftl (Z.land b1 0x3F) 6 = (b1 - 128) * 64)
    by (rewrite land_63, Z.shiftl_mul_pow2 by lia;
        change (2 ^ 6) with 64; arith).
  assert (E2 : Z.land b2 0x3F = b2 - 128) by (rewrite land_63; arith).
  rewrite E0, E1, E2.
  rewrite (lor_add_k ((b0 - 224) * 4096) _ 12 4096) by (reflexivity || arith).
  by rewrite (lor_add_k _ _ 6 64) by (reflexivity || arith).
Qed.

Lemma rune4 b0 b1 b2 b3 :
  0xF0 <= b0 < 0xF8 -> 0x80 <= b1 <= 0xBF -> 0x80 <= b2 <= 0xBF ->
  0x80 <= b3 <= 0xBF ->
  Z.lor (Z.lor (Z.lor (Z.shiftl (Z.land b0 0x07) 18)
                  (Z.shiftl (Z.land b1 0x3F) 12))
           (Z.shiftl (Z.land b2 0x3F) 6))
    (Z.land b3 0x3F)
  = (b0 - 240) * 262144 + (b1 - 128) * 4096 + (b2 - 128) * 64 + (b3 - 128).
Proof.
  intros H0 H1 H2 H3.
  assert (E0 : Z.shiftl (Z.land b0 0x07) 18 = (b0 - 240) * 262144)
    by (rewrite land_7, Z.shiftl_mul_pow2 by lia;
        change (2 ^ 18) with 262144; arith).
  assert (E1 : Z.shiftl (Z.land b1 0x3F) 12 = (b1 - 128) * 4096)
    by (rewrite land_63, Z.shiftl_mul_pow2 by lia;
        change (2 ^ 12) with 4096; arith).
  assert (E2 : Z.shiftl (Z.land b2 0x3F) 6 = (b2 - 128) * 64)
    by (rewrite land_63, Z.shiftl_mul_pow2 by lia;
        change (2 ^ 6) with 64; arith).
  assert (E3 : Z.land b3 0x3F = b3 - 128) by (rewrite land_63; arith).
  rewrite E0, E1, E2, E3.
  rewrite (lor_add_k ((b0 - 240) * 262144) _ 18 262144)
    by (reflexivity || arith).
  rewrite (lor_add_k ((b0 - 240) * 262144 + (b1 - 128) * 4096) _ 12 4096)
    by (reflexivity || arith).
  by rewrite (lor_add_k _ _ 6 64) by (reflexivity || arith).
Qed.

(** The bytes that encode a rune of each length. *)
Lemma EncodeRune1 r :
  0 <= r <= 0x7F -> utf8.EncodeRune r = String (char r) "".
Proof.
  intros Hr. unfold utf8.EncodeRune. cbv zeta. branches; done.
Qed.

Lemma EncodeRune2 r :
  0x80 <= r <= 0x7FF ->
  utf8.EncodeRune r
  = String (char (192 + r / 64)) (String (char (128 + r mod 64)) "").
Proof.
  intros Hr. unfold utf8.EncodeRune. cbv zeta. branches.
  all: rewrite Z.shiftr_div_pow2, lor_lead2 by arith.
  all: by rewrite (cont_byte r (r mod 64)) by arith.
Qed.

Lemma EncodeRune3 r :
  0x800 <= r <= 0xFFFF -> ~ (0xD800 <= r <= 0xDFFF) ->
  utf8.EncodeRune r
  = String (char (224 + r / 4096))
      (String (char (128 + (r / 64) mod 64))
         (String (char (128 + r mod 64)) "")).
Proof.
  intros Hr Hs. unfold utf8.EncodeRune, utf8.MaxRune. cbv zeta. branches.
  all: rewrite !Z.shiftr_div_pow2, lor_lead3 by arith.
  all: rewrite (cont_byte (r / 2 ^ 6) ((r / 64) mod 64)) by arith.
  all: by rewrite (cont_byte r (r mod 64)) by arith.
Qed.

Lemma EncodeRune4 r :
  0x10000 <= r <= 0x10FFFF ->
  utf8.EncodeRune r
  = String (char (240 + r / 262144))
      (String (char (128 + (r / 4096) mod 64))
         (String (char (128 + (r / 64) mod 64))
            (String (char (128 + r mod 64)) ""))).
Proof.
  intros Hr. unfold utf8.EncodeRune, utf8.MaxRune. cbv zeta. branches.
  all: rewrite !Z.shiftr_div_pow2, lor_lead4 by arith.
  all: rewrite (cont_byte (r / 2 ^ 12) ((r / 4096) mod 64)) by arith.
  all: rewrite (cont_byte (r / 2 ^ 6) ((r / 64) mod 64)) by arith.
  all: by rewrite (cont_byte r (r mod 64)) by arith.
Qed.

Lemma encode2 b0 b1 :
  0xC2 <= b0 < 0xE0 -> 0x80 <= b1 <= 0xBF ->
  utf8.EncodeRune (Z.lor (Z.shiftl (Z.land b0 0x1F) 6) (Z.land b1 0x3F))
  = String (char b0) (String (char b1) "").
Proof.
  intros H0 H1. rewrite rune2, EncodeRune2 by lia.
  repeat f_equal; arith.
Qed.

Lemma encode3 b0 b1 b2 :
  0xE0 <= b0 < 0xF0 ->
  (if (b0 =? 0xE0)%Z then 0xA0 else 0x80) <= b1
  <= (if (b0 =? 0xED)%Z then 0x9F else 0xBF) ->
  0x80 <= b2 <= 0xBF ->
  utf8.EncodeRune
    (Z.lor (Z.lor (Z.shiftl (Z.land b0 0x0F) 12) (Z.shiftl (Z.land b1 0x3F) 6))
       (Z.land b2 0x3F))
  = String (char b0) (String (char b1) (String (char b2) "")).
Proof.
  intros H0 H1 H2.
  assert (H1' : 0x80 <= b1 <= 0xBF /\ (b0 = 0xE0 -> 0xA0 <= b1)
                /\ (b0 = 0xED -> b1 <= 0x9F))
    by (destruct (Z.eqb_spec b0 0xE0), (Z.eqb_spec b0 0xED);
        cbv iota in H1; lia).
  clear H1. destruct H1' as (H1 & Hlo & Hhi).
  rewrite rune3, EncodeRune3 by lia. repeat f_equal; arith.
Qed.

Lemma encode4 b0 b1 b2 b3 :
  0xF0 <= b0 < 0xF5 ->
  (if (b0 =? 0xF0)%Z then 0x90 else 0x80) <= b1
  <= (if (b0 =? 0xF4)%Z then 0x8F else 0xBF) ->
  0x80 <= b2 <= 0xBF -> 0x80 <= b3 <= 0xBF ->
  utf8.EncodeRune
    (Z.lor (Z.lor (Z.lor (Z.shiftl (Z.land b0 0x07) 18)
                     (Z.shiftl (Z.land b1 0x3F) 12))
              (Z.shiftl (Z.land b2 0x3F) 6))
       (Z.land b3 0x3F))
  = String (char b0)
      (String (char b1) (String (char b2) (String (char b3) ""))).
Proof.
  intros H0 H1 H2 H3.
  assert (H1' : 0x80 <= b1 <= 0xBF /\ (b0 = 0xF0 -> 0x90 <= b1)
                /\ (b0 = 0xF4 -> b1 <= 0x8F))
    by (destruct (Z.eqb_spec b0 0xF0), (Z.eqb_spec b0 0xF4);
        cbv iota in H1; lia).
  clear H1. destruct H1' as (H1 & Hlo & Hhi).
  rewrite rune4, EncodeRune4 by lia. repeat f_equal; arith.
Qed.

Lemma continuation_Some lo hi s x s' :
  utf8.continuation lo hi s = Some (x, s') ->
  exists c, s = String c s' /\ lo <= byte c <= hi
            /\ x = Z.land (byte c) 0x3F.
Proof.
  destruct s as [|c s0]; [done|]. unfold utf8.continuation. cbv zeta.
  destruct (_ && _) eqn:E; [|done]. intros [= <- <-].
  apply andb_prop in E as [H1%Z.leb_le H2%Z.leb_le]. by exists c.
Qed.

(** A rune that was decoded from a valid encoding is encoded to the
    bytes it was decoded from. *)
Lemma EncodeRune_DecodeRune c0 s1 :
  let d := utf8.DecodeRuneInString (String c0 s1) in
  d.2 ≠ 1%nat \/ d.1 ≠ utf8.RuneError ->
  utf8.EncodeRune d.1 = slice_to d.2 (String c0 s1).
Proof.
  cbv zeta. pose proof (byte_range c0) as Hr0.
  unfold utf8.DecodeRuneInString, utf8.RuneSelf. cbv zeta.
  destruct (Z.ltb_spec (byte c0) 0x80) as [H80|H80].
  { intros _. cbn [fst snd slice_to]. unfold utf8.EncodeRune. cbv zeta.
    branches; by rewrite char_byte. }
  destruct (Z.ltb_spec (byte c0) 0xC2) as [HC2|HC2];
    [intros [?|?]; done|].
  destruct (Z.ltb_spec (byte c0) 0xE0) as [HE0|HE0].
  { destruct (utf8.continuation _ _ s1) as [[x1 s2]|] eqn:E1;
      [|intros [?|?]; done].
    apply continuation_Some in E1 as (c1 & -> & H1 & ->).
    intros _. cbn [fst snd slice_to].
    rewrite encode2 by lia. by rewrite !char_byte. }
  destruct (Z.ltb_spec (byte c0) 0xF0) as [HF0|HF0].
  { destruct (utf8.continuation _ _ s1) as [[x1 s2]|] eqn:E1;
      [|intros [?|?]; done].
    apply continuation_Some in E1 as (c1 & -> & H1 & ->).
    destruct (utf8.continuation _ _ s2) as [[x2 s3]|] eqn:E2;
      [|intros [?|?]; done].
    apply continuation_Some in E2 as (c2 & -> & H2 & ->).
    intros _. cbn [fst snd slice_to].
    rewrite encode3 by (done || lia). by rewrite !char_byte. }
  destruct (Z.ltb_spec (byte c0) 0xF5) as [HF5|HF5];
    [|intros [?|?]; done].
  destruct (utf8.continuation _ _ s1) as [[x1 s2]|] eqn:E1;
    [|intros [?|?]; done].
  apply continuation_Some in E1 as (c1 & -> & H1 & ->).
  destruct (utf8.continuation _ _ s2) as [[x2 s3]|] eqn:E2;
    [|intros [?|?]; done].
  apply continuation_Some in E2 as (c2 & -> & H2 & ->).
  destruct (utf8.continuation _ _ s3) as [[x3 s4]|] eqn:E3;
    [|intros [?|?]; done].
  apply continuation_Some in E3 as (c3 & -> & H3 & ->).
  intros _. cbn [fst snd slice_to].
  rewrite encode4 by (done || lia). by rewrite !char_byte.
Qed.

Lemma continuation_char lo hi b s :
  lo <= b <= hi -> 0 <= b < 256 ->
  utf8.continuation lo hi (String (char b) s) = Some (Z.land b 0x3F, s).
Proof.
  intros Hb Hr. unfold utf8.continuation. cbv zeta.
  rewrite byte_char by done.
  replace (lo <=? b)%Z with true by (symmetry; apply Z.leb_le; lia).
  by replace (b <=? hi)%Z with true by (symmetry; apply Z.leb_le; lia).
Qed.

Lemma decode2 b0 b1 s :
  0xC2 <= b0 < 0xE0 -> 0x80 <= b1 <= 0xBF ->
  utf8.DecodeRuneInString (String (char b0) (String (char b1) s))
  = ((b0 - 192) * 64 + (b1 - 128), 2%nat).
Proof.
  intros H0 H1. unfold utf8.DecodeRuneInString, utf8.RuneSelf. cbv zeta.
  rewrite byte_char by lia. compare_with b0.
  rewrite continuation_char by lia.
  cbv beta iota. by rewrite rune2 by lia.
Qed.

Lemma decode3 b0 b1 b2 s :
  0xE0 <= b0 < 0xF0 -> 0x80 <= b1 <= 0xBF -> 0x80 <= b2 <= 0xBF ->
  (b0 = 0xE0 -> 0xA0 <= b1) -> (b0 = 0xED -> b1 <= 0x9F) ->
  utf8.DecodeRuneInString
    (String (char b0) (String (char b1) (String (char b2) s)))
  = ((b0 - 224) * 4096 + (b1 - 128) * 64 + (b2 - 128), 3%nat).
Proof.
  intros H0 H1 H2 Hlo Hhi.
  unfold utf8.DecodeRuneInString, utf8.RuneSelf. cbv zeta.
  rewrite byte_char by lia. compare_with b0.
  rewrite (continuation_char _ _ b1)
    by (destruct (Z.eqb_spec b0 0xE0), (Z.eqb_spec b0 0xED);
        cbv iota; lia).
  cbv beta iota. rewrite continuation_char by lia. cbv beta iota.
  by rewrite rune3 by lia.
Qed.

Lemma decode4 b0 b1 b2 b3 s :
  0xF0 <= b0 < 0xF5 -> 0x80 <= b1 <= 0xBF -> 0x80 <= b2 <= 0xBF ->
  0x80 <= b3 <= 0xBF ->
  (b0 = 0xF0 -> 0x90 <= b1) -> (b0 = 0xF4 -> b1 <= 0x8F) ->
  utf8.DecodeRuneInString
    (String (char b0)
       (String (char b1) (String (char b2) (String (char b3) s))))
  = ((b0 - 240) * 262144 + (b1 - 128) * 4096 + (b2 - 128) * 64 + (b3 - 128),
     4%nat).
Proof.
  intros H0 H1 H2 H3 Hlo Hhi.
  unfold utf8.DecodeRuneInString, utf8.RuneSelf. cbv zeta.
  rewrite byte_char by lia. compare_with b0.
  rewrite (continuation_char _ _ b1)
    by (destruct (Z.eqb_spec b0 0xF0), (Z.eqb_spec b0 0xF4);
        cbv iota; lia).
  cbv beta iota. rewrite continuation_char by lia.
  cbv beta iota. rewrite continuation_char by lia. cbv beta iota.
  by rewrite rune4 by lia.
Qed.

(** A rune is read back from its encoding, whatever follows: the
    encoding of Unicode scalar values is decoded to them. *)
Lemma DecodeRune_EncodeRune r rest :
  0 <= r <= utf8.MaxRune -> ~ (0xD800 <= r <= 0xDFFF) ->
  utf8.DecodeRuneInString (utf8.EncodeRune r +:+ rest)
  = (r, String.length (utf8.EncodeRune r)).
Proof.
  unfold utf8.MaxRune. intros Hr Hs.
  destruct (Z.le_gt_cases r 0x7F) as [H1|H1].
  { rewrite EncodeRune1 by lia. cbn [String.length].
    change (String ?a "" +:+ rest) with (String a rest).
    unfold utf8.DecodeRuneInString, utf8.RuneSelf. cbv zeta.
    rewrite byte_char by lia. by compare_with r. }
  destruct (Z.le_gt_cases r 0x7FF) as [H2|H2].
  { rewrite EncodeRune2 by lia. cbn [String.length].
    change (String ?a (String ?b "") +:+ rest) with (String a (String b rest)).
    rewrite decode2 by arith. f_equal. arith. }
  destruct (Z.le_gt_cases r 0xFFFF) as [H3|H3].
  { rewrite EncodeRune3 by lia. cbn [String.length].
    change (String ?a (String ?b (String ?c "")) +:+ rest)
      with (String a (String b (String c rest))).
    rewrite decode3 by arith. f_equal. arith. }
  rewrite EncodeRune4 by lia. cbn [String.length].
  change (String ?a (String ?b (String ?c (String ?d ""))) +:+ rest)
    with (String a (String b (String c (String d rest)))).
  rewrite decode4 by arith. f_equal. arith.
Qed.

(** The runes that are decoded are not negative. *)
Lemma DecodeRune_nonneg s : 0 <= (utf8.DecodeRuneInString s).1.
Proof.
  destruct s as [|c0 s1]; [done|]. pose proof (byte_range c0) as Hr0.
  unfold utf8.DecodeRuneInString, utf8.RuneSelf, utf8.RuneError. cbv zeta.
  repeat match goal with
         | |- context [if (byte c0 <? ?k)%Z then _ else _] =>
             destruct (Z.ltb_spec (byte c0) k)
         | |- context [match utf8.continuation ?lo ?hi ?s with _ => _ end] =>
             let E := fresh "E" in
             destruct (utf8.continuation lo hi s) as [[? ?]|] eqn:E;
             [apply continuation_Some in E as (? & -> & ? & ->)|]
         end; cbn [fst]; try lia.
  all: repeat first [apply Z.lor_nonneg; split | apply Z.shiftl_nonneg
                    | apply Z.land_nonneg; right; lia].
Qed.

End utf8_facts.

Section runes.

Implicit Types (s p q rest : string) (c : ascii) (l : list (Z * string)).

Lemma app_length' s1 s2 :
  String.length (s1 +:+ s2) = (String.length s1 + String.length s2)%nat.
Proof.
  induction s1 as [|c s1' IH]; [done|]. rewrite app_cons. simpl. by rewrite IH.
Qed.

Lemma app_inv_head' s s1 s2 : s +:+ s1 = s +:+ s2 -> s1 = s2.
Proof.
  induction s as [|c s IH]; [done|]. rewrite !app_cons. intros [= H]. auto.
Qed.

Lemma slice_app n s : slice_to n s +:+ slice_from n s = s.
Proof.
  revert s. induction n as [|n IH]; intros [|c s]; try done.
  simpl. by rewrite app_cons, IH.
Qed.

Lemma slice_to_app n p q :
  (n <= String.length p)%nat -> slice_to n (p +:+ q) = slice_to n p.
Proof.
  revert p. induction n as [|n IH]; intros p Hn.
  - by destruct p, q.
  - destruct p as [|c p]; simpl in Hn; [lia|].
    rewrite app_cons. simpl. rewrite IH by lia. done.
Qed.

Lemma slice_to_nonempty n c s : slice_to (S n) (String c s) ≠ "".
Proof. done. Qed.

Lemma range_loop_S k c s : range_loop (S k) (String c s) = range_loop k s.
Proof. done. Qed.

Lemma range_loop_0 c s :
  range_loop 0 (String c s)
  = ((utf8.DecodeRuneInString (String c s)).1,
     slice_to (utf8.DecodeRuneInString (String c s)).2 (String c s))
    :: range_loop ((utf8.DecodeRuneInString (String c s)).2 - 1) s.
Proof.
  cbn [range_loop]. by destruct (utf8.DecodeRuneInString (String c s)).
Qed.

(** The runes of a string do not depend on what follows it, when that
    starts with a byte that continues no encoding. *)
Lemma range_loop_boundary p k c rest :
  noncont c -> (k <= String.length p)%nat ->
  range_loop k (p +:+ String c rest)
  = range_loop k p ++ range_string (String c rest).
Proof.
  intros Hc. revert k. induction p as [|a p IH]; intros k Hk.
  - simpl in Hk. by replace k with 0%nat by lia.
  - rewrite app_cons. destruct k as [|k].
    + rewrite (range_loop_0 a (p +:+ _)), (range_loop_0 a p).
      rewrite <- app_cons. rewrite decode_boundary by done.
      pose proof (decode_width a p) as Hw.
      rewrite IH by lia. by rewrite slice_to_app by (cbn [String.length]; lia).
    + rewrite !range_loop_S. apply IH. simpl in Hk. lia.
Qed.

Lemma range_string_app p q :
  starts_rune q -> range_string (p +:+ q) = range_string p ++ range_string q.
Proof.
  destruct q as [|c rest]; intros Hq.
  - by rewrite app_empty_r, app_nil_r.
  - apply range_loop_boundary; [done | lia].
Qed.

Lemma range_string_ascii c s :
  byte c < 0x80 ->
  range_string (String c s) = (byte c, String c "") :: range_string s.
Proof.
  intros Hc. unfold range_string. rewrite range_loop_0.
  by rewrite decode_ascii by done.
Qed.

Lemma range_loop_skip s k :
  (k <= String.length s)%nat ->
  range_loop k s = range_string (slice_from k s).
Proof.
  revert k. induction s as [|a s IH]; intros k Hk.
  - simpl in Hk. by replace k with 0%nat by lia.
  - destruct k as [|k]; [done|]. rewrite range_loop_S. simpl in Hk.
    rewrite IH by lia. done.
Qed.

Lemma range_string_tail s rune l :
  range_string s = rune :: l -> exists s', l = range_string s'.
Proof.
  destruct s as [|c s]; [done|]. unfold range_string at 1.
  rewrite range_loop_0. pose proof (decode_width c s) as Hw.
  set (w := (utf8.DecodeRuneInString (String c s)).2) in *.
  intros H. injection H as _ <-.
  eexists. apply range_loop_skip. lia.
Qed.

Lemma bytes_of_app l1 l2 : bytes_of (l1 ++ l2) = bytes_of l1 +:+ bytes_of l2.
Proof.
  induction l1 as [|[r b] l1 IH]; [done|]. simpl.
  by rewrite IH, app_assoc'.
Qed.

Lemma bytes_of_range_loop s k :
  (k <= String.length s)%nat -> bytes_of (range_loop k s) = slice_from k s.
Proof.
  revert k. induction s as [|a s IH]; intros k Hk.
  - simpl in Hk. by replace k with 0%nat by lia.
  - destruct k as [|k].
    + rewrite range_loop_0. pose proof (decode_width a s) as Hw.
      cbn [bytes_of]. rewrite IH by lia.
      destruct ((utf8.DecodeRuneInString (String a s)).2) as [|w]; [lia|].
      replace (S w - 1)%nat with w by lia.
      change (slice_from w s) with (slice_from (S w) (String a s)).
      apply slice_app.
    + rewrite range_loop_S. simpl in Hk. rewrite IH by lia. done.
Qed.

Lemma bytes_of_range_string s : bytes_of (range_string s) = s.
Proof. unfold range_string. by rewrite bytes_of_range_loop by lia. Qed.

(** Every rune of a string stands on at least one byte, from whose
    first it was decoded. *)
Lemma range_loop_head s k r b :
  (r, b) ∈ range_loop k s ->
  exists c b' t, b = String c b' /\ r = (utf8.DecodeRuneInString (String c t)).1.
Proof.
  revert k. induction s as [|a s IH]; intros k; [by intros ?%elem_of_nil|].
  destruct k as [|k].
  - rewrite range_loop_0. intros [H|H]%elem_of_cons; [|by eapply IH].
    pose proof (f_equal fst H) as Hr. pose proof (f_equal snd H) as Hb.
    cbn [fst snd] in Hr, Hb. clear H.
    pose proof (decode_width a s) as Hw.
    destruct ((utf8.DecodeRuneInString (String a s)).2) as [|w]; [lia|].
    exists a, (slice_to w s), s. by rewrite Hr, Hb.
  - rewrite range_loop_S. apply IH.
Qed.

Lemma decode_continuation c t :
  ~ noncont c -> (utf8.DecodeRuneInString (String c t)).1 = utf8.RuneError.
Proof.
  intros Hc. unfold noncont in Hc. unfold utf8.DecodeRuneInString.
  cbv zeta. unfold utf8.RuneSelf.
  destruct (Z.ltb_spec (byte c) 0x80); [lia|].
  destruct (Z.ltb_spec (byte c) 0xC2); [done | lia].
Qed.

Lemma space_starts_rune s r b :
  (r, b) ∈ range_string s -> unicode.IsSpace r = true -> starts_rune b.
Proof.
  intros (c & b' & t & -> & ->)%range_loop_head Hr. simpl.
  destruct (decide (noncont c)) as [|Hc]; [done|].
  by rewrite decode_continuation in Hr.
Qed.

End runes.

(** ** Lower case *)

Section lowering.

Implicit Types (s sub pre post : string) (c : ascii) (l : list (Z * string)).

Lemma map_runes_app (f : Z -> Z) l1 l2 :
  map_runes f (l1 ++ l2) = map_runes f l1 +:+ map_runes f l2.
Proof.
  induction l1 as [|[r b] l1 IH]; [done|]. cbn [app map_runes].
  by rewrite IH, app_assoc'.
Qed.

(** The runes that [range] gives are not negative, and all but the
    bytes it could not decode are encoded to the bytes they stand on. *)
Lemma range_loop_rune s k r b :
  (r, b) ∈ range_loop k s ->
  0 <= r /\
  (negb ((r =? utf8.RuneError)%Z && (String.length b =? 1)%nat) = true ->
   utf8.EncodeRune r = b).
Proof.
  revert k. induction s as [|a s IH]; intros k; [by intros ?%elem_of_nil|].
  destruct k as [|k]; [|rewrite range_loop_S; apply IH].
  rewrite range_loop_0. intros [H|H]%elem_of_cons; [|by eapply IH].
  pose proof (f_equal fst H) as Hr. pose proof (f_equal snd H) as Hb.
  cbn [fst snd] in Hr, Hb. clear H. subst r b.
  split; [apply DecodeRune_nonneg|]. intros Hvalid.
  apply EncodeRune_DecodeRune.
  destruct (decide ((utf8.DecodeRuneInString (String a s)).2 = 1%nat))
    as [Hw|Hw]; [|by left].
  right. intros Hr. rewrite Hw, Hr in Hvalid. discriminate Hvalid.
Qed.

Lemma map_unchanged_runes (f : Z -> Z) l :
  (forall r b, (r, b) ∈ l ->
     0 <= r /\
     (negb ((r =? utf8.RuneError)%Z && (String.length b =? 1)%nat) = true ->
      utf8.EncodeRune r = b)) ->
  map_unchanged f l = map_runes f l.
Proof.
  induction l as [|[c bytes] l IH]; intros Hl; [done|].
  cbn [map_unchanged map_runes].
  destruct (Hl c bytes) as [Hc Hbytes]; [by left|].
  destruct (Z.eqb_spec (f c) c) as [Hf|Hf]; [|done].
  destruct (negb _) eqn:Hvalid; [|done]. cbn [andb].
  rewrite IH by (intros r b ?; apply Hl; by right).
  rewrite Hf, (proj2 (Z.leb_le 0 c) Hc). by rewrite Hbytes.
Qed.

(** What the two loops of [Map] write is what the second writes from
    the start of the string. *)
Lemma Map_runes (f : Z -> Z) s : Map f s = map_runes f (range_string s).
Proof.
  unfold Map. apply map_unchanged_runes. intros r b. apply range_loop_rune.
Qed.

Lemma Map_app (f : Z -> Z) p q :
  starts_rune q -> Map f (p +:+ q) = Map f p +:+ Map f q.
Proof.
  intros Hq. rewrite !Map_runes. by rewrite range_string_app, map_runes_app.
Qed.

(** [Map] reads the mapping at the runes of the string only. *)
Lemma Map_agree (f g : Z -> Z) s :
  Forall (fun rune => f rune.1 = g rune.1) (range_string s) ->
  Map f s = Map g s.
Proof.
  rewrite !Map_runes. induction (range_string s) as [|[r b] l IH]; [done|].
  intros [Hr Hl]%Forall_cons. cbn [map_runes fst] in *.
  by rewrite Hr, IH.
Qed.

Lemma lower_byte_ascii (table : Z -> Z) c :
  byte c < 0x80 ->
  unicode.ToLower table (byte c) = byte (lower_byte c) /\
  0 <= byte (lower_byte c) < 0x80.
Proof.
  intros Hc. pose proof (byte_range c) as Hr.
  unfold unicode.ToLower, lower_byte, unicode.MaxASCII. cbv zeta.
  rewrite (proj2 (Z.leb_le _ _)) by lia.
  destruct (_ && _) eqn:E.
  - apply andb_prop in E as [H1%Z.leb_le H2%Z.leb_le].
    rewrite byte_char by lia. lia.
  - lia.
Qed.

Lemma Map_lower_step (table : Z -> Z) c s :
  byte c < 0x80 ->
  Map (unicode.ToLower table) (String c s)
  = String (lower_byte c) (Map (unicode.ToLower table) s).
Proof.
  intros Hc. rewrite !Map_runes. rewrite range_string_ascii by done.
  cbn [map_runes]. destruct (lower_byte_ascii table c Hc) as [-> Hr].
  rewrite (proj2 (Z.leb_le _ _)) by lia.
  by rewrite EncodeRune1, char_byte by lia.
Qed.

Lemma Map_lower_run (table : Z -> Z) sub post :
  isASCII sub = true ->
  Map (unicode.ToLower table) (sub +:+ post)
  = lower_ascii sub +:+ Map (unicode.ToLower table) post.
Proof.
  induction sub as [|c sub IH]; [done|]. cbn [isASCII lower_ascii].
  intros [Hc Hsub]%andb_prop. apply Z.ltb_lt in Hc.
  rewrite !app_cons, Map_lower_step by done. by rewrite IH.
Qed.

Lemma hasUpper_false s : hasUpper s = false -> lower_ascii s = s.
Proof.
  induction s as [|c s IH]; [done|]. cbn [hasUpper lower_ascii].
  intros [Hc Hs]%orb_false_elim. unfold lower_byte. cbv zeta.
  by rewrite Hc, IH.
Qed.

(** The loop of [ToLower] for a string of ASCII bytes gives what [Map]
    gives: [ToLower] is [Map] with [unicode.ToLower] on every string. *)
Lemma ToLower_Map (table : Z -> Z) s :
  gostrings.ToLower table s = Map (unicode.ToLower table) s.
Proof.
  unfold gostrings.ToLower. destruct (isASCII s) eqn:Hs; [|done].
  assert (H : Map (unicode.ToLower table) s = lower_ascii s).
  { rewrite <- (app_empty_r s) at 1. rewrite Map_lower_run by done.
    apply app_empty_r. }
  rewrite H.
  destruct (hasUpper s) eqn:Hu; [done | by rewrite hasUpper_false].
Qed.

Lemma ToLower_ascii_run sub post :
  isASCII sub = true ->
  ToLower (sub +:+ post) = lower_ascii sub +:+ ToLower post.
Proof. rewrite !ToLower_Map. apply Map_lower_run. Qed.

(** A run of ASCII bytes of a string is lowered in place, whatever
    surrounds it. *)
Lemma Substring_ToLower_ascii sub s :
  isASCII sub = true -> Substring sub s ->
  Substring (lower_ascii sub) (ToLower s).
Proof.
  intros Hsub (pre & post & ->). rewrite ToLower_Map.
  destruct sub as [|c sub'].
  - by exists "", (Map (unicode.ToLower to_lower) (pre +:+ "" +:+ post)).
  - pose proof Hsub as Hc. cbn [isASCII] in Hc.
    apply andb_prop in Hc as [Hc%Z.ltb_lt _].
    rewrite Map_app by (rewrite app_cons; by left).
    rewrite Map_lower_run by done. by eexists _, _.
Qed.

Lemma lower_byte_upper c :
  65 <= byte c <= 90 -> lower_byte c = char (byte c + 32).
Proof.
  intros Hc. unfold lower_byte. cbv zeta.
  replace (65 <=? byte c)%Z with true by (symmetry; apply Z.leb_le; lia).
  by replace (byte c <=? 90)%Z with true by (symmetry; apply Z.leb_le; lia).
Qed.

Lemma lower_byte_other c :
  byte c < 65 \/ 90 < byte c -> lower_byte c = c.
Proof.
  intros Hc. unfold lower_byte. cbv zeta.
  destruct (_ && _) eqn:E; [|done].
  apply andb_prop in E as [H1%Z.leb_le H2%Z.leb_le]. lia.
Qed.

Lemma lower_byte_idem c : lower_byte (lower_byte c) = lower_byte c.
Proof.
  pose proof (byte_range c) as Hr.
  destruct (decide (65 <= byte c <= 90)) as [Hc|Hc].
  - rewrite (lower_byte_upper c Hc). apply lower_byte_other.
    rewrite byte_char by lia. lia.
  - by rewrite !(lower_byte_other c) by lia.
Qed.

Lemma lower_byte_high c : 0x80 <= byte c -> lower_byte c = c.
Proof. intros Hc. apply lower_byte_other. lia. Qed.

Lemma lower_byte_low c : byte c < 0x80 -> byte (lower_byte c) < 0x80.
Proof.
  intros Hc. by destruct (lower_byte_ascii to_lower c Hc) as [_ [_ ?]].
Qed.

Lemma isASCII_lower s : isASCII (lower_ascii s) = isASCII s.
Proof.
  induction s as [|c s IH]; [done|]. simpl. rewrite IH. f_equal.
  unfold utf8.RuneSelf.
  destruct (Z.ltb_spec (byte c) 0x80) as [Hc|Hc].
  - apply Z.ltb_lt. by apply lower_byte_low.
  - rewrite lower_byte_high by done. by apply Z.ltb_ge.
Qed.

Lemma lower_ascii_length s : String.length (lower_ascii s) = String.length s.
Proof. induction s as [|c s IH]; [done|]. simpl. by rewrite IH. Qed.

(** Folding the ASCII letters of a string leaves the decoding of its
    other bytes as it was. *)
Lemma continuation_lower_ascii lo hi s :
  0x80 <= lo ->
  utf8.continuation lo hi (lower_ascii s)
  = match utf8.continuation lo hi s with
    | Some (x, s') => Some (x, lower_ascii s')
    | None => None
    end.
Proof.
  intros Hlo. destruct s as [|c s]; [done|].
  cbn [lower_ascii]. unfold utf8.continuation. cbv zeta.
  destruct (Z.ltb_spec (byte c) 0x80) as [Hc|Hc].
  - pose proof (lower_byte_low c Hc) as Hc'.
    replace (lo <=? byte (lower_byte c))%Z with false
      by (symmetry; apply Z.leb_gt; lia).
    by replace (lo <=? byte c)%Z with false
      by (symmetry; apply Z.leb_gt; lia).
  - rewrite lower_byte_high by done. by destruct (_ && _).
Qed.

Lemma decode_lower_ascii c s :
  0x80 <= byte c ->
  utf8.DecodeRuneInString (String c (lower_ascii s))
  = utf8.DecodeRuneInString (String c s).
Proof.
  intros Hc. unfold utf8.DecodeRuneInString. cbv zeta.
  assert (Hlo3 : 0x80 <= (if (byte c =? 0xE0)%Z then 0xA0 else 0x80))
    by (destruct (byte c =? 0xE0)%Z; lia).
  assert (Hlo4 : 0x80 <= (if (byte c =? 0xF0)%Z then 0x90 else 0x80))
    by (destruct (byte c =? 0xF0)%Z; lia).
  rewrite !continuation_lower_ascii by done.
  repeat match goal with
         | |- context [if (byte c <? ?k)%Z then _ else _] =>
             destruct (byte c <? k)%Z; [done|]
         end.
  all: repeat match goal with
         | |- context [utf8.continuation ?lo ?hi (lower_ascii ?t)] =>
             rewrite (continuation_lower_ascii lo hi t) by done
         | |- context [match utf8.continuation ?lo ?hi ?t with _ => _ end] =>
             destruct (utf8.continuation lo hi t) as [[? ?]|]
         end; try done.
Qed.

Lemma ToLower_twice_ascii c :
  byte c < 0x80 ->
  unicode.ToLower to_lower (byte (lower_byte c))
  = unicode.ToLower to_lower (byte c).
Proof.
  intros Hc. destruct (lower_byte_ascii to_lower c Hc) as [-> Hr].
  destruct (lower_byte_ascii to_lower (lower_byte c)) as [-> _]; [lia|].
  by rewrite lower_byte_idem.
Qed.

Lemma map_runes_lower_ascii s k :
  map_runes (unicode.ToLower to_lower) (range_loop k (lower_ascii s))
  = map_runes (unicode.ToLower to_lower) (range_loop k s).
Proof.
  revert k. induction s as [|c s IH]; intros k; [done|].
  cbn [lower_ascii]. destruct k as [|k]; [|by rewrite !range_loop_S].
  destruct (Z.ltb_spec (byte c) 0x80) as [Hc|Hc].
  - pose proof (lower_byte_low c Hc) as Hc'.
    change (range_loop 0) with range_string.
    rewrite !range_string_ascii by done. cbn [map_runes].
    rewrite ToLower_twice_ascii by done. unfold range_string. by rewrite IH.
  - rewrite lower_byte_high by done. rewrite !range_loop_0.
    rewrite decode_lower_ascii by done. cbn [map_runes fst]. by rewrite IH.
Qed.

(** [ToLower] does not tell an ASCII capital from its small letter. *)
Lemma ToLower_lower_ascii s :
  ToLower (lower_ascii s) = ToLower s.
Proof. rewrite !ToLower_Map, !Map_runes. apply map_runes_lower_ascii. Qed.

Lemma ToLower_same_ascii s s' :
  lower_ascii s = lower_ascii s' -> ToLower s = ToLower s'.
Proof.
  intros H. by rewrite <- (ToLower_lower_ascii s), H, ToLower_lower_ascii.
Qed.

(** [ToLower] reads the table at the runes of the string only. *)
Lemma ToLower_agree (table : Z -> Z) s :
  Forall (fun rune => unicode.ToLower to_lower rune.1
                      = unicode.ToLower table rune.1) (range_string s) ->
  ToLower s = gostrings.ToLower table s.
Proof. rewrite !ToLower_Map. apply Map_agree. Qed.

End lowering.

(** ** Fields *)

Section fields.

Implicit Types (s word rest : string) (l : list (Z * string)) (r : Z).

Lemma fields_runes_run (f : Z -> bool) start l1 l2 :
  Forall (fun rune => f rune.1 = false) l1 ->
  fields_runes f start (l1 ++ l2)
  = fields_runes f (field_so_far start l1) l2.
Proof.
  revert start. induction l1 as [|[r b] l1 IH]; intros start Hl1.
  - by destruct start.
  - apply Forall_cons in Hl1 as [Hr Hl1]. cbn [fst] in Hr.
    cbn [app fields_runes]. rewrite Hr.
    destruct start as [word|]; rewrite IH by done;
      destruct l1 as [|[r' b'] l1]; cbn [field_so_far bytes_of];
      by rewrite ?app_empty_r, ?app_assoc'.
Qed.

(** The white space of [unicode.IsSpace], rune by rune. *)
Lemma IsSpace_runes r : unicode.IsSpace r = true <-> r ∈ white_space.
Proof.
  split.
  - unfold unicode.IsSpace, unicode.MaxLatin1. intros Hr.
    assert (r = 9 \/ r = 10 \/ r = 11 \/ r = 12 \/ r = 13 \/ r = 0x20 \/
            r = 0x85 \/ r = 0xA0 \/ r = 0x1680 \/ r = 0x2000 \/ r = 0x2001 \/
            r = 0x2002 \/ r = 0x2003 \/ r = 0x2004 \/ r = 0x2005 \/
            r = 0x2006 \/ r = 0x2007 \/ r = 0x2008 \/ r = 0x2009 \/
            r = 0x200A \/ r = 0x2028 \/ r = 0x2029 \/ r = 0x202F \/
            r = 0x205F \/ r = 0x3000) as H.
    { destruct (_ && _) in Hr;
        repeat match type of Hr with
               | (_ || _) = true => apply orb_prop in Hr as [Hr|Hr]
               | (_ && _) = true => apply andb_prop in Hr as [? Hr]
               end; bool_hyps; lia. }
    unfold white_space.
    repeat (destruct H as [->|H]; [set_solver|]). subst. set_solver.
  - unfold white_space. intros Hr.
    repeat (apply elem_of_cons in Hr as [->|Hr]; [reflexivity|]).
    by apply elem_of_nil in Hr.
Qed.

(** A white-space rune is read back from its encoding, whatever
    follows. *)
Lemma range_string_space r rest :
  unicode.IsSpace r = true ->
  (exists c b, utf8.EncodeRune r = String c b /\ noncont c) /\
  range_string (utf8.EncodeRune r +:+ rest)
  = (r, utf8.EncodeRune r) :: range_string rest.
Proof.
  intros Hr%IsSpace_runes. unfold white_space in Hr.
  repeat (apply elem_of_cons in Hr as [->|Hr];
          [split; [eexists _, _; split; [reflexivity|];
                   vm_compute; (by left) || (right; discriminate)
                  | reflexivity]|]).
  by apply elem_of_nil in Hr.
Qed.

Lemma asciiSpace_IsSpace c :
  byte c < 0x80 -> asciiSpace c = unicode.IsSpace (byte c).
Proof.
  intros Hc. pose proof (byte_range c) as Hr.
  unfold asciiSpace, unicode.IsSpace, unicode.MaxLatin1. cbv zeta.
  replace ((0 <=? byte c) && (byte c <=? 255))%Z with true
    by (symmetry; apply andb_true_intro; split; apply Z.leb_le; lia).
  replace (byte c =? 133)%Z with false by (symmetry; apply Z.eqb_neq; lia).
  replace (byte c =? 160)%Z with false by (symmetry; apply Z.eqb_neq; lia).
  by rewrite !orb_false_r.
Qed.

Lemma fields_from_runes cur s :
  isASCII s = true ->
  fields_from cur s
  = fields_runes unicode.IsSpace
      (if String.eqb cur "" then None else Some cur) (range_string s).
Proof.
  revert cur. induction s as [|c s IH]; intros cur Hs.
  - cbn. by destruct (String.eqb cur "").
  - cbn [isASCII] in Hs. apply andb_prop in Hs as [Hc%Z.ltb_lt Hs].
    rewrite range_string_ascii by done. cbn [fields_from fields_runes].
    rewrite asciiSpace_IsSpace by done.
    destruct (unicode.IsSpace (byte c)).
    + destruct (String.eqb cur ""); by rewrite IH.
    + rewrite IH by done.
      assert (Hne : String.eqb (cur +:+ String c "") "" = false)
        by (apply String.eqb_neq; destruct cur; [done | by rewrite app_cons]).
      rewrite Hne. by destruct (String.eqb_spec cur "") as [->|].
Qed.

(** The loop of [Fields] for a string of ASCII bytes gives what
    [FieldsFunc] gives: [Fields] is [FieldsFunc] with [unicode.IsSpace]
    on every string. *)
Lemma Fields_FieldsFunc s : Fields s = FieldsFunc s unicode.IsSpace.
Proof.
  unfold Fields. destruct (isASCII s) eqn:Hs; [|done].
  by rewrite fields_from_runes.
Qed.

Lemma Fields_empty : Fields "" = [].
Proof. reflexivity. Qed.

(** [Fields] skips white space and cuts a field at the next white space
    or at the end of the string. *)
Lemma Fields_skip r rest :
  unicode.IsSpace r = true ->
  Fields (utf8.EncodeRune r +:+ rest) = Fields rest.
Proof.
  intros Hr. rewrite !Fields_FieldsFunc. unfold FieldsFunc.
  destruct (range_string_space r rest Hr) as [_ ->].
  cbn [fields_runes]. by rewrite Hr.
Qed.

Lemma Fields_cut word r rest :
  is_field word -> unicode.IsSpace r = true ->
  Fields (word +:+ utf8.EncodeRune r +:+ rest) = word :: Fields rest.
Proof.
  intros [Hne Hword] Hr. rewrite !Fields_FieldsFunc. unfold FieldsFunc.
  destruct (range_string_space r rest Hr) as [(c & b & E & Hc) Hrange].
  rewrite range_string_app by (by rewrite E, app_cons).
  rewrite Hrange, fields_runes_run by done.
  pose proof (bytes_of_range_string word) as Hbytes.
  destruct (range_string word) as [|rune l]; [by subst word|].
  cbn [field_so_far fields_runes]. by rewrite Hr, Hbytes.
Qed.

Lemma Fields_end word : is_field word -> Fields word = [word].
Proof.
  intros [Hne Hword]. rewrite !Fields_FieldsFunc. unfold FieldsFunc.
  rewrite <- (app_nil_r (range_string word)).
  rewrite fields_runes_run by done.
  pose proof (bytes_of_range_string word) as Hbytes.
  destruct (range_string word) as [|rune l]; [by subst word|].
  cbn [field_so_far fields_runes]. by rewrite Hbytes.
Qed.

Lemma bytes_of_nonempty s l1 l2 rune :
  range_string s = l1 ++ l2 -> rune ∈ l1 ++ l2 -> rune.2 ≠ "".
Proof.
  intros <-. destruct rune as [r b].
  by intros (c & b' & t & -> & _)%range_loop_head.
Qed.

Lemma range_prefix_unique s l1 l2 m1 m2 :
  range_string s = l1 ++ l2 -> l1 ++ l2 = m1 ++ m2 ->
  bytes_of l1 = bytes_of m1 -> l1 = m1.
Proof.
  intros Hs. assert (Hne : forall rune, rune ∈ l1 ++ l2 -> rune.2 ≠ "")
    by (intros rune; by apply (bytes_of_nonempty s)).
  clear Hs. revert m1 Hne.
  induction l1 as [|[r b] l1 IH]; intros [|[r' b'] m1] Hne Heq Hbytes.
  - done.
  - cbn [bytes_of] in Hbytes.
    assert (Hb : b' ≠ "") by (apply (Hne (r', b')); rewrite Heq; set_solver).
    destruct b'; [done | discriminate Hbytes].
  - cbn [bytes_of] in Hbytes.
    assert (Hb : b ≠ "") by (apply (Hne (r, b)); set_solver).
    destruct b; [done | discriminate Hbytes].
  - cbn [app] in Heq. injection Heq as -> -> Heq.
    cbn [bytes_of] in Hbytes. apply app_inv_head' in Hbytes.
    f_equal. apply IH; [|done..].
    intros rune ?. apply Hne. rewrite <- app_comm_cons, elem_of_cons. by right.
Qed.

(** The runes of a string up to a white-space rune or up to its end are
    the runes of these bytes on their own. *)
Lemma range_string_prefix s l1 l2 :
  range_string s = l1 ++ l2 ->
  match l2 with
  | [] => True
  | (r, _) :: _ => unicode.IsSpace r = true
  end ->
  range_string (bytes_of l1) = l1.
Proof.
  intros Hs Hl2.
  assert (Hstart : starts_rune (bytes_of l2)).
  { destruct l2 as [|[r b] l2]; [done|].
    assert (Hb : starts_rune b).
    { apply (space_starts_rune s r b); [|done]. rewrite Hs. set_solver. }
    assert (Hne : b ≠ "").
    { apply (bytes_of_nonempty s l1 ((r, b) :: l2) (r, b)); [done|].
      set_solver. }
    cbn [bytes_of]. destruct b as [|c b]; [done|]. by rewrite app_cons. }
  pose proof (bytes_of_range_string s) as Hbytes.
  rewrite Hs, bytes_of_app in Hbytes.
  pose proof (range_string_app (bytes_of l1) (bytes_of l2) Hstart) as Happ.
  rewrite Hbytes, Hs in Happ. symmetry.
  apply (range_prefix_unique s l1 l2 _ _ Hs Happ).
  by rewrite bytes_of_range_string.
Qed.

Lemma fields_runes_is_field l start :
  (exists s, l = range_string s) ->
  match start with
  | None => True
  | Some word => forall l1 l2, l = l1 ++ l2 -> no_space l1 ->
                   space_or_end l2 -> is_field (word +:+ bytes_of l1)
  end ->
  Forall is_field (fields_runes unicode.IsSpace start l).
Proof.
  revert start. induction l as [|[r b] l IH]; intros start [s Hs] Hstart.
  - destruct start as [word|]; [|done]. apply Forall_singleton.
    rewrite <- (app_empty_r word).
    apply (Hstart [] []); [done | apply Forall_nil; done | done].
  - destruct (range_string_tail s _ _ (eq_sym Hs)) as [s' Hs'].
    cbn [fields_runes]. destruct (unicode.IsSpace r) eqn:Hr.
    + destruct start as [word|]; [apply Forall_cons; split|]; try by eauto.
      rewrite <- (app_empty_r word).
      apply (Hstart [] ((r, b) :: l)); [done | apply Forall_nil; done | done].
    + assert (Hr' : no_space [(r, b)]) by (by apply Forall_singleton).
      destruct start as [word|]; apply IH; eauto; intros l1 l2 -> Hl1 Hl2.
      * rewrite app_assoc'.
        apply (Hstart ((r, b) :: l1) l2); [done| |done].
        by apply Forall_cons.
      * assert (Hrange : range_string (bytes_of ((r, b) :: l1)) = (r, b) :: l1).
        { apply (range_string_prefix s _ l2); [by rewrite <- Hs|].
          by destruct l2 as [|[? ?] ?]. }
        assert (Hb : b ≠ "").
        { apply (bytes_of_nonempty s [(r, b)] (l1 ++ l2) (r, b));
            [by rewrite <- Hs | set_solver]. }
        split.
        -- destruct b; [done | by rewrite app_cons].
        -- change (b +:+ bytes_of l1) with (bytes_of ((r, b) :: l1)).
           rewrite Hrange. by apply Forall_cons.
Qed.

(** What [Fields] returns are fields: none is empty and none holds a
    white-space rune. *)
Lemma Fields_is_field s : Forall is_field (Fields s).
Proof.
  rewrite Fields_FieldsFunc. apply fields_runes_is_field; [by exists s | done].
Qed.

End fields.

(** ** Intent classification *)

Section intent.

Variable message : string.
Let lower := ToLower message.

Lemma intent_help :
  Substring "help" lower \/ Substring "assist" lower ->
  extractIntent message = "help_request".
Proof.
  intros H. unfold extractIntent. fold lower.
  destruct H as [H|H]; apply Contains_spec in H; rewrite H;
    [done | by rewrite orb_true_r].
Qed.

Hypothesis no_help : ~ Substring "help" lower.
Hypothesis no_assist : ~ Substring "assist" lower.

Lemma intent_question :
  Substring "?" lower -> extractIntent message = "question".
Proof.
  intros H. unfold extractIntent. fold lower.
  apply Contains_false in no_help, no_assist. apply Contains_spec in H.
  by rewrite no_help, no_assist, H.
Qed.

Hypothesis no_question : ~ Substring "?" lower.

Lemma intent_gratitude :
  Substring "thank" lower -> extractIntent message = "gratitude".
Proof.
  intros H. unfold extractIntent. fold lower.
  apply Contains_false in no_help, no_assist, no_question.
  apply Contains_spec in H.
  by rewrite no_help, no_assist, no_question, H.
Qed.

Hypothesis no_thank : ~ Substring "thank" lower.

Lemma intent_greeting :
  Substring "hello" lower \/ Substring "hi" lower ->
  extractIntent message = "greeting".
Proof.
  intros H. unfold extractIntent. fold lower.
  apply Contains_false in no_help, no_assist, no_question, no_thank.
  rewrite no_help, no_assist, no_question, no_thank. simpl.
  destruct H as [H|H]; apply Contains_spec in H; rewrite H;
    [done | by rewrite orb_true_r].
Qed.

Lemma intent_general :
  ~ Substring "hello" lower -> ~ Substring "hi" lower ->
  extractIntent message = "general".
Proof.
  intros H1 H2. unfold extractIntent. fold lower.
  apply Contains_false in no_help, no_assist, no_question, no_thank, H1, H2.
  by rewrite no_help, no_assist, no_question, no_thank, H1, H2.
Qed.

End intent.

Lemma extractIntent_label message : extractIntent message ∈ intent_labels.
Proof.
  unfold extractIntent, intent_labels.
  repeat match goal with |- context [if ?b then _ else _] => destruct b end;
    set_solver.
Qed.

(** C4. [extractIntent] lowercases the message and applies its rules in a
    fixed priority order: "help" or "assist" gives [help_request];
    otherwise "?" gives [question]; otherwise "thank" gives [gratitude];
    otherwise "hello" or "hi" gives [greeting]; otherwise [general].  In
    particular a message in which both "help" and "?" occur is a
    [help_request].  The label returned is one of five distinct labels.
    Lowercasing folds the ASCII capitals wherever they stand, so "help"
    and "assist" are found in any mix of cases, and it maps the other
    runes by the table of package [unicode]: where that table takes the
    Kelvin sign to "k", "THAN" followed by the Kelvin sign is a "thank",
    and where it takes the dotted capital I to "i", "ASS" followed by it
    and "ST" is an "assist". *)
Theorem extractIntent_priority (message : string) :
  let lower := ToLower message in
  let help := Substring "help" lower \/ Substring "assist" lower in
  let question := Substring "?" lower in
  let thank := Substring "thank" lower in
  let hello := Substring "hello" lower \/ Substring "hi" lower in
  (help -> extractIntent message = "help_request") /\
  (~ help -> question -> extractIntent message = "question") /\
  (~ help -> ~ question -> thank -> extractIntent message = "gratitude") /\
  (~ help -> ~ question -> ~ thank -> hello ->
     extractIntent message = "greeting") /\
  (~ help -> ~ question -> ~ thank -> ~ hello ->
     extractIntent message = "general") /\
  (Substring "help" message -> Substring "?" message ->
     extractIntent message = "help_request") /\
  extractIntent message ∈ intent_labels /\ NoDup intent_labels /\
  (forall word, Substring word message -> isASCII word = true ->
     Substring (lower_ascii word) lower) /\
  (forall word, Substring word message ->
     lower_ascii word = "help" \/ lower_ascii word = "assist" ->
     extractIntent message = "help_request") /\
  extractIntent "Can you HELP me?" = "help_request" /\
  extractIntent "Is it Monday?" = "question" /\
  extractIntent "THANKS a lot" = "gratitude" /\
  extractIntent "Hello there" = "greeting" /\
  extractIntent "Good morning" = "general" /\
  (to_lower 0x212A = 0x6B ->
     extractIntent ("THAN" +:+ utf8.EncodeRune 0x212A +:+ " you")
     = "gratitude") /\
  (to_lower 0x130 = 0x69 ->
     extractIntent ("ASS" +:+ utf8.EncodeRune 0x130 +:+ "ST?")
     = "help_request").
Proof.
  cbv zeta.
  assert (Hfold : forall word, Substring word message ->
            lower_ascii word = "help" \/ lower_ascii word = "assist" ->
            Substring "help" (ToLower message)
            \/ Substring "assist" (ToLower message)).
  { intros word Hin Hword.
    assert (Hascii : isASCII word = true)
      by (rewrite <- isASCII_lower; by destruct Hword as [-> | ->]).
    pose proof (Substring_ToLower_ascii word message Hascii Hin) as Hlow.
    destruct Hword as [Hword|Hword]; rewrite Hword in Hlow; tauto. }
  repeat split.
  - apply intent_help.
  - intros Hh. apply intent_question; tauto.
  - intros Hh Hq. apply intent_gratitude; tauto.
  - intros Hh Hq Ht. apply intent_greeting; tauto.
  - intros Hh Hq Ht Hg. apply intent_general; tauto.
  - intros Hh _. apply intent_help. apply (Hfold "help"); [done | by left].
  - apply extractIntent_label.
  - by apply (bool_decide_unpack _).
  - intros word Hin Hascii. by apply Substring_ToLower_ascii.
  - intros word Hin Hword. apply intent_help. by apply (Hfold word).
  - intros HK. unfold extractIntent.
    rewrite (ToLower_agree sample_lower); [reflexivity|].
    set (l := range_string _). vm_compute in l. subst l.
    repeat (apply Forall_cons; split; [first [reflexivity | exact HK]|]).
    apply Forall_nil; done.
  - intros HI. unfold extractIntent.
    rewrite (ToLower_agree sample_lower); [reflexivity|].
    set (l := range_string _). vm_compute in l. subst l.
    repeat (apply Forall_cons; split; [first [reflexivity | exact HI]|]).
    apply Forall_nil; done.
Qed.

(** ** Entity extraction *)

Section entities.

Lemma filter_snoc {A} (f : A -> bool) (l : list A) (x : A) :
  List.filter f (l ++ [x])
  = if f x then List.filter f l ++ [x] else List.filter f l.
Proof.
  rewrite List.filter_app. simpl.
  destruct (f x); [done | by rewrite app_nil_r].
Qed.

Lemma entities_loop_snoc (words : list string) (word : string) :
  foldl entities_step ∅ (words ++ [word])
  = entities_step (foldl entities_step ∅ words) word.
Proof. by rewrite foldl_app. Qed.

Lemma entities_step_mention (entities : gmap string string) word :
  entities_step entities word !! "mention"
  = if HasPrefix word "@" then Some word else entities !! "mention".
Proof.
  unfold entities_step.
  destruct (HasPrefix word "@"), (HasPrefix word "#");
    by simplify_map_eq.
Qed.

Lemma entities_step_hashtag (entities : gmap string string) word :
  entities_step entities word !! "hashtag"
  = if HasPrefix word "#" then Some word else entities !! "hashtag".
Proof.
  unfold entities_step.
  destruct (HasPrefix word "@"), (HasPrefix word "#");
    by simplify_map_eq.
Qed.

Lemma entities_step_other (entities : gmap string string) word key :
  key ≠ "mention" -> key ≠ "hashtag" ->
  entities_step entities word !! key = entities !! key.
Proof.
  intros Hm Hh. unfold entities_step.
  destruct (HasPrefix word "@"), (HasPrefix word "#");
    by simplify_map_eq.
Qed.

Lemma entities_loop_mention (words : list string) :
  foldl entities_step ∅ words !! "mention" = last (mentions words).
Proof.
  induction words as [|word words IH] using rev_ind; [done|].
  rewrite entities_loop_snoc, entities_step_mention. unfold mentions.
  rewrite filter_snoc.
  destruct (HasPrefix word "@"); [by rewrite last_snoc | done].
Qed.

Lemma entities_loop_hashtag (words : list string) :
  foldl entities_step ∅ words !! "hashtag" = last (hashtags words).
Proof.
  induction words as [|word words IH] using rev_ind; [done|].
  rewrite entities_loop_snoc, entities_step_hashtag. unfold hashtags.
  rewrite filter_snoc.
  destruct (HasPrefix word "#"); [by rewrite last_snoc | done].
Qed.

Lemma entities_loop_other (words : list string) key :
  key ≠ "mention" -> key ≠ "hashtag" ->
  foldl entities_step ∅ words !! key = None.
Proof.
  intros Hm Hh.
  induction words as [|word words IH] using rev_ind; [done|].
  by rewrite entities_loop_snoc, entities_step_other.
Qed.

End entities.

(** C8. [extractEntities] lowercases the message and splits it on white
    space; its "mention" entry is the last word that starts with "@", its
    "hashtag" entry the last word that starts with "#" (no entry when
    there is no such word), and it has no other entry.  On
    "hey @john check #x and @mary" the mention is "@mary" and the
    hashtag "#x".  The words are the fields of the lowercased message:
    white space is what [unicode.IsSpace] holds of a rune (a tab, a line
    feed or a no-break space as much as a blank: the runes of
    [white_space]), it is skipped, and a
    field ends at the next white-space rune or at the end; the capitals
    of a word are folded, those above U+007F by the table of package
    [unicode]. *)
Theorem extractEntities_last_wins (message : string) :
  let words := Fields (ToLower message) in
  extractEntities message !! "mention" = last (mentions words) /\
  extractEntities message !! "hashtag" = last (hashtags words) /\
  (forall key, key ≠ "mention" -> key ≠ "hashtag" ->
     extractEntities message !! key = None) /\
  extractEntities "hey @john check #x and @mary" !! "mention" = Some "@mary" /\
  extractEntities "hey @john check #x and @mary" !! "hashtag" = Some "#x" /\
  Forall is_field words /\
  (forall r, unicode.IsSpace r = true <-> r ∈ white_space) /\
  (forall r rest, unicode.IsSpace r = true ->
     Fields (utf8.EncodeRune r +:+ rest) = Fields rest) /\
  (forall word r rest, is_field word -> unicode.IsSpace r = true ->
     Fields (word +:+ utf8.EncodeRune r +:+ rest) = word :: Fields rest) /\
  (forall word, is_field word -> Fields word = [word]) /\
  Fields "" = [] /\
  extractEntities ("Ping" +:+ utf8.EncodeRune 9 +:+ "@Ann"
                   +:+ utf8.EncodeRune 10 +:+ "#Ops")
  = <["hashtag" := "#ops"]> (<["mention" := "@ann"]> ∅) /\
  (to_lower 0xA0 = 0xA0 ->
     extractEntities ("@a" +:+ utf8.EncodeRune 0xA0 +:+ "#b")
     = <["hashtag" := "#b"]> (<["mention" := "@a"]> ∅)) /\
  (to_lower 0xC9 = 0xE9 ->
     extractEntities ("@" +:+ utf8.EncodeRune 0xC9 +:+ "COLE") !! "mention"
     = Some ("@" +:+ utf8.EncodeRune 0xE9 +:+ "cole")).
Proof.
  cbv zeta. unfold extractEntities.
  split; [|split; [|split; [|split; [|split; [|split; [|split; [|split;
    [|split; [|split; [|split; [|split; [|split]]]]]]]]]]]].
  - apply entities_loop_mention.
  - apply entities_loop_hashtag.
  - apply entities_loop_other.
  - by rewrite entities_loop_mention.
  - by rewrite entities_loop_hashtag.
  - apply Fields_is_field.
  - apply IsSpace_runes.
  - apply Fields_skip.
  - apply Fields_cut.
  - apply Fields_end.
  - apply Fields_empty.
  - vm_compute. reflexivity.
  - intros Hnbsp. rewrite (ToLower_agree sample_lower).
    + vm_compute. reflexivity.
    + set (l := range_string _). vm_compute in l. subst l.
      repeat (apply Forall_cons; split; [first [reflexivity | exact Hnbsp]|]).
      apply Forall_nil; done.
  - intros HE. rewrite (ToLower_agree sample_lower).
    + vm_compute. reflexivity.
    + set (l := range_string _). vm_compute in l. subst l.
      repeat (apply Forall_cons; split; [first [reflexivity | exact HE]|]).
      apply Forall_nil; done.
Qed.

(** ** Topic extraction *)

Section topics.

Lemma topics_loop (lower : string) (iter : list (string * string))
    (topics : list string) :
  foldl (topics_step lower) topics iter
  = topics ++ (matched lower iter).*2.
Proof.
  revert topics. induction iter as [|[keyword topic] iter IH];
    intros topics; simpl.
  - by rewrite app_nil_r.
  - rewrite IH. destruct (Contains lower keyword); simpl; [|done].
    by rewrite <- app_assoc.
Qed.

Lemma extractTopics_matched iter message :
  extractTopics iter message = (matched (ToLower message) iter).*2.
Proof. unfold extractTopics. by rewrite topics_loop. Qed.

Lemma filter_Permutation {A} (f : A -> bool) (l1 l2 : list A) :
  l1 ≡ₚ l2 -> List.filter f l1 ≡ₚ List.filter f l2.
Proof.
  induction 1 as [|x l1 l2 _ IH|x y l|l1 l2 l3 _ IH1 _ IH2]; simpl.
  - done.
  - destruct (f x); by rewrite IH.
  - destruct (f x), (f y); try done. apply perm_swap.
  - by rewrite IH1.
Qed.

Lemma extractTopics_Permutation iter message :
  iteration_order iter ->
  extractTopics iter message ≡ₚ extractTopics keywords message.
Proof.
  intros Hiter. rewrite !extractTopics_matched. unfold matched.
  by rewrite (filter_Permutation _ _ _ Hiter).
Qed.

Lemma occurrences_Permutation tag (l1 l2 : list string) :
  l1 ≡ₚ l2 -> occurrences tag l1 = occurrences tag l2.
Proof.
  intros H. unfold occurrences.
  by rewrite (filter_Permutation _ _ _ H).
Qed.

Lemma occurrences_fmap_snd tag (table : list (string * string)) :
  occurrences tag table.*2
  = length (List.filter (fun entry => String.eqb tag entry.2) table).
Proof.
  unfold occurrences.
  induction table as [|[keyword topic] table IH]; csimpl; [done|].
  destruct (String.eqb tag topic); csimpl; by rewrite IH.
Qed.

Lemma filter_filter_andb {A} (f g : A -> bool) (l : list A) :
  List.filter f (List.filter g l)
  = List.filter (fun x => g x && f x) l.
Proof.
  induction l as [|x l IH]; simpl; [done|].
  destruct (g x); simpl; [|done]. destruct (f x); by rewrite IH.
Qed.

Lemma NoDup_occurrences tag (topics : list string) :
  NoDup topics -> (occurrences tag topics <= 1)%nat.
Proof.
  unfold occurrences. induction 1 as [|topic topics Hnotin _ IH]; simpl.
  - lia.
  - destruct (String.eqb_spec tag topic) as [->|_]; [|done].
    simpl. assert (List.filter (String.eqb topic) topics = []) as ->; [|done].
    clear IH. induction topics as [|t topics IH]; simpl; [done|].
    destruct (String.eqb_spec topic t) as [->|_]; [set_solver|].
    apply IH. set_solver.
Qed.

End topics.

(** C2, as the code has it.  [extractTopics] does not remove duplicates:
    whatever the iteration order of the keyword map, it returns one entry
    for each keyword that occurs in the lowercased message, so a tag
    appears as many times as there are occurring keywords that stand for
    it; the result is the same, up to order, for all iteration orders. *)
Theorem extractTopics_one_entry_per_keyword (iter : list (string * string))
    (message tag : string) :
  iteration_order iter ->
  occurrences tag (extractTopics iter message)
  = length (keywords_for tag (ToLower message)) /\
  extractTopics iter message ≡ₚ extractTopics keywords message.
Proof.
  intros Hiter. split; [|by apply extractTopics_Permutation].
  rewrite (occurrences_Permutation _ _ _
             (extractTopics_Permutation _ message Hiter)).
  rewrite extractTopics_matched, occurrences_fmap_snd.
  unfold matched, keywords_for. by rewrite filter_filter_andb.
Qed.

(** ** Conversation store *)

Section dedup_first_facts.

Implicit Types tags old : list string.

Lemma elem_of_dedup_first tags t : t ∈ dedup_first tags <-> t ∈ tags.
Proof.
  induction tags as [|tag tags IH]; simpl; [done|].
  rewrite !elem_of_cons, list_elem_of_filter, IH.
  destruct (decide (t = tag)); naive_solver.
Qed.

Lemma NoDup_dedup_first tags : NoDup (dedup_first tags).
Proof.
  induction tags as [|tag tags IH]; simpl; [constructor|].
  constructor; [|by apply NoDup_filter].
  rewrite list_elem_of_filter. naive_solver.
Qed.

Lemma dedup_first_sublist tags : dedup_first tags `sublist_of` tags.
Proof.
  induction tags as [|tag tags IH]; simpl; [done|].
  apply sublist_skip. etrans; [apply sublist_filter | done].
Qed.

Lemma filter_all (P : string -> Prop) `{!forall t, Decision (P t)} tags :
  Forall P tags -> filter P tags = tags.
Proof.
  induction 1 as [|t tags Ht _ IH]; [done|].
  by rewrite filter_cons_True, IH.
Qed.

Lemma dedup_first_NoDup_id tags : NoDup tags -> dedup_first tags = tags.
Proof.
  induction 1 as [|tag tags Hnotin _ IH]; simpl; [done|].
  rewrite IH. f_equal. apply filter_all.
  apply Forall_forall. by intros t Ht ->.
Qed.

Lemma dedup_first_snoc tags t :
  dedup_first (tags ++ [t])
  = if decide (t ∈ tags) then dedup_first tags else dedup_first tags ++ [t].
Proof.
  induction tags as [|tag tags IH].
  - done.
  - rewrite <- app_comm_cons. cbn [dedup_first]. rewrite IH.
    destruct (decide (t ∈ tags)) as [Hin|Hnotin].
    + by rewrite decide_True by set_solver.
    + rewrite filter_app, filter_cons, filter_nil.
      destruct (decide (t = tag)) as [->|Hne].
      * rewrite decide_False by naive_solver.
        rewrite decide_True by set_solver. by rewrite app_nil_r.
      * rewrite decide_True by done.
        by rewrite decide_False by set_solver.
Qed.

Lemma dedup_first_app tags1 tags2 :
  dedup_first (tags1 ++ tags2)
  = dedup_first tags1 ++ filter (fun t => t ∉ tags1) (dedup_first tags2).
Proof.
  induction tags2 as [|t tags2 IH] using rev_ind.
  - cbn [dedup_first]. by rewrite filter_nil, !app_nil_r.
  - rewrite app_assoc, !dedup_first_snoc, IH.
    destruct (decide (t ∈ tags2)) as [Hin|Hnotin].
    + by rewrite decide_True by set_solver.
    + rewrite filter_app, filter_cons, filter_nil.
      destruct (decide (t ∈ tags1)) as [Hin1|Hnotin1].
      * rewrite decide_True by set_solver.
        rewrite decide_False by naive_solver. by rewrite app_nil_r.
      * rewrite decide_False by set_solver.
        rewrite decide_True by done. by rewrite app_assoc.
Qed.

End dedup_first_facts.

Section store.

Implicit Types (ctx : ConversationContext) (h : Store).
Implicit Types (topics old : list string).

Lemma contains_spec old topic : contains old topic = true <-> topic ∈ old.
Proof.
  induction old as [|s old IH]; simpl.
  - split; [done | by intros ?%elem_of_nil].
  - rewrite elem_of_cons. destruct (String.eqb_spec s topic); naive_solver.
Qed.

Lemma contains_decide old topic :
  contains old topic = bool_decide (topic ∈ old).
Proof.
  apply eq_true_iff_eq. rewrite contains_spec.
  by rewrite bool_decide_eq_true.
Qed.

(** The loop of [updateConversationContext] touches [Topics] only. *)
Lemma add_topics_fields ctx topics :
  let ctx' := foldl add_topic ctx topics in
  UserID ctx' = UserID ctx /\ LastMessage ctx' = LastMessage ctx /\
  MessageCount ctx' = MessageCount ctx /\ Timestamp ctx' = Timestamp ctx.
Proof.
  revert ctx. induction topics as [|topic topics IH]; intros ctx; simpl;
    [done|].
  destruct (IH (add_topic ctx topic)) as (-> & -> & -> & ->).
  unfold add_topic. by destruct (negb _).
Qed.

Lemma add_topic_Topics ctx topic :
  Topics (add_topic ctx topic)
  = if decide (topic ∈ Topics ctx) then Topics ctx
    else Topics ctx ++ [topic].
Proof.
  unfold add_topic. rewrite contains_decide.
  by destruct (decide (topic ∈ Topics ctx));
    [rewrite bool_decide_true | rewrite bool_decide_false].
Qed.

(** What the loop leaves in [Topics]: the stored tags, then the new
    tags of the message, each once, in the order of first appearance. *)
Lemma add_topics_Topics ctx topics :
  Topics (foldl add_topic ctx topics)
  = Topics ctx ++ filter (fun t => t ∉ Topics ctx) (dedup_first topics).
Proof.
  induction topics as [|topic topics IH] using rev_ind.
  - cbn [dedup_first foldl]. by rewrite filter_nil, app_nil_r.
  - rewrite foldl_app. simpl. rewrite add_topic_Topics, IH.
    rewrite dedup_first_snoc.
    destruct (decide (topic ∈ topics)) as [Hin|Hnotin].
    + rewrite decide_True; [done|].
      rewrite elem_of_app, list_elem_of_filter, elem_of_dedup_first.
      destruct (decide (topic ∈ Topics ctx)); naive_solver.
    + rewrite filter_app, filter_cons, filter_nil.
      destruct (decide (topic ∈ Topics ctx)) as [Hin'|Hnotin'].
      * rewrite decide_True by set_solver.
        rewrite decide_False by naive_solver. by rewrite app_nil_r.
      * rewrite decide_False.
        -- rewrite decide_True by done. by rewrite app_assoc.
        -- rewrite elem_of_app, list_elem_of_filter, elem_of_dedup_first.
           naive_solver.
Qed.

End store.

Section update.

Implicit Types (ctx : ConversationContext) (h : Store).
Variables (now : Time) (iter : list (string * string)).
Variables (userID message : string).

Lemma context_eq ctx1 ctx2 :
  UserID ctx1 = UserID ctx2 -> LastMessage ctx1 = LastMessage ctx2 ->
  MessageCount ctx1 = MessageCount ctx2 -> Topics ctx1 = Topics ctx2 ->
  Timestamp ctx1 = Timestamp ctx2 -> ctx1 = ctx2.
Proof. destruct ctx1, ctx2; simpl; congruence. Qed.

Lemma update_insert h :
  updateConversationContext now iter userID message h
  = <[userID := updated_context now iter userID message h]> h.
Proof.
  unfold updateConversationContext, updated_context.
  unfold stored_topics, stored_count. f_equal.
  match goal with |- foldl add_topic ?c ?ts = _ =>
    pose proof (add_topics_fields c ts) as (Hu & Hl & Hc & Ht);
    pose proof (add_topics_Topics c ts) as HT
  end.
  apply context_eq; rewrite ?Hu, ?Hl, ?Hc, ?Ht, ?HT;
    by destruct (h !! userID).
Qed.

Lemma update_lookup h :
  updateConversationContext now iter userID message h !! userID
  = Some (updated_context now iter userID message h).
Proof. by rewrite update_insert, lookup_insert_eq. Qed.

Lemma update_lookup_ne h other :
  other ≠ userID ->
  updateConversationContext now iter userID message h !! other = h !! other.
Proof. intros Hne. by rewrite update_insert, lookup_insert_ne. Qed.

Lemma update_keyed h :
  keyed h -> keyed (updateConversationContext now iter userID message h).
Proof.
  intros Hk u ctx. destruct (decide (u = userID)) as [->|Hne].
  - rewrite update_lookup. intros [= <-]. simpl.
    destruct (h !! userID) as [c|] eqn:E; [by apply Hk | done].
  - rewrite update_lookup_ne by done. apply Hk.
Qed.

Lemma updated_context_NoDup h :
  NoDup (stored_topics h userID) ->
  NoDup (Topics (updated_context now iter userID message h)).
Proof.
  intros Hold. simpl. apply NoDup_app. split; [done|]. split.
  - intros t Hin [Hnotin _]%list_elem_of_filter. done.
  - apply NoDup_filter, NoDup_dedup_first.
Qed.

Lemma update_topics_distinct h :
  topics_distinct h ->
  topics_distinct (updateConversationContext now iter userID message h).
Proof.
  intros Hd u ctx. destruct (decide (u = userID)) as [->|Hne].
  - rewrite update_lookup. intros [= <-]. apply updated_context_NoDup.
    unfold stored_topics.
    destruct (h !! userID) as [c|] eqn:E; simpl; [by eapply Hd | constructor].
  - rewrite update_lookup_ne by done. apply Hd.
Qed.

End update.

Lemma int_incr_wrap (n : Z) : int_incr (int_wrap n) = int_wrap (n + 1).
Proof.
  unfold int_incr, int_wrap. f_equal.
  replace (((n + 2 ^ 63) mod 2 ^ 64 - 2 ^ 63) + 1 + 2 ^ 63)
    with ((n + 2 ^ 63) mod 2 ^ 64 + 1) by lia.
  rewrite Zplus_mod_idemp_l. f_equal. lia.
Qed.

Lemma int_wrap_small (n : Z) : - 2 ^ 63 <= n < 2 ^ 63 -> int_wrap n = n.
Proof. intros H. unfold int_wrap. rewrite Z.mod_small; lia. Qed.

(** C3. For a user the store has not seen, a first update creates a
    context with [MessageCount = 1]; a second update yields
    [MessageCount = 2] and a topic list that is the deduplicated union,
    in first-seen order, of the topics extracted from the two messages. *)
Theorem update_new_user_twice (h : Store) (userID message1 message2 : string)
    (now1 now2 : Time) (iter1 iter2 : list (string * string)) :
  h !! userID = None ->
  let h1 := updateConversationContext now1 iter1 userID message1 h in
  let h2 := updateConversationContext now2 iter2 userID message2 h1 in
  (exists ctx1, h1 !! userID = Some ctx1 /\
     UserID ctx1 = userID /\ LastMessage ctx1 = message1 /\
     MessageCount ctx1 = 1 /\
     Topics ctx1 = dedup_first (extractTopics iter1 message1)) /\
  (exists ctx2, h2 !! userID = Some ctx2 /\
     UserID ctx2 = userID /\ LastMessage ctx2 = message2 /\
     MessageCount ctx2 = 2 /\
     Topics ctx2 = dedup_first (extractTopics iter1 message1
                                ++ extractTopics iter2 message2)).
Proof.
  intros Hnew h1 h2.
  assert (H1 : h1 !! userID
               = Some {| UserID := userID; LastMessage := message1;
                         MessageCount := 1;
                         Topics := dedup_first (extractTopics iter1 message1);
                         Timestamp := now1 |}).
  { unfold h1. rewrite update_lookup. f_equal.
    unfold updated_context, stored_topics, stored_count. rewrite Hnew. simpl.
    f_equal. apply filter_all, Forall_forall. intros t _. apply not_elem_of_nil. }
  split; [eexists; split; [exact H1 | done]|].
  eexists. split; [unfold h2; apply update_lookup|].
  unfold updated_context, stored_topics, stored_count. rewrite H1. simpl.
  repeat split. rewrite dedup_first_app. f_equal.
  apply list_filter_iff. intros t. by rewrite elem_of_dedup_first.
Qed.

Section sequences.

Implicit Types (h : Store) (es : list Update) (e : Update).

Lemma apply_updates_snoc h es e :
  apply_updates h (es ++ [e]) = apply_update (apply_updates h es) e.
Proof. unfold apply_updates. by rewrite foldl_app. Qed.

Lemma topics_seen_snoc userID es e :
  topics_seen userID (es ++ [e])
  = topics_seen userID es
    ++ (if String.eqb (upd_user e) userID
        then extractTopics (upd_iter e) (upd_message e) else []).
Proof.
  unfold topics_seen. rewrite flat_map_app. simpl. by rewrite app_nil_r.
Qed.

(** After any sequence of updates of the empty store, the topics stored
    for a user are the topics of that user's messages, deduplicated in
    first-seen order. *)
Lemma stored_topics_updates es userID :
  stored_topics (apply_updates ∅ es) userID
  = dedup_first (topics_seen userID es).
Proof.
  induction es as [|e es IH] using rev_ind; [done|].
  rewrite apply_updates_snoc, topics_seen_snoc. unfold apply_update.
  destruct (String.eqb_spec (upd_user e) userID) as [<-|Hne].
  - unfold stored_topics at 1. rewrite update_lookup. simpl.
    rewrite IH, dedup_first_app. f_equal.
    apply list_filter_iff. intros t. by rewrite elem_of_dedup_first.
  - unfold stored_topics at 1. rewrite update_lookup_ne by done.
    by rewrite app_nil_r.
Qed.

Lemma keyed_updates es : keyed (apply_updates ∅ es).
Proof.
  induction es as [|e es IH] using rev_ind.
  - intros u ctx. unfold apply_updates. simpl. by rewrite lookup_empty.
  - rewrite apply_updates_snoc. by apply update_keyed.
Qed.

End sequences.

(** C7. The topics of a stored context never hold a tag twice and keep
    the order of first appearance: after any sequence of updates the
    stored list is the list of topics seen for that user, deduplicated in
    first-seen order; every update keeps the topic lists of a store
    duplicate-free, and only appends to the list of the user it
    updates. *)
Theorem topics_invariant :
  (forall es userID ctx,
     apply_updates ∅ es !! userID = Some ctx ->
     NoDup (Topics ctx) /\
     Topics ctx = dedup_first (topics_seen userID es)) /\
  (forall h e, topics_distinct h -> topics_distinct (apply_update h e)) /\
  (forall h e ctx,
     h !! upd_user e = Some ctx ->
     exists ctx', apply_update h e !! upd_user e = Some ctx' /\
       Topics ctx `prefix_of` Topics ctx').
Proof.
  split; [|split].
  - intros es userID ctx Hlook.
    pose proof (stored_topics_updates es userID) as H.
    unfold stored_topics in H. rewrite Hlook in H. simpl in H.
    rewrite H. split; [apply NoDup_dedup_first | done].
  - intros h e. apply update_topics_distinct.
  - intros h e ctx Hlook. eexists. split; [apply update_lookup|].
    unfold updated_context, stored_topics. rewrite Hlook. simpl.
    by eexists.
Qed.

(** C10. A store update for a user changes the entry of that user only:
    every other entry is what it was, and the entry of the user keeps the
    user id it was created with, which is its key. *)
Theorem update_frame (now : Time) (iter : list (string * string))
    (userID message : string) (h : Store) :
  let h' := updateConversationContext now iter userID message h in
  (forall other, other ≠ userID -> h' !! other = h !! other) /\
  (exists ctx', h' !! userID = Some ctx' /\
     UserID ctx' = from_option UserID userID (h !! userID)) /\
  (keyed h -> keyed h' /\
     exists ctx', h' !! userID = Some ctx' /\ UserID ctx' = userID) /\
  (forall es, h = apply_updates ∅ es -> keyed h).
Proof.
  cbv zeta. split; [|split; [|split]].
  - intros other Hne. by apply update_lookup_ne.
  - eexists. split; [apply update_lookup | done].
  - intros Hk. split; [by apply update_keyed|].
    eexists. split; [apply update_lookup|]. simpl.
    destruct (h !! userID) as [ctx|] eqn:E; [by apply Hk | done].
  - intros es ->. apply keyed_updates.
Qed.

(** ** Prompt builder *)

Section prompt.

Implicit Types (ctx : ConversationContext) (message : string).

Lemma prompt_with_topics ctx message :
  0 < MessageCount ctx -> Topics ctx ≠ [] ->
  buildContextPrompt (Some ctx) message
  = (preamble +:+ turn_annotation (MessageCount ctx)
     +:+ topics_annotation (Topics ctx)) +:+ instruction +:+ message.
Proof.
  intros Hcount Htopics. unfold buildContextPrompt.
  apply Z.ltb_lt in Hcount. rewrite Hcount.
  destruct (Topics ctx) as [|topic topics]; [done|]. simpl length.
  by rewrite app_assoc'.
Qed.

Lemma prompt_without_topics ctx message :
  0 < MessageCount ctx -> Topics ctx = [] ->
  buildContextPrompt (Some ctx) message
  = (preamble +:+ turn_annotation (MessageCount ctx))
    +:+ instruction +:+ message.
Proof.
  intros Hcount Htopics. unfold buildContextPrompt.
  apply Z.ltb_lt in Hcount. by rewrite Hcount, Htopics.
Qed.

Lemma prompt_first_turn ctx message :
  MessageCount ctx <= 0 ->
  buildContextPrompt (Some ctx) message = preamble +:+ instruction +:+ message.
Proof.
  intros Hcount. unfold buildContextPrompt.
  apply Z.ltb_ge in Hcount. by rewrite Hcount.
Qed.

Lemma prompt_turn_annotation ctx message :
  0 < MessageCount ctx ->
  Substring (turn_annotation (MessageCount ctx))
    (buildContextPrompt (Some ctx) message).
Proof.
  intros Hcount. destruct (Topics ctx) as [|topic topics] eqn:E.
  - rewrite prompt_without_topics by done. rewrite app_assoc'.
    by exists preamble, (instruction +:+ message).
  - rewrite prompt_with_topics by (done || by rewrite E).
    rewrite !app_assoc'.
    by exists preamble,
         (topics_annotation (Topics ctx) +:+ instruction +:+ message).
Qed.

Lemma prompt_topics ctx message :
  0 < MessageCount ctx -> Topics ctx ≠ [] ->
  Substring (Join (Topics ctx) ", ") (buildContextPrompt (Some ctx) message).
Proof.
  intros Hcount Htopics. rewrite prompt_with_topics by done.
  unfold topics_annotation. rewrite !app_assoc'.
  exists (preamble +:+ turn_annotation (MessageCount ctx)
          +:+ "Previous topics discussed: "), (". " +:+ instruction +:+ message).
  by rewrite !app_assoc'.
Qed.

End prompt.


(** ** Request handlers *)

(** Runs the state-passing definitions of a handler. *)
Ltac run_handler :=
  unfold handleDirectMessage, handleIncomingMessage, handleTelexWebhook,
    handleUserJoined, generateAIResponse, callGroqAPI, sendTelexMessage,
    update_context, lookup_context, modify_history, time_Now, emit, JSON,
    bind, ret; cbn [fst snd conversationHistory trace ticks].

Section handlers.

Variable env : Env.
Implicit Types (w : World) (msg : TelexMessage) (req : DirectRequest).

Lemma handleDirectMessage_run req w :
  let userID := req_UserID req in
  let message := req_Message req in
  let prompt := prompt_for env userID message w in
  handleDirectMessage env (Ok req) w
  = (match groq_outcome (groq env prompt) with
     | Err e => {| StatusCode := StatusInternalServerError;
                   Body := ErrorBody e |}
     | Ok reply => {| StatusCode := StatusOK;
                      Body := AgentBody (answer message reply) |}
     end,
     {| conversationHistory := after_update env userID message w;
        trace := trace w ++ [GroqCall prompt];
        ticks := S (ticks w) |}).
Proof.
  cbv zeta. run_handler. fold (after_update env (req_UserID req) (req_Message req) w).
  fold (prompt_for env (req_UserID req) (req_Message req) w).
  by destruct (groq_outcome _).
Qed.

Lemma handleIncomingMessage_ignored msg w :
  msg_From msg = agentID env ->
  handleIncomingMessage env msg w
  = ({| StatusCode := StatusOK;
        Body := TelexBody {| tr_Status := "ignored"; tr_Message := "" |} |},
     w).
Proof.
  intros Hself. unfold handleIncomingMessage.
  by rewrite (proj2 (String.eqb_eq _ _) Hself).
Qed.

Lemma handleIncomingMessage_run msg w :
  msg_From msg ≠ agentID env ->
  let userID := msg_From msg in
  let message := msg_Content msg in
  let prompt := prompt_for env userID message w in
  let outcome := groq_outcome (groq env prompt) in
  let agentReply := reply_for message outcome in
  let out := outgoing env (clock env (S (ticks w))) userID (Reply agentReply) in
  handleIncomingMessage env msg w
  = match telex_outcome (telex env out) with
    | Err e =>
        ({| StatusCode := StatusInternalServerError;
            Body := TelexBody {| tr_Status := "error";
                                 tr_Message := "Failed to send response" |} |},
         {| conversationHistory := after_update env userID message w;
            trace := trace w ++ [GroqCall prompt] ++ generate_log outcome
                     ++ [TelexCall out; Logged (LogSendError e)];
            ticks := S (S (ticks w)) |})
    | Ok _ =>
        ({| StatusCode := StatusOK;
            Body := TelexBody {| tr_Status := "success";
                                 tr_Message := "Message processed" |} |},
         {| conversationHistory := after_update env userID message w;
            trace := trace w ++ [GroqCall prompt] ++ generate_log outcome
                     ++ [TelexCall out;
                         Logged (LogSentReply userID (Confidence agentReply))];
            ticks := S (S (ticks w)) |})
    end.
Proof.
  intros Hother. cbv zeta. unfold handleIncomingMessage.
  rewrite (proj2 (String.eqb_neq _ _) Hother). run_handler.
  fold (after_update env (msg_From msg) (msg_Content msg) w).
  fold (prompt_for env (msg_From msg) (msg_Content msg) w).
  destruct (groq_outcome _) as [reply|e]; run_handler;
    cbn [reply_for generate_log fallback answer Reply Confidence];
    destruct (telex_outcome _); cbn [conversationHistory trace ticks];
    by rewrite <- !app_assoc.
Qed.

End handlers.

(** *** Rejected webhook requests *)

Section webhook.

Variable env : Env.
Implicit Types (w : World) (authHeader : string).

Lemma webhook_unauthorized authHeader bound w :
  authHeader ≠ "Bearer " +:+ telexAPIKey env ->
  handleTelexWebhook env authHeader bound w
  = (unauthorized, logged LogUnauthorized w).
Proof.
  intros Hauth. unfold handleTelexWebhook.
  by rewrite (proj2 (String.eqb_neq _ _) Hauth).
Qed.

Lemma webhook_invalid_payload authHeader e w :
  authHeader = "Bearer " +:+ telexAPIKey env ->
  handleTelexWebhook env authHeader (Err e) w
  = (invalid_payload, logged (LogParseError e) w).
Proof.
  intros Hauth. unfold handleTelexWebhook.
  by rewrite (proj2 (String.eqb_eq _ _) Hauth).
Qed.

(** An authorized message event is handed to [handleIncomingMessage]. *)
Lemma webhook_message_event authHeader webhook w :
  authHeader = "Bearer " +:+ telexAPIKey env ->
  wh_Event webhook = "message.received" \/ wh_Event webhook = "message" ->
  handleTelexWebhook env authHeader (Ok webhook) w
  = handleIncomingMessage env (wh_Message webhook)
      (logged (LogReceived (wh_Event webhook)
                           (msg_From (wh_Message webhook))) w).
Proof.
  intros Hauth Hevent. unfold handleTelexWebhook.
  rewrite (proj2 (String.eqb_eq _ _) Hauth).
  by destruct Hevent as [-> | ->].
Qed.

Lemma prompts_logged line w : prompts (trace (logged line w)) = prompts (trace w).
Proof. simpl. unfold prompts. rewrite omap_app. simpl. by rewrite app_nil_r. Qed.

Lemma relayed_logged line w : relayed (trace (logged line w)) = relayed (trace w).
Proof. simpl. unfold relayed. rewrite omap_app. simpl. by rewrite app_nil_r. Qed.

End webhook.

(** C9. A webhook request whose [Authorization] header is not the
    expected bearer secret is answered with 401, and an authorized one
    whose body does not parse with 400; in both cases nothing else
    happens: the conversation store is what it was, and neither the
    completion API nor the relay is called. *)
Theorem webhook_rejected_before_processing (env : Env) (authHeader : string)
    (bound : result TelexWebhook) (w : World) :
  let expected := "Bearer " +:+ telexAPIKey env in
  let resp := (handleTelexWebhook env authHeader bound w).1 in
  let w' := (handleTelexWebhook env authHeader bound w).2 in
  (authHeader ≠ expected ->
     resp = unauthorized /\ StatusCode resp = 401 /\
     conversationHistory w' = conversationHistory w /\
     prompts (trace w') = prompts (trace w) /\
     relayed (trace w') = relayed (trace w)) /\
  (authHeader = expected -> (exists e, bound = Err e) ->
     resp = invalid_payload /\ StatusCode resp = 400 /\
     conversationHistory w' = conversationHistory w /\
     prompts (trace w') = prompts (trace w) /\
     relayed (trace w') = relayed (trace w)).
Proof.
  cbv zeta. split.
  - intros Hauth. rewrite webhook_unauthorized by done.
    cbn [fst snd]. by rewrite prompts_logged, relayed_logged.
  - intros Hauth [e ->]. rewrite webhook_invalid_payload by done.
    cbn [fst snd]. by rewrite prompts_logged, relayed_logged.
Qed.

(** *** The prompt is built from the updated context *)

Section prompt_order.

Variable env : Env.
Implicit Types (w : World).

Lemma updated_context_topics now iter userID message h topic :
  topic ∈ extractTopics iter message ->
  topic ∈ Topics (updated_context now iter userID message h).
Proof.
  intros Hin. simpl. rewrite elem_of_app, list_elem_of_filter.
  rewrite elem_of_dedup_first.
  destruct (decide (topic ∈ stored_topics h userID)); naive_solver.
Qed.

Lemma int_incr_small (n : Z) :
  0 <= n < 2 ^ 63 - 1 -> int_incr n = n + 1.
Proof. intros H. apply int_wrap_small. lia. Qed.

Lemma prompt_after_update_intro userID message w w' effects :
  conversationHistory w' = after_update env userID message w ->
  trace w' = trace w ++ [GroqCall (prompt_for env userID message w)] ++ effects ->
  prompts effects = [] ->
  prompt_after_update env userID message w w'.
Proof.
  intros Hstore Htrace Heffects.
  exists (updated_context (clock env (ticks w)) (range_order env) userID
            message (conversationHistory w)),
         (prompt_for env userID message w).
  assert (Hlook : after_update env userID message w !! userID
                  = Some (updated_context (clock env (ticks w))
                            (range_order env) userID message
                            (conversationHistory w)))
    by apply update_lookup.
  split; [by rewrite Hstore|]. split; [done|].
  split; [intros topic; apply updated_context_topics|].
  split.
  { rewrite Htrace. unfold prompts. rewrite !omap_app.
    fold (prompts effects). rewrite Heffects. by rewrite app_nil_r. }
  split; [unfold prompt_for; by rewrite Hlook|].
  split.
  - intros Hpos. unfold prompt_for. rewrite Hlook. split.
    + by apply prompt_turn_annotation.
    + intros Htopics. by apply prompt_topics.
  - intros Hrange. cbn [MessageCount updated_context].
    rewrite int_incr_small by done. lia.
Qed.

End prompt_order.

(** C6. Both message handlers build the prompt after the store update
    for the current message: the prompt sent to the completion API is
    built from the updated context, so the turn count it reports is the
    incremented [MessageCount] and its topic list already holds the
    topics extracted from the current message. *)
Theorem prompt_built_from_updated_context (env : Env) (w : World) :
  (forall req,
     prompt_after_update env (req_UserID req) (req_Message req) w
       (handleDirectMessage env (Ok req) w).2) /\
  (forall msg,
     msg_From msg ≠ agentID env ->
     prompt_after_update env (msg_From msg) (msg_Content msg) w
       (handleIncomingMessage env msg w).2).
Proof.
  split.
  - intros req. rewrite handleDirectMessage_run. cbn [snd].
    by apply (prompt_after_update_intro _ _ _ _ _ []).
  - intros msg Hother. rewrite handleIncomingMessage_run by done.
    destruct (telex_outcome _); cbn [snd];
      eapply prompt_after_update_intro; try done;
      by destruct (groq_outcome _).
Qed.

(** *** Completion failures *)

(** The completion call fails when the HTTP exchange fails, when the
    status is not 200, when the body does not decode, and when no choice
    is returned. *)
Lemma groq_outcome_failures :
  (forall e, groq_outcome (GroqDoError e) = Err e) /\
  (forall e, groq_outcome (GroqReadError e) = Err e) /\
  (forall code body choices, code ≠ 200 ->
     groq_outcome (GroqResponse code body choices)
     = Err ("groq API error: " +:+ body)) /\
  (forall body e, groq_outcome (GroqResponse 200 body (Err e)) = Err e) /\
  (forall body, groq_outcome (GroqResponse 200 body (Ok []))
                = Err "empty response from Groq").
Proof.
  repeat split; try done.
  intros code body choices Hcode. simpl.
  by rewrite (proj2 (Z.eqb_neq code StatusOK) Hcode).
Qed.

Section completion_failure.

Variable env : Env.
Implicit Types (w : World) (msg : TelexMessage).

Lemma incoming_completion_failure msg w e :
  msg_From msg ≠ agentID env ->
  groq_outcome (groq env (prompt_for env (msg_From msg) (msg_Content msg) w))
  = Err e ->
  fallback_relayed env (msg_From msg) w
    (handleIncomingMessage env msg w).2 (handleIncomingMessage env msg w).1.
Proof.
  intros Hother Hfail. unfold fallback_relayed. cbv zeta.
  rewrite handleIncomingMessage_run by done. rewrite Hfail.
  cbn [reply_for fallback Reply Confidence generate_log].
  split; [|split].
  - destruct (telex_outcome _); cbn [snd trace]; unfold relayed;
      by rewrite !omap_app.
  - intros ->. cbn [fst snd trace]. split; [done|]. by rewrite last_app.
  - by intros e' ->.
Qed.

Lemma fallback_relayed_logged userID line w w' resp :
  fallback_relayed env userID (logged line w) w' resp ->
  fallback_relayed env userID w w' resp.
Proof.
  unfold fallback_relayed. cbv zeta. by rewrite relayed_logged.
Qed.

End completion_failure.

(** C1, as the code has it.  When the completion call fails, the webhook
    message handler substitutes the fixed apology with confidence 0.0 and
    relays it to the sender; the failure itself raises no HTTP error: the
    webhook caller gets 200 when the relay succeeds, and 500 only when
    the relay fails.  The direct-message handler does not substitute
    anything: it answers 500 with the error of the completion call. *)
Theorem completion_failure_handling (env : Env) (w : World) (e : string) :
  (forall msg,
     msg_From msg ≠ agentID env ->
     groq_outcome (groq env (prompt_for env (msg_From msg) (msg_Content msg) w))
     = Err e ->
     fallback_relayed env (msg_From msg) w
       (handleIncomingMessage env msg w).2
       (handleIncomingMessage env msg w).1) /\
  (forall authHeader webhook,
     let msg := wh_Message webhook in
     authHeader = "Bearer " +:+ telexAPIKey env ->
     wh_Event webhook = "message.received" \/ wh_Event webhook = "message" ->
     msg_From msg ≠ agentID env ->
     groq_outcome (groq env (prompt_for env (msg_From msg) (msg_Content msg) w))
     = Err e ->
     fallback_relayed env (msg_From msg) w
       (handleTelexWebhook env authHeader (Ok webhook) w).2
       (handleTelexWebhook env authHeader (Ok webhook) w).1) /\
  (Reply fallback = apology /\ Confidence fallback = 0.0%Q) /\
  (forall req,
     groq_outcome (groq env (prompt_for env (req_UserID req) (req_Message req) w))
     = Err e ->
     (handleDirectMessage env (Ok req) w).1
     = {| StatusCode := StatusInternalServerError; Body := ErrorBody e |}).
Proof.
  split; [|split; [|split; [done|]]].
  - intros msg. apply incoming_completion_failure.
  - intros authHeader webhook msg Hauth Hevent Hother Hfail.
    rewrite webhook_message_event by done.
    eapply fallback_relayed_logged.
    apply (incoming_completion_failure env _ _ e); [done | exact Hfail].
  - intros req Hfail. rewrite handleDirectMessage_run. cbn [fst].
    by rewrite Hfail.
Qed.

(** * Further properties of the program *)

(** ** Extractors *)

Section list_facts.

Lemma last_elem_of {A} (l : list A) (x : A) : last l = Some x -> x ∈ l.
Proof. intros (l' & ->)%last_Some. set_solver. Qed.

Lemma elem_of_List_filter {A} (f : A -> bool) (l : list A) (x : A) :
  x ∈ List.filter f l <-> x ∈ l /\ f x = true.
Proof. rewrite !list_elem_of_In. apply filter_In. Qed.

End list_facts.

(** X1. The three extractors ignore the case of ASCII letters: two
    messages that differ only in the case of the letters A to Z have the
    same intent, the same entities and the same topics. *)
Theorem extractors_case_insensitive (iter : list (string * string))
    (message message' : string) :
  lower_ascii message = lower_ascii message' ->
  extractIntent message = extractIntent message' /\
  extractEntities message = extractEntities message' /\
  extractTopics iter message = extractTopics iter message'.
Proof.
  intros H%ToLower_same_ascii.
  unfold extractIntent, extractEntities, extractTopics. by rewrite H.
Qed.

(** X2. Every entry of the entity map is a field of the lowercased
    message: it is not empty and holds no white-space rune, and it starts
    with "@" under the key "mention" and with "#" under the key
    "hashtag". *)
Theorem extractEntities_values (message key value : string) :
  extractEntities message !! key = Some value ->
  value ∈ Fields (ToLower message) /\
  is_field value /\
  (key = "mention" /\ HasPrefix value "@" = true \/
   key = "hashtag" /\ HasPrefix value "#" = true).
Proof.
  unfold extractEntities. intros Hlook.
  assert (Hword : value ∈ Fields (ToLower message) /\
                  (key = "mention" /\ HasPrefix value "@" = true \/
                   key = "hashtag" /\ HasPrefix value "#" = true)).
  { destruct (decide (key = "mention")) as [->|Hm].
    - rewrite entities_loop_mention in Hlook.
      apply last_elem_of, elem_of_List_filter in Hlook. naive_solver.
    - destruct (decide (key = "hashtag")) as [->|Hh].
      + rewrite entities_loop_hashtag in Hlook.
        apply last_elem_of, elem_of_List_filter in Hlook. naive_solver.
      + by rewrite entities_loop_other in Hlook. }
  destruct Hword as [Hin Hkey]. split; [done|]. split; [|done].
  pose proof (Fields_is_field (ToLower message)) as Hfields.
  by apply (proj1 (Forall_forall _ _) Hfields).
Qed.

Section topic_membership.

Implicit Types (iter : list (string * string)) (message tag : string).

Lemma keywords_tags : Forall (fun entry => entry.2 ∈ topic_tags) keywords.
Proof. unfold keywords, topic_tags. repeat constructor; set_solver. Qed.

Lemma elem_of_matched lower iter keyword tag :
  (keyword, tag) ∈ matched lower iter
  <-> (keyword, tag) ∈ iter /\ Contains lower keyword = true.
Proof. unfold matched. by rewrite elem_of_List_filter. Qed.

Lemma elem_of_extractTopics iter message tag :
  tag ∈ extractTopics iter message
  <-> exists keyword, (keyword, tag) ∈ iter /\
        Substring keyword (ToLower message).
Proof.
  rewrite extractTopics_matched, list_elem_of_fmap. split.
  - intros ([keyword tag'] & -> & Hin). exists keyword.
    apply elem_of_matched in Hin. by rewrite <- Contains_spec.
  - intros (keyword & Hin & Hsub). exists (keyword, tag). split; [done|].
    apply elem_of_matched. by rewrite Contains_spec.
Qed.

Lemma extractTopics_length iter message :
  (length (extractTopics iter message) <= length iter)%nat.
Proof.
  rewrite extractTopics_matched, length_fmap. unfold matched.
  induction iter as [|entry iter IH]; simpl; [done|].
  destruct (Contains _ _); simpl; lia.
Qed.

Lemma extractTopics_tags iter message tag :
  iteration_order iter -> tag ∈ extractTopics iter message ->
  tag ∈ topic_tags.
Proof.
  intros Hiter (keyword & Hin & _)%elem_of_extractTopics.
  unfold iteration_order in Hiter. rewrite Hiter in Hin.
  by apply (proj1 (Forall_forall _ _) keywords_tags (keyword, tag)).
Qed.

End topic_membership.

(** X3. Whatever the iteration order of the keyword map, a tag is
    returned by [extractTopics] exactly when one of its keywords occurs
    in the lowercased message; the result holds at most six tags, all
    among [programming], [weather], [support] and [tutorial], and it is
    empty exactly when no keyword occurs. *)
Theorem extractTopics_membership (iter : list (string * string))
    (message : string) :
  iteration_order iter ->
  (forall tag,
     tag ∈ extractTopics iter message
     <-> exists keyword, (keyword, tag) ∈ keywords /\
           Substring keyword (ToLower message)) /\
  (length (extractTopics iter message) <= 6)%nat /\
  (forall tag, tag ∈ extractTopics iter message -> tag ∈ topic_tags) /\
  (extractTopics iter message = []
   <-> forall keyword tag, (keyword, tag) ∈ keywords ->
         ~ Substring keyword (ToLower message)).
Proof.
  intros Hiter. pose proof Hiter as Hperm.
  unfold iteration_order in Hperm.
  assert (Hmem : forall tag,
             tag ∈ extractTopics iter message
             <-> exists keyword, (keyword, tag) ∈ keywords /\
                   Substring keyword (ToLower message)).
  { intros tag. rewrite elem_of_extractTopics.
    split; intros (keyword & Hin & Hsub); exists keyword;
      (split; [|done]); [by rewrite <- Hperm | by rewrite Hperm]. }
  split; [exact Hmem|]. split; [|split].
  - pose proof (extractTopics_length iter message) as Hlen.
    rewrite (Permutation_length Hperm) in Hlen. exact Hlen.
  - intros tag. by apply extractTopics_tags.
  - split.
    + intros Hnil keyword tag Hin Hsub.
      assert (Htag : tag ∈ extractTopics iter message)
        by (apply Hmem; by exists keyword).
      rewrite Hnil in Htag. by apply elem_of_nil in Htag.
    + intros Hnone. destruct (extractTopics iter message) as [|tag l] eqn:E;
        [done|].
      assert (Htag : tag ∈ tag :: l) by apply list_elem_of_here.
      apply Hmem in Htag as (keyword & Hin & Hsub).
      by destruct (Hnone keyword tag).
Qed.

(** X4. The keyword "help" serves both extractors: the topic [support]
    is returned exactly when "help" occurs in the lowercased message, and
    every message with that topic has the intent [help_request]. *)
Theorem support_topic_is_help_request (iter : list (string * string))
    (message : string) :
  iteration_order iter ->
  ("support" ∈ extractTopics iter message
   <-> Substring "help" (ToLower message)) /\
  ("support" ∈ extractTopics iter message ->
   extractIntent message = "help_request").
Proof.
  intros Hiter. unfold iteration_order in Hiter.
  assert (Hiff : "support" ∈ extractTopics iter message
                 <-> Substring "help" (ToLower message)).
  { rewrite elem_of_extractTopics. split.
    - intros (keyword & Hin & Hsub). rewrite Hiter in Hin.
      unfold keywords in Hin. rewrite !elem_of_cons, elem_of_nil in Hin.
      repeat destruct Hin as [Hin|Hin]; by simplify_eq.
    - intros Hsub. exists "help". split; [|done].
      rewrite Hiter. unfold keywords. set_solver. }
  split; [exact Hiff|].
  intros Hin. apply intent_help. left. by apply Hiff.
Qed.

(** ** Conversation store *)

(** X5. [contains] is the membership test of a slice: it answers [true]
    exactly for the items of the slice. *)
Theorem contains_membership (slice : list string) (item : string) :
  (contains slice item = true <-> item ∈ slice) /\
  (contains slice item = false <-> item ∉ slice).
Proof.
  rewrite contains_decide. split.
  - apply bool_decide_eq_true.
  - apply bool_decide_eq_false.
Qed.

Section store_growth.

Implicit Types (h : Store) (es : list Update) (e : Update).
Implicit Types (userID message : string).

Lemma filter_none (P : string -> Prop) `{!forall t, Decision (P t)}
    (tags : list string) :
  Forall (fun t => ~ P t) tags -> filter P tags = [].
Proof.
  induction 1 as [|t tags Ht _ IH]; [done|].
  by rewrite filter_cons_False.
Qed.

Lemma stored_topics_update now iter userID message h :
  stored_topics (updateConversationContext now iter userID message h) userID
  = stored_topics h userID
    ++ filter (fun t => t ∉ stored_topics h userID)
         (dedup_first (extractTopics iter message)).
Proof. unfold stored_topics at 1. by rewrite update_lookup. Qed.

Lemma stored_topics_update_known now iter userID message h :
  (forall topic, topic ∈ extractTopics iter message ->
     topic ∈ stored_topics h userID) ->
  stored_topics (updateConversationContext now iter userID message h) userID
  = stored_topics h userID.
Proof.
  intros Hknown. rewrite stored_topics_update, filter_none.
  - by rewrite app_nil_r.
  - apply Forall_forall. intros t Ht Hnew.
    apply (proj1 (elem_of_dedup_first _ _)) in Ht. by apply Hnew, Hknown.
Qed.

Lemma stored_count_update now iter userID message h :
  stored_count (updateConversationContext now iter userID message h) userID
  = int_incr (stored_count h userID).
Proof. unfold stored_count at 1. by rewrite update_lookup. Qed.

Lemma updates_of_snoc userID es e :
  updates_of userID (es ++ [e])
  = if String.eqb (upd_user e) userID then updates_of userID es ++ [e]
    else updates_of userID es.
Proof.
  exact (filter_snoc (fun e' => String.eqb (upd_user e') userID) es e).
Qed.

Lemma updates_of_length userID es :
  (length (updates_of userID es) <= length es)%nat.
Proof.
  unfold updates_of. induction es as [|e es IH]; simpl; [done|].
  destruct (String.eqb _ _); simpl; lia.
Qed.

Lemma stored_count_updates es userID :
  stored_count (apply_updates ∅ es) userID
  = int_wrap (Z.of_nat (length (updates_of userID es))).
Proof.
  induction es as [|e es IH] using rev_ind; [done|].
  rewrite apply_updates_snoc, updates_of_snoc. unfold apply_update.
  destruct (String.eqb_spec (upd_user e) userID) as [<-|Hne].
  - rewrite stored_count_update, IH, int_incr_wrap, length_app. simpl.
    f_equal. lia.
  - unfold stored_count at 1. by rewrite update_lookup_ne.
Qed.

Lemma lookup_updates_None es userID :
  apply_updates ∅ es !! userID = None <-> updates_of userID es = [].
Proof.
  induction es as [|e es IH] using rev_ind.
  - unfold apply_updates. simpl. by rewrite lookup_empty.
  - rewrite apply_updates_snoc, updates_of_snoc. unfold apply_update.
    destruct (String.eqb_spec (upd_user e) userID) as [<-|Hne].
    + rewrite update_lookup. split; [done|].
      intros H. by apply app_nil in H as [_ ?].
    + by rewrite update_lookup_ne.
Qed.

Lemma lookup_updates_last es userID ctx :
  apply_updates ∅ es !! userID = Some ctx ->
  exists e, last (updates_of userID es) = Some e /\
    LastMessage ctx = upd_message e /\ Timestamp ctx = upd_now e.
Proof.
  induction es as [|e es IH] using rev_ind.
  - unfold apply_updates. simpl. by rewrite lookup_empty.
  - rewrite apply_updates_snoc, updates_of_snoc. unfold apply_update.
    destruct (String.eqb_spec (upd_user e) userID) as [<-|Hne].
    + rewrite update_lookup. intros [= <-]. exists e.
      by rewrite last_snoc.
    + by rewrite update_lookup_ne.
Qed.

Lemma elem_of_topics_seen userID es topic :
  topic ∈ topics_seen userID es ->
  exists e, e ∈ es /\ topic ∈ extractTopics (upd_iter e) (upd_message e).
Proof.
  unfold topics_seen. rewrite list_elem_of_In. intros H.
  apply in_flat_map in H as (e & He & Ht). exists e.
  rewrite !list_elem_of_In. split; [done|].
  by destruct (String.eqb _ _).
Qed.

End store_growth.

(** X6. A message that brings no new topic leaves the topic list of its
    user as it is.  In particular the same message sent twice in a row
    changes the list at most once, whatever the two iteration orders,
    and a message without any keyword never changes it. *)
Theorem update_without_new_topic (h : Store) (userID message : string)
    (now1 now2 : Time) (iter1 iter2 : list (string * string)) :
  let h1 := updateConversationContext now1 iter1 userID message h in
  let h2 := updateConversationContext now2 iter2 userID message h1 in
  (iter1 ≡ₚ iter2 -> stored_topics h2 userID = stored_topics h1 userID) /\
  (extractTopics iter1 message = [] ->
   stored_topics h1 userID = stored_topics h userID) /\
  ((forall topic, topic ∈ extractTopics iter1 message ->
      topic ∈ stored_topics h userID) ->
   stored_topics h1 userID = stored_topics h userID).
Proof.
  cbv zeta. split; [|split].
  - intros Hperm. apply stored_topics_update_known. intros topic Hin.
    apply elem_of_extractTopics in Hin as (keyword & Hin & Hsub).
    rewrite <- Hperm in Hin.
    unfold stored_topics. rewrite update_lookup. cbn [from_option].
    apply updated_context_topics, elem_of_extractTopics. by exists keyword.
  - intros Hnone. apply stored_topics_update_known. rewrite Hnone.
    by intros topic ?%elem_of_nil.
  - apply stored_topics_update_known.
Qed.

(** X7. As long as every update iterates the keyword map in a legal
    order, a stored topic list holds only tags of the keyword table, so
    it never grows beyond four entries. *)
Theorem stored_topics_bounded (es : list Update) (userID : string)
    (ctx : ConversationContext) :
  legal_updates es ->
  apply_updates ∅ es !! userID = Some ctx ->
  (forall topic, topic ∈ Topics ctx -> topic ∈ topic_tags) /\
  (length (Topics ctx) <= 4)%nat.
Proof.
  intros Hlegal Hlook.
  pose proof (stored_topics_updates es userID) as Htopics.
  unfold stored_topics in Htopics. rewrite Hlook in Htopics.
  simpl in Htopics.
  assert (Htags : forall topic, topic ∈ Topics ctx -> topic ∈ topic_tags).
  { intros topic. rewrite Htopics, elem_of_dedup_first.
    intros (e & He & Hin)%elem_of_topics_seen.
    eapply extractTopics_tags; [|exact Hin].
    by apply (proj1 (Forall_forall _ _) Hlegal). }
  split; [exact Htags|].
  change 4%nat with (length topic_tags).
  apply submseteq_length, NoDup_submseteq; [|exact Htags].
  rewrite Htopics. apply NoDup_dedup_first.
Qed.

(** X8. After any sequence of updates of the empty store, a user has a
    context exactly when one of the updates was for that user; the
    context then carries the user id, the message and the clock reading
    of the user's latest update, and its [MessageCount] is the number of
    the user's updates (as a 64-bit integer, so the number itself below
    2^63). *)
Theorem context_after_updates (es : list Update) (userID : string) :
  (apply_updates ∅ es !! userID = None <-> updates_of userID es = []) /\
  (forall ctx,
     apply_updates ∅ es !! userID = Some ctx ->
     UserID ctx = userID /\
     MessageCount ctx = int_wrap (Z.of_nat (length (updates_of userID es))) /\
     (Z.of_nat (length (updates_of userID es)) < 2 ^ 63 ->
      MessageCount ctx = Z.of_nat (length (updates_of userID es))) /\
     exists e, last (updates_of userID es) = Some e /\
       LastMessage ctx = upd_message e /\ Timestamp ctx = upd_now e).
Proof.
  split; [apply lookup_updates_None|].
  intros ctx Hlook.
  pose proof (stored_count_updates es userID) as Hcount.
  unfold stored_count in Hcount. rewrite Hlook in Hcount. simpl in Hcount.
  split; [by apply (keyed_updates es)|]. split; [exact Hcount|].
  split; [|by apply lookup_updates_last].
  intros Hsmall. rewrite Hcount. apply int_wrap_small. lia.
Qed.

(** X9. An update never removes a context: it adds the user to the
    store when the user is new and otherwise keeps the set of users; the
    number of conversations grows by one in the first case and stays the
    same in the second. *)
Theorem update_domain (now : Time) (iter : list (string * string))
    (userID message : string) (h : Store) :
  let h' := updateConversationContext now iter userID message h in
  dom h' = {[userID]} ∪ dom h /\
  (forall other, is_Some (h !! other) -> is_Some (h' !! other)) /\
  (h !! userID = None -> size h' = S (size h)) /\
  (is_Some (h !! userID) -> size h' = size h).
Proof.
  cbv zeta. rewrite update_insert. split; [apply dom_insert_L|].
  split; [|split].
  - intros other Hsome. destruct (decide (other = userID)) as [->|Hne].
    + rewrite lookup_insert_eq. by eexists.
    + by rewrite lookup_insert_ne.
  - intros Hnew. by apply map_size_insert_None.
  - intros [ctx Hold]. by apply map_size_insert_Some.
Qed.

(** ** Prompt builder *)

(** X10. Every prompt is the preamble, then the annotations, then the
    instruction and the message itself, unchanged, at the end.  A
    context whose count is not positive adds no annotation, even when it
    holds topics; a positive count without topics adds the turn
    annotation alone. *)
Theorem buildContextPrompt_shape (ctx : option ConversationContext)
    (message : string) :
  (exists annotations,
     buildContextPrompt ctx message
     = preamble +:+ annotations +:+ instruction +:+ message) /\
  (forall c, ctx = Some c -> MessageCount c <= 0 ->
     buildContextPrompt ctx message = preamble +:+ instruction +:+ message) /\
  (forall c, ctx = Some c -> 0 < MessageCount c -> Topics c = [] ->
     buildContextPrompt ctx message
     = preamble +:+ turn_annotation (MessageCount c)
       +:+ instruction +:+ message).
Proof.
  split; [|split].
  - destruct ctx as [c|]; [|by exists ""].
    destruct (Z.lt_ge_cases 0 (MessageCount c)) as [Hpos|Hneg].
    + destruct (Topics c) as [|topic topics] eqn:E.
      * rewrite prompt_without_topics by done.
        exists (turn_annotation (MessageCount c)). by rewrite !app_assoc'.
      * rewrite prompt_with_topics by (done || by rewrite E).
        exists (turn_annotation (MessageCount c)
                +:+ topics_annotation (Topics c)).
        by rewrite !app_assoc'.
    + rewrite prompt_first_turn by done. by exists "".
  - intros c -> Hneg. by apply prompt_first_turn.
  - intros c -> Hpos Hnone. rewrite prompt_without_topics by done.
    by rewrite app_assoc'.
Qed.

(** ** Clients of the external services *)

(** X11. [callGroqAPI] returns a reply exactly when the exchange ends in
    a response with status 200 whose body decodes to at least one
    choice, and the reply is the content of the first choice.  It issues
    one request, with the prompt it was given, and leaves the store
    alone. *)
Theorem callGroqAPI_success (env : Env) (prompt : string) (w : World) :
  (forall reply,
     (callGroqAPI env prompt w).1 = Ok reply
     <-> exists body rest,
           groq env prompt = GroqResponse 200 body (Ok (reply :: rest))) /\
  conversationHistory (callGroqAPI env prompt w).2 = conversationHistory w /\
  trace (callGroqAPI env prompt w).2 = trace w ++ [GroqCall prompt].
Proof.
  split; [|done]. intros reply. unfold callGroqAPI, bind, emit, ret.
  cbn [fst]. unfold groq_outcome. split.
  - destruct (groq env prompt) as [e|e|code body choices]; try done.
    destruct (Z.eqb_spec code StatusOK) as [->|Hcode]; [|done]. simpl.
    destruct choices as [[|content rest]|e]; try done.
    intros [= ->]. by exists body, rest.
  - by intros (body & rest & ->).
Qed.

(** X12. [sendTelexMessage] succeeds exactly when the relay answers with
    status 200 or 201.  It issues one request, for a text message from
    the agent to the given user with the given content, and leaves the
    store alone. *)
Theorem sendTelexMessage_success (env : Env) (toUserID content : string)
    (w : World) :
  let msg := outgoing env (clock env (ticks w)) toUserID content in
  let run := sendTelexMessage env toUserID content w in
  (run.1 = Ok tt
   <-> exists code body, telex env msg = TelexReply code body /\
         (code = 200 \/ code = 201)) /\
  conversationHistory run.2 = conversationHistory w /\
  trace run.2 = trace w ++ [TelexCall msg] /\
  msg_From msg = agentID env /\ msg_To msg = toUserID /\
  msg_Content msg = content /\ msg_Type msg = "text".
Proof.
  cbv zeta. split; [|done].
  unfold sendTelexMessage, bind, time_Now, emit, ret. cbn [fst].
  unfold telex_outcome. split.
  - destruct (telex env _) as [e|code body]; [done|].
    destruct (Z.eqb_spec code StatusOK) as [->|H200].
    + intros _. exists 200, body. by split; [|left].
    + destruct (Z.eqb_spec code StatusCreated) as [->|H201]; [|done].
      intros _. exists 201, body. by split; [|right].
  - by intros (code & body & -> & [-> | ->]).
Qed.

(** ** Request handlers *)

Section dispatch.

Variable env : Env.
Implicit Types (w : World) (webhook : TelexWebhook) (user : TelexUser).

Lemma handleUserJoined_run user w :
  let out := outgoing env (clock env (ticks w)) (user_ID user)
               (welcome (user_Name user)) in
  handleUserJoined env user w
  = match telex_outcome (telex env out) with
    | Ok _ =>
        ({| StatusCode := StatusOK;
            Body := TelexBody {| tr_Status := "success"; tr_Message := "" |} |},
         {| conversationHistory := conversationHistory w;
            trace := trace w ++ [TelexCall out];
            ticks := S (ticks w) |})
    | Err e =>
        ({| StatusCode := StatusInternalServerError;
            Body := TelexBody {| tr_Status := "error";
                                 tr_Message := "Failed to send welcome message" |} |},
         {| conversationHistory := conversationHistory w;
            trace := trace w ++ [TelexCall out; Logged (LogWelcomeError e)];
            ticks := S (ticks w) |})
    end.
Proof.
  cbv zeta. run_handler.
  destruct (telex_outcome _); cbn [conversationHistory trace ticks];
    by rewrite <- ?app_assoc.
Qed.

Lemma only_logged_refl w : only_logged w w.
Proof. done. Qed.

Lemma only_logged_logged line w : only_logged w (logged line w).
Proof.
  split; [done|]. by rewrite prompts_logged, relayed_logged.
Qed.

Lemma only_logged_trans w1 w2 w3 :
  only_logged w1 w2 -> only_logged w2 w3 -> only_logged w1 w3.
Proof.
  intros (H1 & H2 & H3) (H4 & H5 & H6). unfold only_logged. split; [|split].
  - by rewrite H4.
  - by rewrite H5.
  - by rewrite H6.
Qed.

Lemma webhook_user_joined authHeader webhook w :
  authHeader = "Bearer " +:+ telexAPIKey env ->
  wh_Event webhook = "user.joined" ->
  handleTelexWebhook env authHeader (Ok webhook) w
  = handleUserJoined env (wh_User webhook)
      (logged (LogReceived (wh_Event webhook)
                           (msg_From (wh_Message webhook))) w).
Proof.
  intros Hauth Hevent. unfold handleTelexWebhook.
  rewrite (proj2 (String.eqb_eq _ _) Hauth). by rewrite Hevent.
Qed.

Lemma webhook_other_event authHeader webhook w :
  authHeader = "Bearer " +:+ telexAPIKey env ->
  ~ message_event (wh_Event webhook) ->
  wh_Event webhook ≠ "user.joined" ->
  (handleTelexWebhook env authHeader (Ok webhook) w).1 = acknowledged /\
  only_logged w (handleTelexWebhook env authHeader (Ok webhook) w).2.
Proof.
  intros Hauth Hmessage Hjoined. unfold handleTelexWebhook.
  rewrite (proj2 (String.eqb_eq _ _) Hauth). unfold message_event in Hmessage.
  rewrite (proj2 (String.eqb_neq _ "message.received")) by tauto.
  rewrite (proj2 (String.eqb_neq _ "message")) by tauto.
  rewrite (proj2 (String.eqb_neq _ "user.joined")) by done.
  destruct (String.eqb _ "user.typing"); (split; [done|]).
  - exact (only_logged_logged _ w).
  - exact (only_logged_trans _ _ _ (only_logged_logged _ w)
             (only_logged_logged (LogUnknownEvent (wh_Event webhook)) _)).
Qed.

Lemma message_event_dec event :
  message_event event \/ ~ message_event event.
Proof.
  unfold message_event.
  destruct (decide (event = "message.received"));
    destruct (decide (event = "message")); tauto.
Qed.

End dispatch.

Section handler_effects.

Variable env : Env.
Implicit Types (w : World) (msg : TelexMessage) (user : TelexUser).

Lemma relayed_app (l1 l2 : list Effect) :
  relayed (l1 ++ l2) = relayed l1 ++ relayed l2.
Proof. apply omap_app. Qed.

Lemma relayed_generate_log outcome : relayed (generate_log outcome) = [].
Proof. by destruct outcome. Qed.

(** The reply relayed for a message, and the message that carries it. *)
Lemma incoming_summary msg w :
  msg_From msg ≠ agentID env ->
  let run := handleIncomingMessage env msg w in
  let outcome :=
    groq_outcome (groq env (prompt_for env (msg_From msg) (msg_Content msg) w)) in
  let out := outgoing env (clock env (S (ticks w))) (msg_From msg)
               (Reply (reply_for (msg_Content msg) outcome)) in
  conversationHistory run.2
  = after_update env (msg_From msg) (msg_Content msg) w /\
  relayed (trace run.2) = relayed (trace w) ++ [out] /\
  match telex_outcome (telex env out) with
  | Ok _ => run.1 = message_processed
  | Err _ => run.1 = failed_to_send
  end.
Proof.
  intros Hother. cbv zeta. rewrite handleIncomingMessage_run by done.
  destruct (telex_outcome _); cbn [fst snd conversationHistory trace];
    rewrite !relayed_app, relayed_generate_log; done.
Qed.

Lemma joined_summary user w :
  let run := handleUserJoined env user w in
  let out := outgoing env (clock env (ticks w)) (user_ID user)
               (welcome (user_Name user)) in
  conversationHistory run.2 = conversationHistory w /\
  prompts (trace run.2) = prompts (trace w) /\
  relayed (trace run.2) = relayed (trace w) ++ [out] /\
  match telex_outcome (telex env out) with
  | Ok _ => StatusCode run.1 = 200
  | Err _ => StatusCode run.1 = 500
  end.
Proof.
  cbv zeta. rewrite handleUserJoined_run.
  destruct (telex_outcome _); cbn [fst snd conversationHistory trace];
    unfold prompts; rewrite relayed_app, omap_app; simpl;
    by rewrite app_nil_r.
Qed.

End handler_effects.

(** X13. A message from anyone but the agent is always recorded and
    answered: whatever the completion call and the relay come to, the
    store holds the updated context of the sender and exactly one
    message is relayed, from the agent to the sender (never to the agent
    itself); when the completion call succeeds its first choice is the
    content.  The HTTP answer depends on the relay alone: "Message
    processed" when it succeeds, "Failed to send response" when it
    fails. *)
Theorem incoming_message_effects (env : Env) (msg : TelexMessage) (w : World) :
  msg_From msg ≠ agentID env ->
  let run := handleIncomingMessage env msg w in
  let outcome :=
    groq_outcome (groq env (prompt_for env (msg_From msg) (msg_Content msg) w)) in
  exists out,
    relayed (trace run.2) = relayed (trace w) ++ [out] /\
    conversationHistory run.2
    = updateConversationContext (clock env (ticks w)) (range_order env)
        (msg_From msg) (msg_Content msg) (conversationHistory w) /\
    msg_From out = agentID env /\ msg_To out = msg_From msg /\
    msg_To out ≠ agentID env /\
    (forall reply, outcome = Ok reply -> msg_Content out = reply) /\
    (run.1 = message_processed <-> telex_outcome (telex env out) = Ok tt) /\
    (run.1 = failed_to_send <-> exists e, telex_outcome (telex env out) = Err e).
Proof.
  intros Hother. cbv zeta.
  destruct (incoming_summary env msg w Hother) as (Hstore & Hrelayed & Hresp).
  eexists. split; [exact Hrelayed|]. split; [exact Hstore|].
  split; [done|]. split; [done|]. split; [done|]. split.
  - by intros reply ->.
  - assert (Hne : message_processed ≠ failed_to_send) by discriminate.
    destruct (telex_outcome _) as [[]|e]; rewrite Hresp; split; split;
      first [ done | by eexists | by intros [? [=]] | by intros [=]
            | by intros ?%Hne | by intros ?%eq_sym%Hne ].
Qed.

(** X14. A message event whose sender is the agent itself is answered
    200 "ignored" and has no other effect: no context is created or
    changed and neither service is called. *)
Theorem own_messages_ignored (env : Env) (authHeader : string)
    (webhook : TelexWebhook) (w : World) :
  authHeader = "Bearer " +:+ telexAPIKey env ->
  message_event (wh_Event webhook) ->
  msg_From (wh_Message webhook) = agentID env ->
  (handleTelexWebhook env authHeader (Ok webhook) w).1 = ignored /\
  only_logged w (handleTelexWebhook env authHeader (Ok webhook) w).2.
Proof.
  intros Hauth Hevent Hself.
  rewrite webhook_message_event by done.
  rewrite handleIncomingMessage_ignored by done.
  split; [done | apply only_logged_logged].
Qed.

(** X15. [handleUserJoined] sends one welcome message, which names the
    user, to the user's id, without touching the store or calling the
    completion API; it answers 200 when the relay succeeds and 500 when
    it fails. *)
Theorem user_joined_effects (env : Env) (user : TelexUser) (w : World) :
  let run := handleUserJoined env user w in
  exists out,
    relayed (trace run.2) = relayed (trace w) ++ [out] /\
    msg_To out = user_ID user /\ msg_From out = agentID env /\
    Substring (user_Name user) (msg_Content out) /\
    conversationHistory run.2 = conversationHistory w /\
    prompts (trace run.2) = prompts (trace w) /\
    (StatusCode run.1 = 200 <-> telex_outcome (telex env out) = Ok tt) /\
    (StatusCode run.1 = 500 <-> exists e, telex_outcome (telex env out) = Err e).
Proof.
  cbv zeta.
  destruct (joined_summary env user w) as (Hstore & Hprompts & Hrelayed & Hresp).
  eexists. split; [exact Hrelayed|]. split; [done|]. split; [done|].
  split; [apply Substring_app_mid|]. split; [exact Hstore|].
  split; [exact Hprompts|].
  destruct (telex_outcome _) as [[]|e]; rewrite Hresp; split; split;
    first [ done | by eexists | by intros [? [=]] | by intros [=] ].
Qed.

(** X16. An authorized webhook whose event is neither a message event
    nor "user.joined" (a typing event, or any event the agent does not
    know) is answered 200 "acknowledged" and has no effect beyond the
    log. *)
Theorem other_events_acknowledged (env : Env) (authHeader : string)
    (webhook : TelexWebhook) (w : World) :
  authHeader = "Bearer " +:+ telexAPIKey env ->
  ~ message_event (wh_Event webhook) ->
  wh_Event webhook ≠ "user.joined" ->
  (handleTelexWebhook env authHeader (Ok webhook) w).1 = acknowledged /\
  only_logged w (handleTelexWebhook env authHeader (Ok webhook) w).2.
Proof. apply webhook_other_event. Qed.

(** X17. The direct-message handler rejects a request that does not
    bind with 400 and the binding error, and does nothing else.  A bound
    request always updates the context of its user and never calls the
    relay; when the completion call succeeds the answer is 200 with the
    first choice as reply, the intent and the entities of the message
    and the confidence 0.90. *)
Theorem direct_message_effects (env : Env) (bound : result DirectRequest)
    (w : World) :
  let run := handleDirectMessage env bound w in
  (forall e, bound = Err e ->
     run.1 = {| StatusCode := 400; Body := ErrorBody e |} /\ run.2 = w) /\
  (forall req, bound = Ok req ->
     conversationHistory run.2
     = updateConversationContext (clock env (ticks w)) (range_order env)
         (req_UserID req) (req_Message req) (conversationHistory w) /\
     (forall reply,
        groq_outcome (groq env (prompt_for env (req_UserID req)
                                  (req_Message req) w)) = Ok reply ->
        run.1 = {| StatusCode := 200;
                   Body := AgentBody
                     {| Reply := reply;
                        Intent := extractIntent (req_Message req);
                        Entities := extractEntities (req_Message req);
                        Confidence := 0.90 |} |})) /\
  relayed (trace run.2) = relayed (trace w).
Proof.
  cbv zeta. split; [|split].
  - by intros e ->.
  - intros req ->. rewrite handleDirectMessage_run. cbn [fst snd].
    split; [done|]. by intros reply ->.
  - destruct bound as [req|e]; [|done].
    rewrite handleDirectMessage_run. cbn [snd trace].
    rewrite relayed_app. simpl. by rewrite app_nil_r.
Qed.

Section webhook_status.

Variable env : Env.
Implicit Types (w : World) (webhook : TelexWebhook).

(** What an authorized, well-formed webhook request comes to: 200, or
    500 after a relay that failed. *)
Lemma webhook_accepted authHeader webhook w :
  authHeader = "Bearer " +:+ telexAPIKey env ->
  let run := handleTelexWebhook env authHeader (Ok webhook) w in
  StatusCode run.1 = 200 \/
  StatusCode run.1 = 500 /\
  exists out e, relayed (trace run.2) = relayed (trace w) ++ [out] /\
    telex_outcome (telex env out) = Err e.
Proof.
  intros Hauth. cbv zeta.
  destruct (message_event_dec (wh_Event webhook)) as [Hmsg|Hmsg].
  - rewrite webhook_message_event by done.
    destruct (decide (msg_From (wh_Message webhook) = agentID env))
      as [Hself|Hother].
    + rewrite handleIncomingMessage_ignored by done. by left.
    + destruct (incoming_summary env (wh_Message webhook)
                  (logged (LogReceived (wh_Event webhook)
                             (msg_From (wh_Message webhook))) w) Hother)
        as (_ & Hrelayed & Hresp).
      rewrite relayed_logged in Hrelayed.
      destruct (telex_outcome _) as [[]|e] eqn:E; rewrite Hresp;
        [by left | right].
      split; [done|]. by eexists _, e.
  - destruct (decide (wh_Event webhook = "user.joined")) as [Hjoin|Hjoin].
    + rewrite webhook_user_joined by done.
      destruct (joined_summary env (wh_User webhook)
                  (logged (LogReceived (wh_Event webhook)
                             (msg_From (wh_Message webhook))) w))
        as (_ & _ & Hrelayed & Hresp).
      rewrite relayed_logged in Hrelayed.
      destruct (telex_outcome _) as [[]|e] eqn:E; [by left | right].
      split; [done|]. by eexists _, e.
    + destruct (webhook_other_event env authHeader webhook w Hauth Hmsg Hjoin)
        as [-> _]. by left.
Qed.

(** The store after a webhook request: unchanged, or updated for the
    sender of the message. *)
Lemma webhook_store authHeader bound w :
  let run := handleTelexWebhook env authHeader bound w in
  conversationHistory run.2 = conversationHistory w \/
  exists webhook, bound = Ok webhook /\
    conversationHistory run.2
    = updateConversationContext (clock env (ticks w)) (range_order env)
        (msg_From (wh_Message webhook)) (msg_Content (wh_Message webhook))
        (conversationHistory w).
Proof.
  cbv zeta.
  destruct (decide (authHeader = "Bearer " +:+ telexAPIKey env))
    as [Hauth|Hauth]; [|left; by rewrite webhook_unauthorized].
  destruct bound as [webhook|e]; [|left; by rewrite webhook_invalid_payload].
  destruct (message_event_dec (wh_Event webhook)) as [Hmsg|Hmsg].
  - rewrite webhook_message_event by done.
    destruct (decide (msg_From (wh_Message webhook) = agentID env))
      as [Hself|Hother].
    + left. by rewrite handleIncomingMessage_ignored.
    + right. exists webhook. split; [done|].
      by destruct (incoming_summary env (wh_Message webhook)
                     (logged (LogReceived (wh_Event webhook)
                                (msg_From (wh_Message webhook))) w) Hother)
        as (-> & _).
  - left. destruct (decide (wh_Event webhook = "user.joined")) as [Hjoin|Hjoin].
    + rewrite webhook_user_joined by done.
      by destruct (joined_summary env (wh_User webhook)
                     (logged (LogReceived (wh_Event webhook)
                                (msg_From (wh_Message webhook))) w))
        as (-> & _).
    + by destruct (webhook_other_event env authHeader webhook w Hauth Hmsg
                     Hjoin) as (_ & -> & _).
Qed.

End webhook_status.

(** X18. The status of a webhook answer tells what happened: it is 401
    exactly when the [Authorization] header is not the expected one, 400
    exactly when the header is right and the body does not parse, and
    otherwise 200 or 500; it is 500 only after a relay request that
    failed. *)
Theorem webhook_status (env : Env) (authHeader : string)
    (bound : result TelexWebhook) (w : World) :
  let run := handleTelexWebhook env authHeader bound w in
  let expected := "Bearer " +:+ telexAPIKey env in
  (StatusCode run.1 = 401 <-> authHeader ≠ expected) /\
  (StatusCode run.1 = 400 <-> authHeader = expected /\ exists e, bound = Err e) /\
  StatusCode run.1 ∈ [200; 400; 401; 500] /\
  (StatusCode run.1 = 500 ->
   exists out e, relayed (trace run.2) = relayed (trace w) ++ [out] /\
     telex_outcome (telex env out) = Err e).
Proof.
  cbv zeta.
  destruct (decide (authHeader = "Bearer " +:+ telexAPIKey env))
    as [Hauth|Hauth].
  - destruct bound as [webhook|e].
    + destruct (webhook_accepted env authHeader webhook w Hauth)
        as [H200 | [H500 Hrelay]].
      * rewrite H200. split; [done|]. split; [|split; [set_solver|done]].
        split; [done|]. by intros [_ [e [=]]].
      * rewrite H500. split; [done|]. split; [|split; [set_solver|done]].
        split; [done|]. by intros [_ [e [=]]].
    + rewrite webhook_invalid_payload by done. cbn [fst snd StatusCode
        invalid_payload]. split; [done|]. split; [|split; [set_solver|done]].
      split; [|done]. intros _. split; [done | by exists e].
  - rewrite webhook_unauthorized by done.
    cbn [fst snd StatusCode unauthorized].
    split; [done|]. split; [|split; [set_solver|done]].
    split; [done | by intros [? _]].
Qed.

(** X19. A webhook request touches the context of one user at most, the
    sender of its message: the context of every other user, and of
    every user when the body does not parse, is what it was. *)
Theorem webhook_frame (env : Env) (authHeader : string)
    (bound : result TelexWebhook) (w : World) (userID : string) :
  (forall webhook, bound = Ok webhook ->
     msg_From (wh_Message webhook) ≠ userID) ->
  conversationHistory (handleTelexWebhook env authHeader bound w).2 !! userID
  = conversationHistory w !! userID.
Proof.
  intros Hother.
  destruct (webhook_store env authHeader bound w)
    as [-> | (webhook & Hbound & ->)]; [done|].
  apply update_lookup_ne. intros ->. by apply (Hother webhook).
Qed.

(** ** Read-only endpoints *)

Section metrics.

Implicit Types (h : Store) (es : list Update).
Implicit Types (visited : list (string * ConversationContext)).

Lemma int_wrap_add a b : int_wrap (int_wrap a + b) = int_wrap (a + b).
Proof.
  unfold int_wrap. f_equal.
  replace ((a + 2 ^ 63) mod 2 ^ 64 - 2 ^ 63 + b + 2 ^ 63)
    with ((a + 2 ^ 63) mod 2 ^ 64 + b) by lia.
  rewrite Zplus_mod_idemp_l. f_equal. lia.
Qed.

(** The sum of the counts of the visited contexts. *)
Lemma sum_counts_from acc visited :
  foldl (fun totalMessages entry =>
           int_wrap (totalMessages + MessageCount entry.2))
    (int_wrap acc) visited
  = int_wrap (acc + foldr (fun entry total => MessageCount entry.2 + total)
                      0 visited).
Proof.
  revert acc. induction visited as [|entry visited IH]; intros acc; simpl.
  - by rewrite Z.add_0_r.
  - rewrite int_wrap_add, IH. f_equal. lia.
Qed.

Lemma count_sum_Permutation visited1 visited2 :
  visited1 ≡ₚ visited2 ->
  foldr (fun entry total => MessageCount entry.2 + total) 0 visited1
  = foldr (fun entry total => MessageCount entry.2 + total) 0 visited2.
Proof.
  induction 1 as [|x l1 l2 _ IH|x y l|l1 l2 l3 _ IH1 _ IH2]; simpl;
    [done | by rewrite IH | lia | by rewrite IH1].
Qed.

Lemma sum_counts_total visit h :
  visit_order visit -> sum_counts (visit h) = int_wrap (total_count h).
Proof.
  intros Hvisit. unfold sum_counts, total_count.
  change 0 with (int_wrap 0) at 1. rewrite sum_counts_from.
  by rewrite (count_sum_Permutation _ _ (Hvisit h)).
Qed.

Lemma total_count_insert_None h userID ctx :
  h !! userID = None ->
  total_count (<[userID := ctx]> h) = MessageCount ctx + total_count h.
Proof.
  intros Hnew. unfold total_count.
  by rewrite (count_sum_Permutation _ _ (map_to_list_insert h userID ctx Hnew)).
Qed.

Lemma total_count_insert h userID ctx :
  total_count (<[userID := ctx]> h)
  = MessageCount ctx + total_count h - stored_count h userID.
Proof.
  unfold stored_count. destruct (h !! userID) as [old|] eqn:E; simpl.
  - rewrite <- (insert_delete_eq h).
    rewrite <- (insert_delete_id h userID old E) at 2.
    rewrite !total_count_insert_None by apply lookup_delete_eq. lia.
  - rewrite total_count_insert_None by done. lia.
Qed.

Lemma total_count_updates es :
  Z.of_nat (length es) < 2 ^ 63 ->
  total_count (apply_updates ∅ es) = Z.of_nat (length es).
Proof.
  induction es as [|e es IH] using rev_ind; intros Hlen.
  - unfold apply_updates, total_count. simpl. by rewrite map_to_list_empty.
  - rewrite length_app in Hlen. simpl in Hlen.
    rewrite apply_updates_snoc. unfold apply_update.
    rewrite update_insert, total_count_insert. cbn [MessageCount updated_context].
    rewrite IH by lia. rewrite stored_count_updates.
    pose proof (updates_of_length (upd_user e) es) as Hle.
    rewrite int_wrap_small by lia. rewrite int_incr_small by lia.
    rewrite length_app. simpl. lia.
Qed.

Lemma dom_updates es : dom (apply_updates ∅ es) = users_of es.
Proof.
  unfold users_of. induction es as [|e es IH] using rev_ind.
  - unfold apply_updates. simpl. apply dom_empty_L.
  - rewrite apply_updates_snoc. unfold apply_update.
    rewrite update_insert, dom_insert_L, IH, fmap_app, list_to_set_app_L.
    simpl. set_solver.
Qed.

End metrics.

(** X20. [getConversationHistory] only reads: it answers 404 "No
    conversation found" exactly when the store has no context for the
    user, and otherwise 200 with the five fields of the stored context;
    the store and the effects are what they were. *)
Theorem conversation_lookup (userID : string) (w : World) :
  let run := getConversationHistory userID w in
  run.2 = w /\
  (info_Status run.1 = 404 <-> conversationHistory w !! userID = None) /\
  (conversationHistory w !! userID = None ->
   run.1 = {| info_Status := 404;
              info_Body := NotFoundBody "No conversation found" |}) /\
  (forall ctx, conversationHistory w !! userID = Some ctx ->
     run.1 = {| info_Status := 200;
                info_Body := HistoryBody (UserID ctx) (MessageCount ctx)
                               (Topics ctx) (LastMessage ctx)
                               (Timestamp ctx) |}).
Proof.
  cbv zeta. unfold getConversationHistory, lookup_context, bind, ret.
  destruct (conversationHistory w !! userID) as [ctx|]; cbn [fst snd].
  - split; [done|]. split; [done|]. split; [done|]. by intros ? [= <-].
  - done.
Qed.

(** X21. A direct message can be read back at once: after
    [handleDirectMessage] has handled a bound request, whatever the
    completion call came to, the lookup of its user answers 200 with the
    message as last message, the incremented count and the clock reading
    of the update. *)
Theorem direct_message_then_lookup (env : Env) (req : DirectRequest)
    (w : World) :
  let w' := (handleDirectMessage env (Ok req) w).2 in
  exists topics,
    (getConversationHistory (req_UserID req) w').1
    = {| info_Status := 200;
         info_Body :=
           HistoryBody
             (from_option UserID (req_UserID req)
                (conversationHistory w !! req_UserID req))
             (int_incr (stored_count (conversationHistory w) (req_UserID req)))
             topics (req_Message req) (clock env (ticks w)) |} /\
    (forall topic, topic ∈ extractTopics (range_order env) (req_Message req) ->
       topic ∈ topics).
Proof.
  cbv zeta. rewrite handleDirectMessage_run. cbn [snd].
  unfold getConversationHistory, lookup_context, bind, ret.
  cbn [fst conversationHistory]. unfold after_update.
  rewrite update_lookup. eexists. split; [reflexivity|].
  intros topic. apply updated_context_topics.
Qed.

(** X22. [getMetrics] reports the number of stored contexts, twice, and
    the sum of their message counts as a 64-bit integer; the sum does not
    depend on the order in which the map is visited, and the store is
    left as it was. *)
Theorem metrics_report (env : Env)
    (visit : Store -> list (string * ConversationContext)) (w : World) :
  visit_order visit ->
  let run := getMetrics env visit w in
  let conversations := Z.of_nat (size (conversationHistory w)) in
  run.1 = {| info_Status := 200;
             info_Body :=
               MetricsBody conversations
                 (int_wrap (total_count (conversationHistory w)))
                 conversations "Groq (FREE)" "Llama 3.3 70B"
                 (clock env (ticks w)) |} /\
  conversationHistory run.2 = conversationHistory w /\
  trace run.2 = trace w.
Proof.
  intros Hvisit. cbv zeta. unfold getMetrics, bind, time_Now, ret.
  cbn [fst snd]. by rewrite sum_counts_total.
Qed.

(** X23. The metrics count what was handled: after any sequence of
    fewer than 2^63 updates of the empty store, the sum of the message
    counts is the number of updates, and the number of contexts is the
    number of distinct users among them. *)
Theorem metrics_after_updates (es : list Update) :
  Z.of_nat (length es) < 2 ^ 63 ->
  let h := apply_updates ∅ es in
  total_count h = Z.of_nat (length es) /\
  int_wrap (total_count h) = Z.of_nat (length es) /\
  size h = size (users_of es).
Proof.
  intros Hlen. cbv zeta. rewrite total_count_updates by done.
  split; [done|]. split; [apply int_wrap_small; lia|].
  by rewrite <- dom_updates, size_dom.
Qed.

(** ** Start-up *)

(** X24. [main] gives up, with "Missing required API keys in
    environment", exactly when the completion key or the relay key is
    not set.  Otherwise it runs with the two keys as set and with no
    empty setting: the base URL, the agent id and the port are the ones
    of the environment when set, and "https://api.telex.im/v1",
    "ai-agent-001" and "8080" when not. *)
Theorem main_config_defaults (Getenv : string -> string) :
  (main_config Getenv = Err "Missing required API keys in environment"
   <-> Getenv "GROQ_API_KEY" = "" \/ Getenv "TELEX_API_KEY" = "") /\
  (forall cfg, main_config Getenv = Ok cfg ->
     cfg_groqAPIKey cfg = Getenv "GROQ_API_KEY" /\
     cfg_telexAPIKey cfg = Getenv "TELEX_API_KEY" /\
     cfg_groqAPIKey cfg ≠ "" /\ cfg_telexAPIKey cfg ≠ "" /\
     cfg_telexBaseURL cfg ≠ "" /\ cfg_agentID cfg ≠ "" /\
     cfg_addr cfg ≠ ":" /\
     (cfg_telexBaseURL cfg = Getenv "TELEX_BASE_URL" \/
      Getenv "TELEX_BASE_URL" = "" /\
      cfg_telexBaseURL cfg = "https://api.telex.im/v1") /\
     (cfg_agentID cfg = Getenv "AGENT_ID" \/
      Getenv "AGENT_ID" = "" /\ cfg_agentID cfg = "ai-agent-001") /\
     (cfg_addr cfg = ":" +:+ Getenv "PORT" \/
      Getenv "PORT" = "" /\ cfg_addr cfg = ":8080")).
Proof.
  unfold main_config.
  destruct (String.eqb_spec (Getenv "GROQ_API_KEY") "") as [Hg|Hg];
    [split; [by split; [left|] | done]|].
  destruct (String.eqb_spec (Getenv "TELEX_API_KEY") "") as [Ht|Ht];
    [split; [by split; [right|] | done]|].
  simpl. split; [split; [done | by intros [?|?]]|].
  intros cfg [= <-]. cbn [cfg_groqAPIKey cfg_telexAPIKey cfg_telexBaseURL
                          cfg_agentID cfg_addr].
  destruct (String.eqb_spec (Getenv "TELEX_BASE_URL") "") as [Hb|Hb];
    destruct (String.eqb_spec (Getenv "AGENT_ID") "") as [Ha|Ha];
    destruct (String.eqb_spec (Getenv "PORT") "") as [Hp|Hp];
    repeat (split; [first [done | by left | by right
                          | intros [= H]; by apply Hp]|]);
    first [by left | by right].
Qed.

(** ** Requests in sequence *)

Section runs.

Implicit Types (requests : list (Env * DirectRequest)) (w : World).

Lemma apply_updates_cons h e es :
  apply_updates h (e :: es) = apply_updates (apply_update h e) es.
Proof. done. Qed.

Lemma handle_all_store requests w :
  conversationHistory (handle_all requests w)
  = apply_updates (conversationHistory w) (updates_from (ticks w) requests) /\
  ticks (handle_all requests w) = (ticks w + length requests)%nat.
Proof.
  revert w. induction requests as [|[env req] requests IH]; intros w.
  - unfold handle_all. simpl. split; [done | lia].
  - unfold handle_all. cbn [foldl updates_from fst snd].
    fold (handle_all requests (handleDirectMessage env (Ok req) w).2).
    destruct (IH (handleDirectMessage env (Ok req) w).2) as [-> ->].
    rewrite handleDirectMessage_run. cbn [snd conversationHistory ticks].
    rewrite apply_updates_cons. split; [done|]. simpl. lia.
Qed.

Lemma updates_from_length start requests :
  length (updates_from start requests) = length requests.
Proof.
  revert start. induction requests as [|[env req] requests IH];
    intros start; simpl; [done | by rewrite IH].
Qed.

Lemma updates_from_users start requests :
  upd_user <$> updates_from start requests = (fun r => req_UserID r.2) <$> requests.
Proof.
  revert start. induction requests as [|[env req] requests IH];
    intros start; csimpl; [done | by rewrite IH].
Qed.

End runs.

(** X25. Direct messages add up: after a run of fewer than 2^63
    direct-message requests on a fresh store, served in any
    environments, the store is the one that the corresponding updates
    build, and [getMetrics] reports as many messages as there were
    requests and as many conversations as there were distinct users,
    whatever the answers of the completion API were. *)
Theorem metrics_after_direct_messages (requests : list (Env * DirectRequest))
    (env : Env) (visit : Store -> list (string * ConversationContext)) :
  visit_order visit ->
  Z.of_nat (length requests) < 2 ^ 63 ->
  let w := handle_all requests (initial ∅) in
  conversationHistory w = apply_updates ∅ (updates_from 0 requests) /\
  info_Body (getMetrics env visit w).1
  = MetricsBody
      (Z.of_nat (size (list_to_set ((fun r => req_UserID r.2) <$> requests)
                         : gset string)))
      (Z.of_nat (length requests))
      (Z.of_nat (size (list_to_set ((fun r => req_UserID r.2) <$> requests)
                         : gset string)))
      "Groq (FREE)" "Llama 3.3 70B" (clock env (length requests)).
Proof.
  intros Hvisit Hlen. cbv zeta.
  destruct (handle_all_store requests (initial ∅)) as [Hstore Hticks].
  split; [exact Hstore|].
  unfold getMetrics, bind, time_Now, ret. cbn [fst info_Body].
  rewrite sum_counts_total by done. rewrite Hstore, Hticks.
  cbn [initial ticks Nat.add].
  rewrite total_count_updates by (by rewrite updates_from_length).
  rewrite int_wrap_small by (rewrite updates_from_length; lia).
  rewrite <- size_dom, dom_updates. unfold users_of.
  by rewrite updates_from_users, updates_from_length.
Qed.

End program.

(** * The properties at concrete inputs

    The table [sample_lower] stands for the lower-case mapping. *)

Lemma extractIntent_priority_witness :
  Substring "help" "Can you help me?" /\
  Substring "?" "Can you help me?" /\
  extractIntent sample_lower "Can you help me?" = "help_request" /\
  Substring "HeLP" "Please HeLP" /\ lower_ascii "HeLP" = "help" /\
  extractIntent sample_lower "Please HeLP" = "help_request" /\
  sample_lower 0x212A = 0x6B /\
  extractIntent sample_lower ("THAN" +:+ utf8.EncodeRune 0x212A +:+ " you")
  = "gratitude" /\
  sample_lower 0x130 = 0x69 /\
  extractIntent sample_lower ("ASS" +:+ utf8.EncodeRune 0x130 +:+ "ST?")
  = "help_request".
Proof.
  assert (Hh : Substring "help" "Can you help me?")
    by (by exists "Can you ", " me?").
  assert (Hq : Substring "?" "Can you help me?")
    by (by exists "Can you help me", "").
  assert (Hw : Substring "HeLP" "Please HeLP") by (by exists "Please ", "").
  assert (Hl : lower_ascii "HeLP" = "help") by reflexivity.
  assert (HK : sample_lower 0x212A = 0x6B) by reflexivity.
  assert (HI : sample_lower 0x130 = 0x69) by reflexivity.
  destruct (extractIntent_priority sample_lower "Can you help me?")
    as (_ & _ & _ & _ & _ & Hboth & _ & _ & _ & _ & _ & _ & _ & _ & _
        & Hkelvin & Hdotted).
  destruct (extractIntent_priority sample_lower "Please HeLP")
    as (_ & _ & _ & _ & _ & _ & _ & _ & _ & Hfold & _).
  split; [exact Hh|]. split; [exact Hq|]. split; [exact (Hboth Hh Hq)|].
  split; [exact Hw|]. split; [exact Hl|].
  split; [exact (Hfold "HeLP" Hw (or_introl Hl))|].
  split; [exact HK|]. split; [exact (Hkelvin HK)|].
  split; [exact HI | exact (Hdotted HI)].
Defined.

Lemma extractEntities_last_wins_witness :
  "timestamp" ≠ "mention" /\ "timestamp" ≠ "hashtag" /\
  extractEntities sample_lower "ping #Ops @Ann and #dev" !! "timestamp" = None /\
  extractEntities sample_lower "ping #Ops @Ann and #dev" !! "hashtag"
  = Some "#dev" /\
  is_field "@ann" /\ unicode.IsSpace 0x2003 = true /\
  Fields ("@ann" +:+ utf8.EncodeRune 0x2003 +:+ "#ops") = ["@ann"; "#ops"] /\
  sample_lower 0xA0 = 0xA0 /\
  extractEntities sample_lower ("@a" +:+ utf8.EncodeRune 0xA0 +:+ "#b")
  = <["hashtag" := "#b"]> (<["mention" := "@a"]> ∅) /\
  sample_lower 0xC9 = 0xE9 /\
  extractEntities sample_lower ("@" +:+ utf8.EncodeRune 0xC9 +:+ "COLE")
    !! "mention"
  = Some ("@" +:+ utf8.EncodeRune 0xE9 +:+ "cole").
Proof.
  assert (Hm : "timestamp" ≠ "mention") by discriminate.
  assert (Hh : "timestamp" ≠ "hashtag") by discriminate.
  assert (Hann : is_field "@ann").
  { split; [discriminate|]. vm_compute. repeat constructor. }
  assert (Hsp : unicode.IsSpace 0x2003 = true) by reflexivity.
  assert (Hnbsp : sample_lower 0xA0 = 0xA0) by reflexivity.
  assert (HE : sample_lower 0xC9 = 0xE9) by reflexivity.
  destruct (extractEntities_last_wins sample_lower "ping #Ops @Ann and #dev")
    as (_ & Hhashtag & Hother & _ & _ & _ & _ & _ & Hcut & _ & _ & _
        & Hspace & Hcapital).
  split; [exact Hm|]. split; [exact Hh|].
  split; [exact (Hother "timestamp" Hm Hh)|].
  split; [rewrite Hhashtag; reflexivity|].
  split; [exact Hann|]. split; [exact Hsp|].
  split; [rewrite (Hcut "@ann" 0x2003 "#ops" Hann Hsp); reflexivity|].
  split; [exact Hnbsp|]. split; [exact (Hspace Hnbsp)|].
  split; [exact HE | exact (Hcapital HE)].
Defined.

Lemma extractTopics_one_entry_per_keyword_witness :
  iteration_order (reverse keywords) /\
  occurrences "programming" (extractTopics sample_lower (reverse keywords) "code python") = 2%nat.
Proof.
  assert (H : iteration_order (reverse keywords))
    by apply reverse_Permutation.
  split; [exact H|].
  exact (proj1 (extractTopics_one_entry_per_keyword sample_lower
                  (reverse keywords) "code python" "programming" H)).
Defined.

(** C2, as stated, fails: "code" and "python" both stand for
    "programming", which is returned twice. *)
Lemma extractTopics_duplicates :
  extractTopics sample_lower keywords "code python" = ["programming"; "programming"] /\
  ~ NoDup (extractTopics sample_lower keywords "code python").
Proof.
  split; [reflexivity|].
  intros H. apply (NoDup_occurrences "programming") in H.
  vm_compute in H. lia.
Qed.

Lemma update_new_user_twice_witness :
  let h1 := updateConversationContext sample_lower 10 keywords "alice" "some python code" ∅ in
  let h2 := updateConversationContext sample_lower 20 (reverse keywords) "alice"
              "how do I get help with go?" h1 in
  exists ctx2, h2 !! "alice" = Some ctx2 /\
    MessageCount ctx2 = 2 /\
    Topics ctx2 = ["programming"; "tutorial"; "support"].
Proof.
  destruct (update_new_user_twice sample_lower ∅ "alice" "some python code"
              "how do I get help with go?" 10 20 keywords (reverse keywords)
              (lookup_empty _)) as [_ (ctx2 & Hlook & _ & _ & Hcount & Htopics)].
  exists ctx2. split; [exact Hlook|]. split; [exact Hcount|].
  rewrite Htopics. reflexivity.
Defined.

Lemma topics_invariant_witness :
  let es := [ {| upd_now := 1; upd_iter := keywords; upd_user := "bob";
                 upd_message := "python code help" |};
              {| upd_now := 2; upd_iter := reverse keywords; upd_user := "bob";
                 upd_message := "how is the weather? help" |} ] in
  exists ctx, apply_updates sample_lower ∅ es !! "bob" = Some ctx /\
    NoDup (Topics ctx) /\
    Topics ctx = ["programming"; "support"; "tutorial"; "weather"].
Proof.
  intros es.
  assert (Hlook : is_Some (apply_updates sample_lower ∅ es !! "bob")).
  { unfold es, apply_updates. simpl. unfold apply_update at 1. simpl.
    rewrite update_lookup. by eexists. }
  destruct Hlook as [ctx Hlook]. exists ctx. split; [exact Hlook|].
  destruct (proj1 (topics_invariant sample_lower) es "bob" ctx Hlook) as [Hnodup Htopics].
  split; [exact Hnodup|]. rewrite Htopics. reflexivity.
Defined.

Lemma update_frame_witness :
  let h := updateConversationContext sample_lower 1 keywords "bob" "hello" ∅ in
  let h' := updateConversationContext sample_lower 2 keywords "alice" "code?" h in
  "bob" ≠ "alice" /\ h' !! "bob" = h !! "bob".
Proof.
  intros h h'.
  assert (Hne : "bob" ≠ "alice") by discriminate.
  split; [exact Hne|].
  exact (proj1 (update_frame sample_lower 2 keywords "alice" "code?" h) "bob" Hne).
Defined.


Lemma webhook_rejected_before_processing_witness :
  let wrong := handleTelexWebhook sample_lower env_up "Bearer wrong_key" (Err "EOF")
                 (initial (alice_store sample_lower)) in
  let malformed := handleTelexWebhook sample_lower env_up "Bearer test_key_123" (Err "EOF")
                     (initial (alice_store sample_lower)) in
  (StatusCode wrong.1 = 401 /\ conversationHistory wrong.2 = (alice_store sample_lower)) /\
  (StatusCode malformed.1 = 400 /\ conversationHistory malformed.2 = (alice_store sample_lower)).
Proof.
  intros wrong malformed.
  pose proof (webhook_rejected_before_processing sample_lower env_up "Bearer wrong_key"
                (Err "EOF") (initial (alice_store sample_lower))) as [H401 _].
  pose proof (webhook_rejected_before_processing sample_lower env_up "Bearer test_key_123"
                (Err "EOF") (initial (alice_store sample_lower))) as [_ H400].
  cbv zeta in H401, H400.
  destruct H401 as (_ & Hs1 & Hh1 & _); [discriminate|].
  destruct H400 as (_ & Hs2 & Hh2 & _); [reflexivity | by exists "EOF" |].
  split; split; assumption.
Defined.

Lemma prompt_built_from_updated_context_witness :
  let msg := {| msg_ID := "msg_1"; msg_From := "alice";
                msg_To := "ai-agent-001"; msg_Content := "how do I use go?";
                msg_Timestamp := 9; msg_Type := "text" |} in
  msg_From msg ≠ agentID env_up /\
  exists prompt,
    prompts (trace (handleIncomingMessage sample_lower env_up msg (initial (alice_store sample_lower))).2)
    = [prompt] /\
    Substring "This is message #2 in the conversation. " prompt /\
    Substring "programming, tutorial" prompt.
Proof.
  intros msg.
  assert (Hother : msg_From msg ≠ agentID env_up) by discriminate.
  split; [exact Hother|].
  destruct (proj2 (prompt_built_from_updated_context sample_lower env_up
                     (initial (alice_store sample_lower))) msg Hother)
    as (ctx' & prompt & Hlook & Hcount & _ & Hprompts & _ & Hsub & _).
  exists prompt. split; [exact Hprompts|].
  rewrite handleIncomingMessage_run in Hlook by exact Hother.
  cbn [snd telex_outcome telex env_up] in Hlook.
  vm_compute in Hlook. injection Hlook as <-.
  destruct (Hsub eq_refl) as [Hturn Htopics].
  split; [exact Hturn | apply Htopics; discriminate].
Defined.

Lemma completion_failure_handling_witness :
  let run := handleIncomingMessage sample_lower env_down hello_from_user (initial ∅) in
  run.1 = message_processed /\
  msg_Content <$> relayed (trace run.2) = [apology].
Proof.
  intros run.
  assert (Hother : msg_From hello_from_user ≠ agentID env_down)
    by discriminate.
  destruct (proj1 (completion_failure_handling sample_lower env_down (initial ∅)
                     "groq API error: upstream down")
              hello_from_user Hother eq_refl)
    as (Hrelayed & Hok & _).
  split; [exact (proj1 (Hok eq_refl))|].
  unfold run. rewrite Hrelayed. reflexivity.
Defined.

(** C1, as stated, fails on the direct-message endpoint: with the
    completion API answering 500, the caller gets status 500 with the
    error of the completion call, not the apology. *)
Lemma direct_message_surfaces_completion_failure :
  let req := {| req_UserID := "demo_user_001"; req_Message := "hello" |} in
  let resp := (handleDirectMessage sample_lower env_down (Ok req) (initial ∅)).1 in
  groq_outcome (groq env_down (prompt_for sample_lower env_down "demo_user_001" "hello"
                                 (initial ∅)))
  = Err "groq API error: upstream down" /\
  StatusCode resp = 500 /\
  Body resp = ErrorBody "groq API error: upstream down" /\
  Body resp ≠ AgentBody fallback.
Proof.
  cbv zeta. rewrite handleDirectMessage_run. cbn [fst].
  repeat split; try reflexivity. discriminate.
Qed.

Lemma extractors_case_insensitive_witness :
  lower_ascii "HELP @Ann #Go" = lower_ascii "help @aNN #gO" /\
  extractIntent sample_lower "HELP @Ann #Go" = extractIntent sample_lower "help @aNN #gO" /\
  extractEntities sample_lower "HELP @Ann #Go" = extractEntities sample_lower "help @aNN #gO".
Proof.
  assert (H : lower_ascii "HELP @Ann #Go" = lower_ascii "help @aNN #gO")
    by reflexivity.
  destruct (extractors_case_insensitive sample_lower keywords _ _ H) as (Hi & He & _).
  split; [exact H|]. split; [exact Hi | exact He].
Defined.

Lemma extractEntities_values_witness :
  extractEntities sample_lower "Ask @Bob now" !! "mention" = Some "@bob" /\
  "@bob" ∈ Fields (ToLower sample_lower "Ask @Bob now") /\ is_field "@bob".
Proof.
  assert (Hlook : extractEntities sample_lower "Ask @Bob now" !! "mention" = Some "@bob")
    by (vm_compute; reflexivity).
  split; [exact Hlook|].
  destruct (extractEntities_values sample_lower "Ask @Bob now" "mention" "@bob" Hlook)
    as (Hin & Hfield & _).
  split; [exact Hin | exact Hfield].
Defined.

Lemma extractTopics_membership_witness :
  iteration_order (reverse keywords) /\
  ("weather" ∈ extractTopics sample_lower (reverse keywords) "Cold WEATHER today"
   <-> exists keyword, (keyword, "weather") ∈ keywords /\
         Substring keyword (ToLower sample_lower "Cold WEATHER today")).
Proof.
  assert (H : iteration_order (reverse keywords)) by apply reverse_Permutation.
  split; [exact H|].
  exact (proj1 (extractTopics_membership sample_lower (reverse keywords)
                  "Cold WEATHER today" H) "weather").
Defined.

Lemma support_topic_is_help_request_witness :
  iteration_order keywords /\
  "support" ∈ extractTopics sample_lower keywords "HELP wanted" /\
  extractIntent sample_lower "HELP wanted" = "help_request".
Proof.
  assert (H : iteration_order keywords) by exact (Permutation_refl keywords).
  assert (Hin : "support" ∈ extractTopics sample_lower keywords "HELP wanted")
    by (vm_compute; apply list_elem_of_here).
  split; [exact H|]. split; [exact Hin|].
  exact (proj2 (support_topic_is_help_request sample_lower keywords "HELP wanted" H) Hin).
Defined.

Lemma update_without_new_topic_witness :
  let h1 := updateConversationContext sample_lower 1 keywords "carol" "go code" ∅ in
  let h2 := updateConversationContext sample_lower 2 (reverse keywords) "carol" "go code" h1 in
  keywords ≡ₚ reverse keywords /\
  stored_topics h2 "carol" = ["programming"].
Proof.
  intros h1 h2.
  assert (Hperm : keywords ≡ₚ reverse keywords)
    by exact (Permutation_sym (reverse_Permutation keywords)).
  split; [exact Hperm|].
  unfold h2, h1.
  rewrite (proj1 (update_without_new_topic sample_lower ∅ "carol" "go code" 1 2
                    keywords (reverse keywords)) Hperm).
  reflexivity.
Defined.

Lemma stored_topics_bounded_witness :
  let es := [ {| upd_now := 1; upd_iter := keywords; upd_user := "dan";
                 upd_message := "how to code in go with python? help" |};
              {| upd_now := 2; upd_iter := reverse keywords; upd_user := "dan";
                 upd_message := "weather help" |} ] in
  legal_updates es /\
  exists ctx, apply_updates sample_lower ∅ es !! "dan" = Some ctx /\
    (length (Topics ctx) <= 4)%nat.
Proof.
  intros es.
  assert (Hlegal : legal_updates es).
  { apply Forall_cons_2; [exact (Permutation_refl keywords)|].
    apply Forall_cons_2; [exact (reverse_Permutation keywords)|].
    apply Forall_nil_2. }
  split; [exact Hlegal|].
  assert (Hlook : is_Some (apply_updates sample_lower ∅ es !! "dan")).
  { unfold es, apply_updates. simpl. unfold apply_update at 1. simpl.
    rewrite update_lookup. by eexists. }
  destruct Hlook as [ctx Hlook]. exists ctx. split; [exact Hlook|].
  exact (proj2 (stored_topics_bounded sample_lower es "dan" ctx Hlegal Hlook)).
Defined.

Lemma context_after_updates_witness :
  let es := [ {| upd_now := 1; upd_iter := keywords; upd_user := "erin";
                 upd_message := "first" |};
              {| upd_now := 2; upd_iter := keywords; upd_user := "frank";
                 upd_message := "other" |};
              {| upd_now := 3; upd_iter := keywords; upd_user := "erin";
                 upd_message := "second" |} ] in
  exists ctx, apply_updates sample_lower ∅ es !! "erin" = Some ctx /\
    MessageCount ctx = 2 /\ LastMessage ctx = "second" /\ Timestamp ctx = 3.
Proof.
  intros es.
  assert (Hlook : is_Some (apply_updates sample_lower ∅ es !! "erin")).
  { unfold es, apply_updates. simpl. unfold apply_update at 1. simpl.
    rewrite update_lookup. by eexists. }
  destruct Hlook as [ctx Hlook]. exists ctx. split; [exact Hlook|].
  destruct (proj2 (context_after_updates sample_lower es "erin") ctx Hlook)
    as (_ & _ & Hcount & e & Hlast & Hmessage & Hstamp).
  split; [exact (Hcount eq_refl)|].
  injection Hlast as <-. split; [exact Hmessage | exact Hstamp].
Defined.

Lemma update_domain_witness :
  let h := updateConversationContext sample_lower 1 keywords "gina" "hello" ∅ in
  is_Some (h !! "gina") /\
  size (updateConversationContext sample_lower 2 keywords "gina" "again" h) = size h.
Proof.
  intros h.
  assert (Hsome : is_Some (h !! "gina"))
    by (unfold h; rewrite update_lookup; by eexists).
  split; [exact Hsome|].
  exact (proj2 (proj2 (proj2 (update_domain sample_lower 2 keywords "gina" "again" h)))
           Hsome).
Defined.

Lemma buildContextPrompt_shape_witness :
  let ctx := {| UserID := "u"; LastMessage := "x"; MessageCount := -1;
                Topics := ["weather"]; Timestamp := 0 |} in
  buildContextPrompt (Some ctx) "x" = preamble +:+ instruction +:+ "x".
Proof.
  intros ctx.
  apply (proj1 (proj2 (buildContextPrompt_shape (Some ctx) "x")) ctx eq_refl).
  simpl. lia.
Defined.

Lemma incoming_message_effects_witness :
  msg_From hello_from_user ≠ agentID env_up /\
  exists out,
    relayed (trace (handleIncomingMessage sample_lower env_up hello_from_user
                      (initial ∅)).2) = [out] /\
    msg_To out = "webhook_user_001" /\ msg_Content out = "Sure.".
Proof.
  assert (Hother : msg_From hello_from_user ≠ agentID env_up) by discriminate.
  split; [exact Hother|].
  destruct (incoming_message_effects sample_lower env_up hello_from_user (initial ∅) Hother)
    as (out & Hrelayed & _ & _ & Hto & _ & Hcontent & _).
  exists out. split; [exact Hrelayed|]. split; [exact Hto|].
  exact (Hcontent "Sure." eq_refl).
Defined.

Lemma own_messages_ignored_witness :
  conversationHistory
    (handleTelexWebhook sample_lower env_up "Bearer test_key_123" (Ok echo_of_agent)
       (initial (alice_store sample_lower))).2 = (alice_store sample_lower).
Proof.
  exact (proj1 (proj2 (own_messages_ignored sample_lower env_up "Bearer test_key_123"
                         echo_of_agent (initial (alice_store sample_lower))
                         eq_refl (or_intror eq_refl) eq_refl))).
Defined.

Lemma other_events_acknowledged_witness :
  (handleTelexWebhook sample_lower env_up "Bearer test_key_123" (Ok typing_event)
     (initial (alice_store sample_lower))).1 = acknowledged.
Proof.
  apply (other_events_acknowledged sample_lower env_up "Bearer test_key_123" typing_event
           (initial (alice_store sample_lower)) eq_refl).
  - intros [H|H]; discriminate H.
  - discriminate.
Defined.

Lemma direct_message_effects_witness :
  let req := {| req_UserID := "intent_test";
                req_Message := "THAN" +:+ utf8.EncodeRune 0x212A +:+ "S"
                               +:+ utf8.EncodeRune 0xA0 +:+ "@Ann" |} in
  exists body,
    (handleDirectMessage sample_lower env_up (Ok req) (initial ∅)).1
    = {| StatusCode := 200; Body := AgentBody body |} /\
    Reply body = "Sure." /\ Intent body = "gratitude" /\
    Entities body !! "mention" = Some "@ann".
Proof.
  intros req.
  destruct (direct_message_effects sample_lower env_up (Ok req) (initial ∅))
    as (_ & Hbound & _).
  destruct (Hbound req eq_refl) as [_ Hreply].
  eexists. split; [exact (Hreply "Sure." eq_refl)|].
  split; [reflexivity|]. split; [reflexivity|].
  vm_compute. reflexivity.
Defined.

Lemma webhook_frame_witness :
  let request :=
    {| wh_Event := "message"; wh_Message := hello_from_user;
       wh_User := {| user_ID := ""; user_Username := ""; user_Name := "" |} |} in
  conversationHistory
    (handleTelexWebhook sample_lower env_down "Bearer test_key_123" (Ok request)
       (initial (alice_store sample_lower))).2 !! "alice"
  = alice_store sample_lower !! "alice".
Proof.
  intros request.
  apply (webhook_frame sample_lower env_down "Bearer test_key_123" (Ok request)
           (initial (alice_store sample_lower)) "alice").
  intros webhook [= <-]. discriminate.
Defined.

Lemma metrics_report_witness :
  visit_order (fun h => reverse (map_to_list h)) /\
  info_Status (getMetrics env_up (fun h => reverse (map_to_list h))
                 (initial (alice_store sample_lower))).1 = 200.
Proof.
  assert (Hvisit : visit_order (fun h => reverse (map_to_list h)))
    by (intros h; apply reverse_Permutation).
  split; [exact Hvisit|].
  by rewrite (proj1 (metrics_report env_up _ (initial (alice_store sample_lower)) Hvisit)).
Defined.

Lemma metrics_after_updates_witness :
  let es := [ {| upd_now := 1; upd_iter := keywords; upd_user := "erin";
                 upd_message := "first" |};
              {| upd_now := 2; upd_iter := keywords; upd_user := "frank";
                 upd_message := "other" |};
              {| upd_now := 3; upd_iter := keywords; upd_user := "erin";
                 upd_message := "second" |} ] in
  total_count (apply_updates sample_lower ∅ es) = 3 /\
  size (apply_updates sample_lower ∅ es) = size (users_of es).
Proof.
  intros es.
  destruct (metrics_after_updates sample_lower es eq_refl) as (Htotal & _ & Hsize).
  split; [exact Htotal | exact Hsize].
Defined.

Lemma main_config_defaults_witness :
  let Getenv := fun name =>
    if String.eqb name "GROQ_API_KEY" then "gsk_1"
    else if String.eqb name "TELEX_API_KEY" then "test_key_123"
    else "" in
  exists cfg, main_config Getenv = Ok cfg /\
    cfg_telexAPIKey cfg = "test_key_123" /\
    cfg_agentID cfg ≠ "" /\ cfg_addr cfg ≠ ":".
Proof.
  intros Getenv. eexists. split; [reflexivity|].
  destruct (proj2 (main_config_defaults Getenv) _ eq_refl)
    as (_ & Hkey & _ & _ & _ & Hagent & Haddr & _).
  split; [exact Hkey|]. split; [exact Hagent | exact Haddr].
Defined.

Lemma metrics_after_direct_messages_witness :
  let requests :=
    [ (env_up, {| req_UserID := "context_test"; req_Message := "My name is Alice" |});
      (env_down, {| req_UserID := "context_test"; req_Message := "What is my name?" |});
      (env_up, {| req_UserID := "intent_test"; req_Message := "Hi there!" |}) ] in
  exists conversations stamp,
    info_Body (getMetrics env_up map_to_list
                 (handle_all sample_lower requests (initial ∅))).1
    = MetricsBody conversations 3 conversations "Groq (FREE)" "Llama 3.3 70B"
        stamp.
Proof.
  intros requests.
  assert (Hvisit : visit_order map_to_list) by (by intros h).
  destruct (metrics_after_direct_messages sample_lower requests env_up map_to_list
              Hvisit eq_refl) as [_ Hbody].
  eexists _, _. exact Hbody.
Defined.
